(** * PARIS player/exporter: the schedule parser and the PCM16 synthesizer

    A shallow embedding of [parse_paris] and [synthesize_pcm16] from
    [paris_player_exporter.py].  Python [int] is [Z]; Python [float] is the
    primitive binary64 [float] of the kernel, so every [*], [/] and [-] of the
    source is the IEEE operation it is in CPython.  Exceptions are values of
    an error monad.  [math.sin] and [math.cos] belong to the C library, not to
    the repository: the synthesizer takes them as parameters.  Of the
    application, [write_wav], [App.read_params] and [App.synthesize_to_wav]
    are embedded as well, over the calls they make into Python's library.

    The memory of the interpreter is not part of the model: a run that
    exhausts it ends in [MemoryError], which is none of the errors below.
    So where a statement is about every input, it says what a run that
    returns has computed and which errors a run cannot raise. *)

From Stdlib Require Import ZArith List Lia Bool String Ascii.
From Stdlib.Strings Require Import Byte.
From Stdlib Require Import Floats.
From Stdlib Require DecimalString DecimalPos.
Import ListNotations.

Local Open Scope Z_scope.

(* ================================================================== *)
(** * Exceptions *)

Inductive exn : Type :=
| OverflowError (msg : string)
| ValueError (msg : string)
| ZeroDivisionError (msg : string)
| StructError (msg : string).

Definition result (A : Type) : Type := (exn + A)%type.

Definition ret {A} (a : A) : result A := inr a.
Definition raise {A} (e : exn) : result A := inl e.
Definition bind {A B} (c : result A) (k : A -> result B) : result B :=
  match c with
  | inl e => inl e
  | inr a => k a
  end.

Notation "x <- c ;; k" := (bind c (fun x => k))
  (at level 61, c at next level, right associativity).

Definition succeeds {A} (c : result A) : bool :=
  match c with inr _ => true | inl _ => false end.

(* ================================================================== *)
(** * Python numbers *)

Module Py.

(** ** [float(n)] and the mixed [int]/[float] arithmetic *)

(** The correctly rounded binary64 value of an integer. *)
Definition Z2SF (z : Z) : spec_float := binary_normalize prec emax z 0 false.

Definition Z2F (z : Z) : float := SF2Prim (Z2SF z).

(** [float(n)], also the implicit conversion of an [int] operand next to a
    [float] one: [OverflowError] when the rounded value is not finite. *)
Definition float_of_int (z : Z) : result float :=
  match Z2SF z with
  | S754_infinity _ => raise (OverflowError "int too large to convert to float")
  | sf => ret (SF2Prim sf)
  end.

(** [x / y] on floats: Python raises on a zero divisor. *)
Definition fdiv (x y : float) : result float :=
  if is_zero y then raise (ZeroDivisionError "float division by zero")
  else ret (x / y)%float.

(** [a / b] on two ints (true division): the correctly rounded quotient.
    CPython divides the two doubles when both operands are below [2^53] in
    absolute value, and otherwise rounds the exact quotient once. *)
Definition int_truediv (a b : Z) : result float :=
  if b =? 0 then raise (ZeroDivisionError "division by zero")
  else if a =? 0 then ret (if b <? 0 then neg_zero else zero)
  else if (Z.abs a <? 2 ^ 53) && (Z.abs b <? 2 ^ 53) then ret (Z2F a / Z2F b)%float
  else
    let '(q, e, l) := SFdiv_core_binary prec emax (Z.abs a) 0 (Z.abs b) 0 in
    match binary_round_aux prec emax (xorb (a <? 0) (b <? 0)) q e l with
    | S754_infinity _ =>
        raise (OverflowError "integer division result too large for a float")
    | sf => ret (SF2Prim sf)
    end.

(** ** [int(x)] and [round(x)] on a float *)

Definition not_an_integer {A} (x : spec_float) (k : bool -> positive -> Z -> A)
    (z : A) : result A :=
  match x with
  | S754_nan => raise (ValueError "cannot convert float NaN to integer")
  | S754_infinity _ => raise (OverflowError "cannot convert float infinity to integer")
  | S754_zero _ => ret z
  | S754_finite s m e => ret (k s m e)
  end.

(** Truncation toward zero of [(-1)^s * m * 2^e]. *)
Definition trunc_finite (s : bool) (m : positive) (e : Z) : Z :=
  cond_Zopp s (if 0 <=? e then Zpos m * 2 ^ e else Zpos m / 2 ^ (- e)).

(** Rounding to the nearest integer, ties to the even one. *)
Definition round_finite (s : bool) (m : positive) (e : Z) : Z :=
  cond_Zopp s
    (if 0 <=? e then Zpos m * 2 ^ e
     else
       let d := 2 ^ (- e) in
       let q := Zpos m / d in
       let r := Zpos m mod d in
       match 2 * r ?= d with
       | Lt => q
       | Gt => q + 1
       | Eq => if Z.even q then q else q + 1
       end).

Definition int_of_float (x : float) : result Z :=
  not_an_integer (Prim2SF x) trunc_finite 0.

Definition round (x : float) : result Z :=
  not_an_integer (Prim2SF x) round_finite 0.

(** ** Dynamically typed numbers: the arguments of [synthesize_pcm16] *)

Inductive num : Type :=
| Int (z : Z)
| Float (f : float).

(** The exact comparison of a float with an int. *)
Definition SF_Zcompare (x : spec_float) (z : Z) : option comparison :=
  match x with
  | S754_nan => None
  | S754_infinity s => Some (if s then Lt else Gt)
  | S754_zero _ => Some (0 ?= z)
  | S754_finite s m e =>
      let v := cond_Zopp s (Zpos m) in
      Some (if 0 <=? e then v * 2 ^ e ?= z else v ?= z * 2 ^ (- e))
  end.

(** [a < b]. *)
Definition lt (a b : num) : bool :=
  match a, b with
  | Int x, Int y => x <? y
  | Float x, Float y => (x <? y)%float
  | Float x, Int y =>
      match SF_Zcompare (Prim2SF x) y with Some Lt => true | _ => false end
  | Int x, Float y =>
      match SF_Zcompare (Prim2SF y) x with Some Gt => true | _ => false end
  end.

(** [min(a, b)] keeps its first argument unless the second is smaller;
    [max(a, b)] keeps its first argument unless the second is larger. *)
Definition min (a b : num) : num := if lt b a then b else a.
Definition max (a b : num) : num := if lt a b then b else a.

Definition fmin (a b : float) : float := if (b <? a)%float then b else a.
Definition fmax (a b : float) : float := if (a <? b)%float then b else a.

(** [float(x)] and [int(x)]. *)
Definition to_float (x : num) : result float :=
  match x with
  | Int z => float_of_int z
  | Float f => ret f
  end.

Definition to_int (x : num) : result Z :=
  match x with
  | Int z => ret z
  | Float f => int_of_float f
  end.

End Py.

(* ================================================================== *)
(** * The schedule parser *)

(** A line of the file is a [string]: a sequence of code points below 256.
    On that range [str.strip] removes the characters below, [str.lower]
    changes only letters, and [int] reads ASCII digits. *)

Definition is_space (c : ascii) : bool :=
  let n := N_of_ascii c in
  ((9 <=? n) && (n <=? 13) || (28 <=? n) && (n <=? 32) || (n =? 133) || (n =? 160))%N.

Fixpoint lstrip (s : string) : string :=
  match s with
  | String c rest => if is_space c then lstrip rest else s
  | EmptyString => EmptyString
  end.

Fixpoint rstrip (s : string) : string :=
  match s with
  | String c rest =>
      match rstrip rest with
      | EmptyString => if is_space c then EmptyString else String c EmptyString
      | rest' => String c rest'
      end
  | EmptyString => EmptyString
  end.

(** [s.strip()]. *)
Definition strip (s : string) : string := rstrip (lstrip s).

Definition lower_char (c : ascii) : ascii :=
  let n := N_of_ascii c in
  if ((65 <=? n) && (n <=? 90) || (192 <=? n) && (n <=? 222) && negb (n =? 215))%N
  then ascii_of_N (n + 32) else c.

(** [s.lower()]. *)
Fixpoint lower (s : string) : string :=
  match s with
  | String c rest => String (lower_char c) (lower rest)
  | EmptyString => EmptyString
  end.

(** [s.startswith(p)]. *)
Definition startswith (p s : string) : bool := String.prefix p s.

(** [s.split(',')]: the fields between the commas, at least one. *)
Fixpoint split_comma (s : string) : list string :=
  match s with
  | EmptyString => [EmptyString]
  | String c rest =>
      if Ascii.eqb c "," then EmptyString :: split_comma rest
      else
        match split_comma rest with
        | field :: fields => String c field :: fields
        | [] => [String c EmptyString]
        end
  end.

Definition digit_of (c : ascii) : option Z :=
  let n := N_of_ascii c in
  if ((48 <=? n) && (n <=? 57))%N then Some (Z.of_N n - 48) else None.

(** The digits of a decimal literal, single underscores allowed between two
    digits; [after_digit] tells whether the previous character was a digit. *)
Fixpoint int_digits (s : string) (acc : Z) (after_digit : bool) : option Z :=
  match s with
  | EmptyString => if after_digit then Some acc else None
  | String c rest =>
      match digit_of c with
      | Some d => int_digits rest (10 * acc + d) true
      | None =>
          if Ascii.eqb c "_" && after_digit then int_digits rest acc false
          else None
      end
  end.

(** [sys.get_int_max_str_digits()], as the interpreter starts: [int] refuses
    a text with more decimal digits, and so does [str] for an [int] that
    needs more. *)
Definition int_max_str_digits : Z := 4300.

(** The number of digits of a text; the sign and the underscores do not
    count. *)
Fixpoint count_digits (s : string) : Z :=
  match s with
  | EmptyString => 0
  | String c rest =>
      match digit_of c with
      | Some _ => 1 + count_digits rest
      | None => count_digits rest
      end
  end.

(** [int(s)] on a stripped string, [None] for the [ValueError] the parser
    catches: a text that is not a decimal literal, or one with more than
    [int_max_str_digits] digits. *)
Definition int_of_string (s : string) : option Z :=
  if int_max_str_digits <? count_digits s then None
  else
    match s with
    | String "+" rest => int_digits rest 0 false
    | String "-" rest => option_map Z.opp (int_digits rest 0 false)
    | _ => int_digits s 0 false
    end.

(** One pass of [for line in f]: [None] is a [continue], [Some] the row
    appended. *)
Definition parse_line (line : string) : option (Z * Z) :=
  let ln := strip line in
  if String.eqb ln "" || startswith "#" ln then None
  else if startswith "duration_ms" (lower ln) then None
  else
    match map strip (split_comma ln) with
    | [p0; p1] =>
        match int_of_string p0 with
        | Some d =>
            match int_of_string p1 with
            | Some v =>
                let v := if v =? 0 then 0 else 1 in
                if 0 <=? d then Some (d, v) else None
            | None => None
            end
        | None => None
        end
    | _ => None
    end.

Fixpoint parse_lines (lines : list string) (rows : list (Z * Z)) : list (Z * Z) :=
  match lines with
  | [] => rows
  | line :: rest =>
      parse_lines rest
        (match parse_line line with
         | Some row => rows ++ [row]
         | None => rows
         end)
  end.

(** [parse_paris], on the lines of the opened file. *)
Definition parse_paris (lines : list string) : result (list (Z * Z)) :=
  match parse_lines lines [] with
  | [] => raise (ValueError "No timing rows found in file.")
  | rows => ret rows
  end.

(** The rows the line rules accept, in file order. *)
Definition accepted_rows (lines : list string) : list (Z * Z) :=
  flat_map (fun line => match parse_line line with
                        | Some row => [row]
                        | None => []
                        end) lines.

(** The body of the [try] block, on the stripped fields of a line. *)
Definition row_of_fields (parts : list string) : option (Z * Z) :=
  match parts with
  | [p0; p1] =>
      match int_of_string p0 with
      | Some d =>
          match int_of_string p1 with
          | Some v => if 0 <=? d then Some (d, if v =? 0 then 0 else 1) else None
          | None => None
          end
      | None => None
      end
  | _ => None
  end.

(** Strings of whitespace only, and strings without a comma. *)
Definition all_space (s : string) : bool :=
  forallb is_space (list_ascii_of_string s).

Definition no_comma (s : string) : bool :=
  forallb (fun c => negb (Ascii.eqb c ",")) (list_ascii_of_string s).

(** [str(z)]: the decimal digits of an [int], with [-] for a negative one
    (for an [int] of at most [int_max_str_digits] digits; [str] raises on a
    longer one). *)
Definition str_int (z : Z) : string :=
  DecimalString.NilZero.string_of_int (Z.to_int z).

(** The end of a line of a text file. *)
Definition newline : string := String "010" EmptyString.

(** A row as the file format writes it: [duration_ms,value] and the end
    of the line. *)
Definition row_line (row : Z * Z) : string :=
  (str_int (fst row) ++ "," ++ str_int (snd row) ++ newline)%string.

(** The row [parse_paris] keeps for a pair of integers: the value becomes
    0 or 1. *)
Definition normalized (row : Z * Z) : Z * Z :=
  (fst row, if snd row =? 0 then 0 else 1).

(* ================================================================== *)
(** * The synthesizer *)

(** [struct.pack('<h', s)]: the two bytes of a signed 16-bit integer, low
    byte first; [struct.error] outside [-32768, 32767]. *)
Definition byte_of_Z (z : Z) : byte :=
  match Byte.of_N (Z.to_N (z mod 256)) with
  | Some b => b
  | None => x00
  end.

Definition le16 (s : Z) : list byte :=
  let u := s mod 65536 in
  [byte_of_Z u; byte_of_Z (u / 256)].

Definition pack_h (s : Z) : result (list byte) :=
  if (-32768 <=? s) && (s <=? 32767) then ret (le16 s)
  else raise (StructError "short format requires (-32768) <= number <= 32767").

(** The signed 16-bit integer two bytes stand for, and the samples of a
    byte buffer: what a reader of the PCM data sees. *)
Definition unpack_h (lo hi : byte) : Z :=
  let u := Z.of_N (Byte.to_N lo) + 256 * Z.of_N (Byte.to_N hi) in
  if u <? 32768 then u else u - 65536.

Fixpoint samples_of (frames : list byte) : list Z :=
  match frames with
  | lo :: hi :: rest => unpack_h lo hi :: samples_of rest
  | _ => []
  end.

(** The bytes of a list of samples. *)
Definition encode (samples : list Z) : list byte := flat_map le16 samples.

Definition math_pi : float := 0x1.921fb54442d18p+1%float.

Definition two_pi : float := (2.0 * math_pi)%float.

Record params : Type := {
  samplerate : Z;
  volume : float;
  freq_hz : float;
  ramp_ms : float;
  ramp_samples : Z
}.

(** The state of the loops: the byte buffer [frames] and the running sample
    index [t]. *)
Definition state : Type := (list byte * Z)%type.

(** [seg_len = int(round(samplerate * (dur_ms / 1000.0)))]. *)
Definition seg_len (samplerate dur_ms : Z) : result Z :=
  d <- Py.float_of_int dur_ms ;;
  q <- Py.fdiv d 1000.0 ;;
  sr <- Py.float_of_int samplerate ;;
  Py.round (sr * q)%float.

(** [ramp_samples = int(samplerate * (ramp_ms / 1000.0))]. *)
Definition ramp_samples_of (samplerate : Z) (ramp_ms : float) : result Z :=
  q <- Py.fdiv ramp_ms 1000.0 ;;
  sr <- Py.float_of_int samplerate ;;
  Py.int_of_float (sr * q)%float.

(** [max(-1.0, min(1.0, sample))]. *)
Definition unit_clamp (sample : float) : float :=
  Py.fmax (-1.0) (Py.fmin 1.0 sample).

(** [int(max(-1.0, min(1.0, sample)) * 32767.0)]. *)
Definition quantize (sample : float) : result Z :=
  Py.int_of_float (unit_clamp sample * 32767.0)%float.

(** [two_pi * freq_hz * (t / samplerate)], the argument of [math.sin] at
    running index [t]. *)
Definition phase (freq_hz : float) (samplerate t : Z) : result float :=
  q <- Py.int_truediv t samplerate ;;
  ret (two_pi * freq_hz * q)%float.

(** [b'\x00\x00' * seg_len]. *)
Definition silence (seg_len : Z) : list byte :=
  List.concat (repeat [x00; x00] (Z.to_nat seg_len)).

(** The four clamps at the head of [synthesize_pcm16]. *)
Definition clamp_samplerate (samplerate : Py.num) : result Z :=
  Py.to_int (Py.max (Py.Int 8000) (Py.min (Py.Int 192000) samplerate)).

Definition clamp_volume (volume : Py.num) : result float :=
  Py.to_float (Py.max (Py.Float 0.0) (Py.min (Py.Float 1.0) volume)).

Definition clamp_freq_hz (freq_hz : Py.num) : result float :=
  Py.to_float (Py.max (Py.Float 50.0) (Py.min (Py.Float 6000.0) freq_hz)).

Definition clamp_ramp_ms (ramp_ms : Py.num) : result float :=
  Py.to_float (Py.max (Py.Float 0.0) (Py.min (Py.Float 50.0) ramp_ms)).

Definition clamp_params (freq_hz samplerate volume ramp_ms : Py.num)
    : result params :=
  sr <- clamp_samplerate samplerate ;;
  v <- clamp_volume volume ;;
  f <- clamp_freq_hz freq_hz ;;
  r <- clamp_ramp_ms ramp_ms ;;
  rs <- ramp_samples_of sr r ;;
  ret {| samplerate := sr; volume := v; freq_hz := f; ramp_ms := r;
         ramp_samples := rs |}.

(* ================================================================== *)
(** * The application's data *)

(** [write_wav] hands these settings and the frames to the [wave] module:
    the state of the writer when it is closed. *)
Record wav : Type := {
  wav_nchannels : Z;
  wav_sampwidth : Z;
  wav_framerate : Z;
  wav_frames : list byte
}.

(** A call of [messagebox]. *)
Inductive dialog : Type :=
| showerror (title message : string)
| showwarning (title message : string)
| showinfo (title message : string).

(** The fields of [App] that [read_params] and [synthesize_to_wav] use, the
    lines of the log box and the message boxes shown so far. *)
Record App : Type := {
  paris_path : option string;
  var_freq : string;
  var_sr : string;
  var_vol : string;
  var_ramp : string;
  txt_log : list string;
  dialogs : list dialog
}.

(** [str(e)] *)
Definition exn_str (e : exn) : string :=
  match e with
  | OverflowError msg | ValueError msg | ZeroDivisionError msg | StructError msg => msg
  end.

(** [self.log(msg)] *)
Definition log (msg : string) (a : App) : App :=
  {| paris_path := paris_path a; var_freq := var_freq a; var_sr := var_sr a;
     var_vol := var_vol a; var_ramp := var_ramp a;
     txt_log := txt_log a ++ [msg]; dialogs := dialogs a |}.

Definition messagebox (d : dialog) (a : App) : App :=
  {| paris_path := paris_path a; var_freq := var_freq a; var_sr := var_sr a;
     var_vol := var_vol a; var_ramp := var_ramp a;
     txt_log := txt_log a; dialogs := dialogs a ++ [d] |}.

(** Stand-ins for Python's library, to run the application on concrete
    entries: the texts of a few numbers, a file of two rows, a writer that
    accepts everything. *)
Definition stub_float (s : string) : result float :=
  if String.eqb s "700" then ret 700%float
  else if String.eqb s "4000" then ret 4000%float
  else if String.eqb s "0.5" then ret 0.5%float
  else if String.eqb s "5" then ret 5%float
  else raise (ValueError "could not convert string to float").

Definition stub_lines (path : string) : result (list string) :=
  ret ["1,1"; "1,0"]%string.

Definition stub_wave (path : string) (w : wav) : result unit := ret tt.

Definition stub_2f (x : float) : string := "0.00".

(** What is assumed of [math.sin] and [math.cos] where a statement needs
    it: on a finite argument they return. *)
Definition returns_on_finite (fn : float -> result float) : Prop :=
  forall x, is_finite x = true -> exists y, fn x = inr y.

(** Stand-ins for the C library, to run the model on concrete inputs:
    truncated Taylor polynomials, kept inside [-1, 1]. *)
Definition poly_sin (x : float) : result float :=
  ret (unit_clamp (x - x * x * x / 6))%float.

Definition poly_cos (x : float) : result float :=
  ret (unit_clamp (1 - x * x / 2))%float.

Section Synthesizer.

(** [math.sin] and [math.cos]: functions of the C library behind CPython's
    [math] module, which may raise ([ValueError] on an infinite argument). *)
Variables math_sin math_cos : float -> result float.

(** [0.5 * (1 - math.cos(math.pi * i / ramp_samples))]. *)
Definition raised_cosine (ramp_samples i : Z) : result float :=
  fi <- Py.float_of_int i ;;
  fr <- Py.float_of_int ramp_samples ;;
  q <- Py.fdiv (math_pi * fi)%float fr ;;
  c <- math_cos q ;;
  ret (0.5 * (1 - c))%float.

(** The envelope multiplier [env] of the sample at local index [n]. *)
Definition envelope (ramp_samples seg_len n : Z) : result float :=
  if 0 <? ramp_samples then
    if n <? ramp_samples then raised_cosine ramp_samples n
    else if seg_len - n <=? ramp_samples then
      let k := seg_len - n in
      raised_cosine ramp_samples k
    else ret 1.0%float
  else ret 1.0%float.

(** The integer [s] of one tone sample, at local index [n] and running
    index [t]. *)
Definition tone_sample (p : params) (seg_len n t : Z) : result Z :=
  env <- envelope (ramp_samples p) seg_len n ;;
  ph <- phase (freq_hz p) (samplerate p) t ;;
  sn <- math_sin ph ;;
  let sample := (volume p * env * sn)%float in
  quantize sample.

(** One pass of [for n in range(seg_len)]. *)
Definition tone_body (p : params) (seg_len n : Z) (st : state) : result state :=
  let '(frames, t) := st in
  s <- tone_sample p seg_len n t ;;
  b <- pack_h s ;;
  ret (frames ++ b, t + 1).

(** [for n in range(seg_len)], with [k] passes left and [n] the next index. *)
Fixpoint tone_loop (p : params) (seg_len : Z) (k : nat) (n : Z) (st : state)
    : result state :=
  match k with
  | O => ret st
  | S k' =>
      st' <- tone_body p seg_len n st ;;
      tone_loop p seg_len k' (n + 1) st'
  end.

(** One pass of [for (dur_ms, val) in rows]. *)
Definition segment (p : params) (row : Z * Z) (st : state) : result state :=
  let '(dur_ms, val) := row in
  sl <- seg_len (samplerate p) dur_ms ;;
  if sl <=? 0 then ret st
  else if val =? 1 then tone_loop p sl (Z.to_nat sl) 0 st
  else let '(frames, t) := st in ret (frames ++ silence sl, t + sl).

Fixpoint segments (p : params) (rows : list (Z * Z)) (st : state) : result state :=
  match rows with
  | [] => ret st
  | row :: rest =>
      st' <- segment p row st ;;
      segments p rest st'
  end.

(** [synthesize_pcm16(rows, freq_hz, samplerate, volume, ramp_ms)]: the
    bytes and the number of samples. *)
Definition synthesize_pcm16 (rows : list (Z * Z))
    (freq_hz samplerate volume ramp_ms : Py.num) : result (list byte * Z) :=
  p <- clamp_params freq_hz samplerate volume ramp_ms ;;
  segments p rows ([], 0).

(** ** The samples of a schedule, segment by segment

    What the specification describes: each tone sample is computed at its
    absolute index [t] in the whole output, a silence segment is [seg_len]
    zeros, a segment of non-positive length is nothing. *)

Fixpoint tone_samples (p : params) (seg_len : Z) (k : nat) (n t : Z)
    : result (list Z) :=
  match k with
  | O => ret []
  | S k' =>
      s <- tone_sample p seg_len n t ;;
      rest <- tone_samples p seg_len k' (n + 1) (t + 1) ;;
      ret (s :: rest)
  end.

Fixpoint schedule_samples (p : params) (rows : list (Z * Z)) (t : Z)
    : result (list Z) :=
  match rows with
  | [] => ret []
  | (dur_ms, val) :: rest =>
      sl <- seg_len (samplerate p) dur_ms ;;
      if sl <=? 0 then schedule_samples p rest t
      else
        here <- (if val =? 1 then tone_samples p sl (Z.to_nat sl) 0 t
                 else ret (repeat 0 (Z.to_nat sl))) ;;
        rest' <- schedule_samples p rest (t + sl) ;;
        ret (here ++ rest')
  end.


(** The rounded lengths of the segments, and the number of samples they
    contribute: a length that is not positive counts for nothing. *)
Fixpoint seg_lens (samplerate : Z) (rows : list (Z * Z)) : result (list Z) :=
  match rows with
  | [] => ret []
  | (dur_ms, _) :: rest =>
      sl <- seg_len samplerate dur_ms ;;
      ls <- seg_lens samplerate rest ;;
      ret (sl :: ls)
  end.

Definition contribution (sl : Z) : Z := if sl <=? 0 then 0 else sl.

Definition total_samples (ls : list Z) : Z :=
  fold_right (fun sl acc => contribution sl + acc) 0 ls.

(* ================================================================== *)
(** * The application: reading the parameters and writing the file *)

(** What the application takes from Python's library: [float] on a text,
    the lines of the file at a path, the [wave] writer (its checks and the
    file it leaves), and the format [.2f]. *)
Variable float_of_str : string -> result float.
Variable open_lines : string -> result (list string).
Variable wave_close : string -> wav -> result unit.
Variable format_2f : float -> string.

(** [write_wav(path, pcm_bytes, samplerate, nchannels, sampwidth)]; the
    callers leave [nchannels = 1] and [sampwidth = 2]. *)
Definition write_wav (path : string) (pcm_bytes : list byte)
    (samplerate nchannels sampwidth : Z) : result unit :=
  wave_close path
    {| wav_nchannels := nchannels; wav_sampwidth := sampwidth;
       wav_framerate := samplerate; wav_frames := pcm_bytes |}.

(** The [try] block of [read_params]. *)
Definition try_read_params (a : App) : result (float * Z * float * float) :=
  freq <- float_of_str (var_freq a) ;;
  x <- float_of_str (var_sr a) ;;
  sr <- Py.int_of_float x ;;
  vol <- float_of_str (var_vol a) ;;
  ramp <- float_of_str (var_ramp a) ;;
  if negb ((0 <=? vol) && (vol <=? 1))%float
  then raise (ValueError "Volume out of range")
  else ret (freq, sr, vol, ramp).

(** [self.read_params()]: the parameters, or [None] after an error box. *)
Definition read_params (a : App) : option (float * Z * float * float) * App :=
  match try_read_params a with
  | inr ps => (Some ps, a)
  | inl e =>
      (None,
       messagebox
         (showerror "Invalid Parameters"
            ("Please enter valid numeric parameters." ++ newline ++ newline
             ++ exn_str e)) a)
  end.

(** The [try] block of [synthesize_to_wav]: the message for the log. *)
Definition try_synthesize_to_wav (path out_path : string)
    (freq : float) (sr : Z) (vol ramp : float) : result string :=
  lines <- open_lines path ;;
  rows <- parse_paris lines ;;
  out <- synthesize_pcm16 rows (Py.Float freq) (Py.Int sr) (Py.Float vol)
           (Py.Float ramp) ;;
  let '(pcm, nsamples) := out in
  _ <- write_wav out_path pcm sr 1 2 ;;
  seconds <- Py.int_truediv nsamples sr ;;
  ret ("WAV written: " ++ out_path ++ " (" ++ format_2f seconds ++ "s)")%string.

(** [self.synthesize_to_wav(out_path)] *)
Definition synthesize_to_wav (out_path : string) (a : App) : bool * App :=
  match paris_path a with
  | None | Some EmptyString =>
      (false, messagebox (showwarning "No file" "Open a .paris file first.") a)
  | Some path =>
      match read_params a with
      | (None, a) => (false, a)
      | (Some (freq, sr, vol, ramp), a) =>
          match try_synthesize_to_wav path out_path freq sr vol ramp with
          | inr msg => (true, log msg a)
          | inl e =>
              (false,
               log ("Error: " ++ exn_str e)
                 (messagebox
                    (showerror "Synthesis failed"
                       ("Could not synthesize audio:" ++ newline ++ exn_str e)) a))
          end
      end
  end.

(* ================================================================== *)
(** * Magnitudes of binary64 values *)

(** The location a right shift leaves is inexact when one of its two bits
    is set. *)
Definition shr_flag (r : shr_record) : bool := shr_r r || shr_s r.

Definition inexact (l : location) : Z :=
  match l with loc_Exact => 0 | loc_Inexact _ => 1 end.

(** [m * 2^e <= b * 2^F], on integers. *)
Definition dle (m e b F : Z) : Prop :=
  m * 2 ^ (e - Z.min e F) <= b * 2 ^ (F - Z.min e F).

(** [|x| <= 2^k], for a float that is zero or finite. *)
Definition SFle2 (k : Z) (x : spec_float) : Prop :=
  match x with
  | S754_zero _ => True
  | S754_finite _ m e => Zpos m <= 2 ^ (k - e)
  | _ => False
  end.

(** [2^k <= |x|], for a finite float. *)
Definition SFge2 (k : Z) (x : spec_float) : Prop :=
  match x with
  | S754_finite _ m e => e <= k /\ 2 ^ (k - e) <= Zpos m
  | _ => False
  end.

Definition SFsign (x : spec_float) : bool :=
  match x with
  | S754_zero s | S754_infinity s | S754_finite s _ _ => s
  | S754_nan => false
  end.

Definition fle2 (k : Z) (x : float) : Prop := SFle2 k (Prim2SF x).
Definition fge2 (k : Z) (x : float) : Prop := SFge2 k (Prim2SF x).

(* ================================================================== *)
(** * Predicates and checkers used by the statements *)

(** A value [struct.pack('<h', _)] accepts. *)
Definition in_int16 (s : Z) : Prop := -32768 <= s <= 32767.

(** [max(lo, min(hi, x))] on floats. *)
Definition fclamp (lo hi x : float) : float := Py.fmax lo (Py.fmin hi x).

(** Checking a property of every integer of a range by computation. *)
Fixpoint all_from (P : Z -> bool) (lo : Z) (n : nat) : bool :=
  match n with
  | O => true
  | S n' => P lo && all_from P (lo + 1) n'
  end.

(** An int converts to a float that the clamp leaves alone. *)
Definition int_fixed (lo hi : float) (z : Z) : bool :=
  match Py.float_of_int z with
  | inr f => PrimFloat.Leibniz.eqb (fclamp lo hi f) f
  | inl _ => false
  end.

(** The parameters a synthesis runs with, once clamped. *)
Definition params_ok (p : params) : Prop :=
  8000 <= samplerate p <= 192000 /\ fle2 13 (freq_hz p) /\
  ramp_samples p <= 2 ^ 15.

(** ** What the specification asks of a clamp

    A value below the range gives the lower bound, a value above it the
    upper bound, a value inside is kept; [<] is Python's comparison.  What
    the specification leaves open is as the code has it: a NaN gives the
    upper bound, [-0.0] is kept as [0.0], an [int] inside the range becomes
    the [float] it converts to, and a [float] sample rate is truncated. *)
Definition kept (x : Py.num) (y : float) : Prop :=
  match x with
  | Py.Int z => Py.float_of_int z = inr y
  | Py.Float f => y = f \/ (f = (-0)%float /\ y = 0%float)
  end.

Definition saturated (lo hi : float) (x : Py.num) (y : float) : Prop :=
  (Py.lt x (Py.Float lo) = true -> y = lo) /\
  (Py.lt (Py.Float hi) x = true -> y = hi) /\
  (x = Py.Float nan -> y = hi) /\
  (Py.lt x (Py.Float lo) = false -> Py.lt (Py.Float hi) x = false ->
   x <> Py.Float nan -> kept x y).

Definition saturated_int (lo hi : Z) (x : Py.num) (z : Z) : Prop :=
  (Py.lt x (Py.Int lo) = true -> z = lo) /\
  (Py.lt (Py.Int hi) x = true -> z = hi) /\
  (x = Py.Float nan -> z = hi) /\
  (Py.lt x (Py.Int lo) = false -> Py.lt (Py.Int hi) x = false ->
   x <> Py.Float nan -> Py.to_int x = inr z).

(** A bound of a clamp: [0.0] or a positive number. *)
Definition bound (b : float) : Prop :=
  b = 0%float \/ exists m e, Prim2SF b = S754_finite false m e.

(** ** The length of a segment as the specification writes it

    [round(sample_rate * duration_ms / 1000)] on exact numbers, a half
    going to the even neighbour; the code computes it in binary64, see
    [seg_len]. *)
Definition round_half_even_div (a b : Z) : Z :=
  let q := a / b in
  let r := a mod b in
  match 2 * r ?= b with
  | Lt => q
  | Gt => q + 1
  | Eq => if Z.even q then q else q + 1
  end.

Definition exact_seg_len (samplerate dur_ms : Z) : Z :=
  round_half_even_div (samplerate * dur_ms) 1000.

(* ================================================================== *)
(** * Rounding in binary64: how far a result can be from its operands *)

Lemma iter_pos_nat {A} (f : A -> A) p : forall x,
  iter_pos f p x = Nat.iter (Pos.to_nat p) f x.
Proof.
  induction p as [p IH | p IH |]; intros x; cbn [iter_pos].
  - rewrite !IH, Pos2Nat.inj_xI.
    change (S (2 * Pos.to_nat p))%nat with (1 + 2 * Pos.to_nat p)%nat.
    replace (1 + 2 * Pos.to_nat p)%nat
      with (Pos.to_nat p + (Pos.to_nat p + 1))%nat by lia.
    rewrite !Nat.iter_add. reflexivity.
  - rewrite !IH, Pos2Nat.inj_xO.
    replace (2 * Pos.to_nat p)%nat with (Pos.to_nat p + Pos.to_nat p)%nat by lia.
    rewrite Nat.iter_add. reflexivity.
  - reflexivity.
Qed.


Lemma shr_1_m r : 0 <= shr_m r -> shr_m (shr_1 r) = shr_m r / 2.
Proof.
  destruct r as [m r s]; simpl. intros Hm.
  destruct m as [| [p | p |] | p]; try lia; simpl; try reflexivity.
  - rewrite Pos2Z.inj_xI. apply Z.div_unique with 1; lia.
  - rewrite Pos2Z.inj_xO. apply Z.div_unique with 0; lia.
Qed.

Lemma shr_1_flag r : 0 <= shr_m r ->
  shr_flag (shr_1 r) = Z.odd (shr_m r) || shr_flag r.
Proof.
  destruct r as [m r s]; unfold shr_flag; simpl. intros Hm.
  destruct m as [| [p | p |] | p]; try lia; simpl; try reflexivity.
Qed.

Lemma shr_iter n : forall r, 0 <= shr_m r ->
  let r' := Nat.iter n shr_1 r in
  shr_m r' = shr_m r / 2 ^ Z.of_nat n /\
  (shr_flag r' = true -> shr_flag r = true \/ shr_m r mod 2 ^ Z.of_nat n <> 0).
Proof.
  induction n as [| n IH]; intros r Hm; cbn zeta.
  - simpl. rewrite Z.div_1_r. auto.
  - rewrite Nat2Z.inj_succ, Z.pow_succ_r by lia.
    change (Nat.iter (S n) shr_1 r) with (shr_1 (Nat.iter n shr_1 r)).
    destruct (IH r Hm) as [Hq Hf].
    assert (Hp : 0 < 2 ^ Z.of_nat n) by (apply Z.pow_pos_nonneg; lia).
    assert (Hq0 : 0 <= shr_m (Nat.iter n shr_1 r)).
    { rewrite Hq. apply Z.div_pos; lia. }
    split.
    + rewrite shr_1_m by assumption. rewrite Hq, Z.div_div by lia.
      f_equal. lia.
    + rewrite shr_1_flag by assumption. intros H.
      apply orb_true_iff in H. destruct H as [H | H].
      * right. rewrite Hq in H. intros Hz.
        apply Z.mod_divide in Hz; [| lia]. destruct Hz as [c Hc].
        rewrite Hc in H.
        replace (c * (2 * 2 ^ Z.of_nat n)) with ((2 * c) * 2 ^ Z.of_nat n) in H by ring.
        rewrite Z.div_mul in H by lia.
        rewrite Z.odd_mul in H. discriminate.
      * destruct (Hf H) as [H1 | H1]; auto. right. intros Hz. apply H1.
        apply Z.mod_divide in Hz; [| lia]. destruct Hz as [c Hc].
        apply Z.mod_divide; [lia |]. exists (c * 2). lia.
Qed.

(** [shr] on a nonnegative mantissa. *)
Lemma shr_spec m r s e n : 0 <= m ->
  let '(r', e') := shr (Build_shr_record m r s) e n in
  e' = e + Z.max n 0 /\
  shr_m r' = m / 2 ^ Z.max n 0 /\
  (shr_flag r' = true -> r || s = true \/ m mod 2 ^ Z.max n 0 <> 0).
Proof.
  intros Hm. destruct n as [| p | p]; simpl shr.
  - simpl. rewrite Z.add_0_r, Z.div_1_r. auto.
  - rewrite iter_pos_nat.
    destruct (shr_iter (Pos.to_nat p) (Build_shr_record m r s) Hm) as [H1 H2].
    rewrite positive_nat_Z in H1, H2.
    rewrite Z.max_l by lia. auto.
  - rewrite Z.max_r by lia. simpl. rewrite Z.add_0_r, Z.div_1_r. auto.
Qed.

Lemma digits2_pos_bounds p :
  2 ^ (Zpos (digits2_pos p) - 1) <= Zpos p < 2 ^ Zpos (digits2_pos p).
Proof.
  induction p as [p IH | p IH |]; cbn [digits2_pos].
  - rewrite Pos2Z.inj_succ. change (Zpos p~1) with (2 * Zpos p + 1).
    replace (Z.succ (Zpos (digits2_pos p)) - 1) with (Z.succ (Zpos (digits2_pos p) - 1)) by lia.
    rewrite !Z.pow_succ_r by lia.
    destruct IH as [IH1 IH2]. revert IH1 IH2.
    generalize (2 ^ (Zpos (digits2_pos p) - 1)) (2 ^ Zpos (digits2_pos p)). lia.
  - rewrite Pos2Z.inj_succ. change (Zpos p~0) with (2 * Zpos p).
    replace (Z.succ (Zpos (digits2_pos p)) - 1) with (Z.succ (Zpos (digits2_pos p) - 1)) by lia.
    rewrite !Z.pow_succ_r by lia.
    destruct IH as [IH1 IH2]. revert IH1 IH2.
    generalize (2 ^ (Zpos (digits2_pos p) - 1)) (2 ^ Zpos (digits2_pos p)). lia.
  - simpl. lia.
Qed.

Lemma Zdigits2_nonneg m : 0 <= m -> 0 <= Zdigits2 m.
Proof. destruct m; simpl; lia. Qed.

Lemma Zdigits2_le m k : 0 <= m -> 0 <= k -> m < 2 ^ k -> Zdigits2 m <= k.
Proof.
  intros Hm Hk H. destruct m as [| p | p]; simpl; try lia.
  destruct (digits2_pos_bounds p) as [H1 _].
  assert (2 ^ (Zpos (digits2_pos p) - 1) < 2 ^ k) by lia.
  apply Z.pow_lt_mono_r_iff in H0; lia.
Qed.

Lemma Zdigits2_ge m k : 0 <= k -> 2 ^ k <= m -> k + 1 <= Zdigits2 m.
Proof.
  intros Hk H.
  assert (0 < 2 ^ k) by (apply Z.pow_pos_nonneg; lia).
  destruct m as [| p | p]; simpl; try lia.
  destruct (digits2_pos_bounds p) as [_ H1].
  assert (2 ^ k < 2 ^ Zpos (digits2_pos p)) by lia.
  apply Z.pow_lt_mono_r_iff in H2; lia.
Qed.



Lemma loc_flag m l :
  shr_record_of_loc m l = Build_shr_record m (shr_r (shr_record_of_loc m l)) (shr_s (shr_record_of_loc m l)) /\
  (shr_flag (shr_record_of_loc m l) = true -> inexact l = 1).
Proof. destruct l as [| []]; simpl; split; auto; discriminate. Qed.

Lemma round_nearest_even_le q r :
  q <= round_nearest_even q (loc_of_shr_record r) <= q + 1 /\
  (shr_flag r = false -> round_nearest_even q (loc_of_shr_record r) = q).
Proof.
  destruct r as [m [] []]; unfold shr_flag; simpl; try destruct (Z.even q);
    split; try lia; try discriminate; auto.
Qed.

Lemma pow2_pos k : 0 <= k -> 0 < 2 ^ k.
Proof. intros; apply Z.pow_pos_nonneg; lia. Qed.

Lemma pow2_split a b : 0 <= a -> 0 <= b -> 2 ^ (a + b) = 2 ^ a * 2 ^ b.
Proof. intros; apply Z.pow_add_r; lia. Qed.

Lemma pow2_le a b : a <= b -> 2 ^ a <= 2 ^ b.
Proof.
  intros H. destruct (Z.lt_ge_cases a 0).
  - rewrite (Z.pow_neg_r 2 a) by lia. apply Z.pow_nonneg; lia.
  - apply Z.pow_le_mono_r; lia.
Qed.

Theorem bra_upper sx M E l b F :
  0 <= M ->
  E <= fexp prec emax (Zdigits2 M + E) ->
  fexp prec emax (Zdigits2 M + E) <= F ->
  M + inexact l <= b * 2 ^ (F - E) ->
  F <= 1023 -> b <= 2 ^ (1023 - F) ->
  match binary_round_aux prec emax sx M E l with
  | S754_zero s => s = sx
  | S754_finite s m e => s = sx /\ dle (Zpos m) e b F
  | _ => False
  end.
Proof.
  intros HM Hal HF Hb HF' Hb'.
  assert (Hinx : 0 <= inexact l <= 1) by (destruct l; simpl; lia).
  set (e1 := fexp prec emax (Zdigits2 M + E)) in *.
  assert (Hbpos : 0 <= b).
  { destruct (Z.lt_ge_cases b 0) as [Hneg |]; [| assumption].
    assert (0 < 2 ^ (F - E)) by (apply pow2_pos; lia).
    assert (0 <= inexact l) by (destruct l; simpl; lia). nia. }
  unfold binary_round_aux, shr_fexp. fold e1.
  destruct (loc_flag M l) as [Hrec Hfl]. rewrite Hrec.
  pose proof (shr_spec M (shr_r (shr_record_of_loc M l))
                (shr_s (shr_record_of_loc M l)) E (e1 - E) HM) as H1.
  rewrite <- Hrec in H1 |- *.
  destruct (shr (shr_record_of_loc M l) E (e1 - E)) as [mrs' e'].
  destruct H1 as (He' & Hq & Hflag).
  rewrite Z.max_l in He', Hq, Hflag by lia.
  replace (E + (e1 - E)) with e1 in He' by lia. subst e'.
  set (n := e1 - E) in *.
  assert (Hn : 0 < 2 ^ n) by (apply pow2_pos; lia).
  set (B1 := b * 2 ^ (F - e1)).
  assert (HB : b * 2 ^ (F - E) = B1 * 2 ^ n).
  { unfold B1, n. rewrite <- Z.mul_assoc, <- pow2_split by lia. f_equal. f_equal. lia. }
  destruct (round_nearest_even_le (shr_m mrs') mrs') as [Hr1 Hr2].
  set (m1 := round_nearest_even (shr_m mrs') (loc_of_shr_record mrs')) in *.
  assert (Hm1 : 0 <= m1 <= B1).
  { assert (0 <= shr_m mrs') by (rewrite Hq; apply Z.div_pos; lia).
    split; [lia |].
    destruct (shr_flag mrs') eqn:Hf.
    - assert (M < B1 * 2 ^ n).
      { destruct (Hflag eq_refl) as [Hi | Hi].
        - assert (inexact l = 1).
          { apply Hfl. unfold shr_flag. exact Hi. }
          lia.
        - assert (M <> B1 * 2 ^ n); [| lia].
          intros HMeq. apply Hi. rewrite HMeq. apply Z.mod_mul. lia. }
      assert (M / 2 ^ n < B1) by (apply Z.div_lt_upper_bound; lia). lia.
    - rewrite (Hr2 eq_refl), Hq.
      assert (inexact l >= 0) by (destruct l; simpl; lia).
      apply Z.div_le_upper_bound; lia. }
  assert (HB1 : B1 <= 2 ^ (1023 - e1)).
  { unfold B1. replace (1023 - e1) with ((1023 - F) + (F - e1)) by lia.
    rewrite pow2_split by lia.
    apply Z.mul_le_mono_nonneg_r; [apply Z.pow_nonneg; lia | lia]. }
  pose proof (shr_spec m1 false false e1
                (fexp prec emax (Zdigits2 m1 + e1) - e1) (proj1 Hm1)) as H2.
  change (shr_record_of_loc m1 loc_Exact) with (Build_shr_record m1 false false).
  destruct (shr (Build_shr_record m1 false false) e1
              (fexp prec emax (Zdigits2 m1 + e1) - e1)) as [mrs'' e''].
  destruct H2 as (He'' & Hq2 & _).
  set (n2 := Z.max (fexp prec emax (Zdigits2 m1 + e1) - e1) 0) in *.
  assert (Hn2 : 0 <= n2) by (unfold n2; lia).
  assert (Hp2 : 0 < 2 ^ n2) by (apply pow2_pos; lia).
  destruct (shr_m mrs'') as [| m | m] eqn:Hm''.
  - reflexivity.
  - assert (Hm1pos : 0 < m1).
    { destruct (Z.eq_dec m1 0) as [Hz |]; [| lia].
      rewrite Hz, Z.div_0_l in Hq2 by lia. discriminate. }
    clear Hm''.
    assert (He1 : e1 <= 1023).
    { destruct (Z.le_gt_cases e1 1023); [assumption |].
      rewrite Z.pow_neg_r in HB1 by lia. lia. }
    assert (Hd1 : Zdigits2 m1 <= 1024 - e1).
    { apply Zdigits2_le; try lia.
      replace (1024 - e1) with (Z.succ (1023 - e1)) by lia.
      rewrite Z.pow_succ_r by lia.
      assert (0 < 2 ^ (1023 - e1)) by (apply pow2_pos; lia). lia. }
    assert (Hfin : e'' <= 971).
    { subst e''. unfold n2, fexp, FloatOps.prec, FloatOps.emax, emin in *.
      assert (e1 <= 971); [| lia].
      assert (HdM : Zdigits2 M <= 1024 - E).
      { assert (0 <= M + inexact l) by (destruct l; simpl; lia).
        assert (M < 2 ^ (1024 - E)).
        { assert (B1 * 2 ^ n <= 2 ^ (1023 - E)).
          { replace (1023 - E) with ((1023 - e1) + n) by (unfold n; lia).
            rewrite pow2_split by (unfold n; lia).
            apply Z.mul_le_mono_nonneg_r; lia. }
          assert (2 ^ (1023 - E) < 2 ^ (1024 - E)).
          { apply Z.pow_lt_mono_r; unfold n in *; lia. }
          assert (0 <= inexact l) by (destruct l; simpl; lia). lia. }
        apply Zdigits2_le; unfold n in *; lia. }
      unfold e1, fexp, FloatOps.prec, FloatOps.emax, emin. lia. }
    replace (e'' <=? emax - prec) with true
      by (symmetry; apply Z.leb_le; unfold emax, FloatOps.prec; lia).
    split; [reflexivity |].
    unfold dle.
    assert (Hm2 : Zpos m * 2 ^ n2 <= m1).
    { rewrite Hq2. rewrite Z.mul_comm. apply Z.mul_div_le. lia. }
    destruct (Z.le_gt_cases e'' F) as [Hc | Hc].
    + rewrite Z.min_l by lia. rewrite Z.sub_diag, Z.pow_0_r, Z.mul_1_r.
      assert (B1 = b * 2 ^ (F - e'') * 2 ^ n2).
      { unfold B1. rewrite <- Z.mul_assoc, <- pow2_split by lia.
        f_equal. f_equal. lia. }
      assert (0 <= b * 2 ^ (F - e'')).
      { apply Z.mul_nonneg_nonneg; [lia | apply Z.pow_nonneg; lia]. }
      nia.
    + rewrite Z.min_r by lia. rewrite Z.sub_diag, Z.pow_0_r, Z.mul_1_r.
      assert (2 ^ n2 = 2 ^ (e'' - F) * 2 ^ (F - e1)).
      { rewrite <- pow2_split by lia. f_equal. lia. }
      assert (0 < 2 ^ (F - e1)) by (apply pow2_pos; lia).
      assert (0 < 2 ^ (e'' - F)) by (apply pow2_pos; lia).
      unfold B1 in Hm1. nia.
  - exfalso.
    assert (0 <= m1 / 2 ^ n2) by (apply Z.div_pos; lia). lia.
Qed.




Lemma valid_finite s m e :
  valid_binary (S754_finite s m e) = true ->
  -1074 <= e <= 971 /\ Zpos (digits2_pos m) <= 53 /\
  (-1074 < e -> Zpos (digits2_pos m) = 53).
Proof.
  unfold valid_binary, bounded, canonical_mantissa, fexp, emin, emax, FloatOps.prec.
  intros H. apply andb_true_iff in H. destruct H as [H1 H2].
  apply Z.eqb_eq in H1. apply Z.leb_le in H2. lia.
Qed.

Lemma dle_pow2 m e k F : 0 < m -> F <= k -> dle m e (2 ^ (k - F)) F -> m <= 2 ^ (k - e).
Proof.
  unfold dle. intros Hm HF H.
  destruct (Z.le_gt_cases e F) as [Hc | Hc].
  - rewrite Z.min_l, Z.sub_diag, Z.pow_0_r, Z.mul_1_r in H by lia.
    rewrite <- pow2_split in H by lia.
    replace (k - F + (F - e)) with (k - e) in H by lia. exact H.
  - rewrite Z.min_r, Z.sub_diag, Z.pow_0_r, Z.mul_1_r in H by lia.
    assert (0 < 2 ^ (e - F)) by (apply pow2_pos; lia).
    destruct (Z.le_gt_cases e k) as [Hk | Hk].
    + replace (k - F) with ((k - e) + (e - F)) in H by lia.
      rewrite pow2_split in H by lia.
      apply Z.mul_le_mono_pos_r in H; assumption.
    + exfalso.
      assert (2 ^ (k - F) < 2 ^ (e - F)) by (apply Z.pow_lt_mono_r; lia).
      nia.
Qed.

(** Rounding does not cross a power of two. *)
Lemma bra_pow2 sx M E l k :
  0 <= M -> 0 < M + inexact l ->
  E <= fexp prec emax (Zdigits2 M + E) ->
  M + inexact l <= 2 ^ (k - E) ->
  -1074 <= k <= 1023 ->
  SFle2 k (binary_round_aux prec emax sx M E l) /\
  SFsign (binary_round_aux prec emax sx M E l) = sx.
Proof.
  intros HM Hpos Hal Hb Hk.
  assert (Hinx : 0 <= inexact l <= 1) by (destruct l; simpl; lia).
  assert (HkE : E <= k).
  { destruct (Z.le_gt_cases E k); [assumption |].
    rewrite Z.pow_neg_r in Hb by lia. lia. }
  set (e1 := fexp prec emax (Zdigits2 M + E)) in *.
  assert (He1 : e1 <= k).
  { assert (Zdigits2 M <= k - E + 1).
    { apply Zdigits2_le; try lia.
      replace (k - E + 1) with (Z.succ (k - E)) by lia.
      rewrite Z.pow_succ_r by lia.
      assert (0 < 2 ^ (k - E)) by (apply pow2_pos; lia). lia. }
    unfold e1, fexp, emin, emax, FloatOps.prec. lia. }
  pose proof (bra_upper sx M E l (2 ^ (k - e1)) e1 HM Hal (Z.le_refl _)) as H.
  rewrite <- pow2_split in H by lia.
  replace (k - e1 + (e1 - E)) with (k - E) in H by lia.
  specialize (H Hb ltac:(lia) ltac:(apply pow2_le; lia)).
  destruct (binary_round_aux prec emax sx M E l) as [s | s | | s m e]; simpl;
    try contradiction; auto.
  destruct H as [-> H]. split; [| reflexivity].
  apply dle_pow2 with e1; try lia. exact H.
Qed.

Lemma mul_aligned mx ex my ey :
  valid_binary (S754_finite false mx ex) = true ->
  valid_binary (S754_finite false my ey) = true ->
  ex + ey <= fexp prec emax (Zdigits2 (Zpos (mx * my)) + (ex + ey)).
Proof.
  intros Hx Hy.
  apply valid_finite in Hx, Hy.
  destruct (digits2_pos_bounds mx) as [Hx1 _].
  destruct (digits2_pos_bounds my) as [Hy1 _].
  assert (Zpos (digits2_pos mx) + Zpos (digits2_pos my) - 2 + 1
          <= Zdigits2 (Zpos (mx * my))).
  { apply Zdigits2_ge; [lia |].
    replace (Zpos (digits2_pos mx) + Zpos (digits2_pos my) - 2)
      with ((Zpos (digits2_pos mx) - 1) + (Zpos (digits2_pos my) - 1)) by lia.
    rewrite pow2_split by lia. rewrite Pos2Z.inj_mul.
    apply Z.mul_le_mono_nonneg; try lia; apply Z.pow_nonneg; lia. }
  unfold fexp, emin, emax, FloatOps.prec. lia.
Qed.

Lemma SFmul_le2 a c x y :
  valid_binary x = true -> valid_binary y = true ->
  SFle2 a x -> SFle2 c y -> -1074 <= a + c <= 1023 ->
  SFle2 (a + c) (SF64mul x y) /\
  SFsign (SF64mul x y) = xorb (SFsign x) (SFsign y).
Proof.
  intros Vx Vy Hx Hy Hk.
  destruct x as [sx | sx | | sx mx ex]; try contradiction;
    destruct y as [sy | sy | | sy my ey]; try contradiction;
    simpl; auto.
  unfold SF64mul, SFmul. simpl in Hx, Hy.
  assert (Hxe : ex <= a).
  { destruct (Z.le_gt_cases ex a); [assumption |].
    rewrite Z.pow_neg_r in Hx by lia. lia. }
  assert (Hye : ey <= c).
  { destruct (Z.le_gt_cases ey c); [assumption |].
    rewrite Z.pow_neg_r in Hy by lia. lia. }
  apply bra_pow2; cbn [inexact]; try lia.
  - apply mul_aligned; [exact Vx | exact Vy].
  - rewrite Z.add_0_r, Pos2Z.inj_mul.
    replace (a + c - (ex + ey)) with ((a - ex) + (c - ey)) by lia.
    rewrite pow2_split by lia.
    apply Z.mul_le_mono_nonneg; lia.
Qed.

Lemma new_location_inexact nb r :
  inexact (new_location nb r) = if r =? 0 then 0 else 1.
Proof.
  unfold new_location, new_location_even, new_location_odd.
  destruct (Z.even nb), (r =? 0); reflexivity.
Qed.

Lemma pow2_le_inv a b : 0 <= b -> 2 ^ a <= 2 ^ b -> a <= b.
Proof.
  intros Hb H. destruct (Z.le_gt_cases a b); [assumption |].
  assert (2 ^ b < 2 ^ a) by (apply Z.pow_lt_mono_r; lia). lia.
Qed.

Lemma SFdiv_le2 a c x y :
  valid_binary x = true -> valid_binary y = true ->
  SFle2 a x -> SFge2 c y -> -1074 <= a - c <= 1023 ->
  SFle2 (a - c) (SF64div x y) /\
  SFsign (SF64div x y) = xorb (SFsign x) (SFsign y).
Proof.
  intros Vx Vy Hx Hy Hk.
  destruct y as [sy | sy | | sy my ey]; try contradiction.
  destruct x as [sx | sx | | sx mx ex]; try contradiction; simpl; auto.
  unfold SF64div, SFdiv, SFdiv_core_binary.
  simpl in Hx, Hy. destruct Hy as [Hye Hy].
  assert (Hxe : ex <= a).
  { destruct (Z.le_gt_cases ex a); [assumption |].
    rewrite Z.pow_neg_r in Hx by lia. lia. }
  apply valid_finite in Vx, Vy.
  destruct (digits2_pos_bounds mx) as [Hdx1 Hdx2].
  destruct (digits2_pos_bounds my) as [Hdy1 Hdy2].
  cbn [Zdigits2].
  set (dx := Zpos (digits2_pos mx)) in *.
  set (dy := Zpos (digits2_pos my)) in *.
  assert (Hdxa : dx + ex <= a + 1).
  { assert (dx - 1 <= a - ex); [| lia].
    apply pow2_le_inv; lia. }
  assert (Hdyc : c + 1 <= dy + ey).
  { assert (c - ey < dy); [| lia].
    destruct (Z.lt_ge_cases (c - ey) dy); [assumption |].
    assert (2 ^ dy <= 2 ^ (c - ey)) by (apply pow2_le; lia). lia. }
  set (e' := Z.min (fexp prec emax (dx + ex - (dy + ey))) (ex - ey)).
  assert (He'k : e' <= a - c /\ e' <= ex - ey).
  { unfold e', fexp, emin, emax, FloatOps.prec. lia. }
  set (s := ex - ey - e').
  assert (Hs : 0 <= s) by (unfold s; lia).
  set (m' := match s with
             | 0 => Zpos mx
             | Zpos _ => Z.shiftl (Zpos mx) s
             | Zneg _ => 0
             end).
  assert (Hm' : m' = Zpos mx * 2 ^ s).
  { unfold m'. clearbody s. destruct s as [| p | p]; try lia.
    - rewrite Z.shiftl_mul_pow2 by lia. reflexivity. }
  clearbody m'.
  assert (Hps : 0 < 2 ^ s) by (apply pow2_pos; lia).
  assert (Hm'pos : 0 < m') by (rewrite Hm'; lia).
  pose proof (Z.div_eucl_eq m' (Zpos my) ltac:(lia)) as Hdiv.
  pose proof (Z.mod_pos_bound m' (Zpos my) ltac:(lia)) as Hmod.
  unfold Z.modulo in Hmod.
  destruct (Z.div_eucl m' (Zpos my)) as [q r].
  assert (Hq : 0 <= q) by nia.
  set (P := 2 ^ (c - ey)) in *.
  assert (HP : 0 < P) by (apply pow2_pos; lia).
  assert (HN : m' <= 2 ^ (a - c - e') * P).
  { unfold P. rewrite <- pow2_split by lia.
    replace (a - c - e' + (c - ey)) with ((a - ex) + s) by (unfold s; lia).
    rewrite pow2_split, Hm' by lia.
    apply Z.mul_le_mono_nonneg_r; lia. }
  assert (Hpk : 0 < 2 ^ (a - c - e')) by (apply pow2_pos; lia).
  apply bra_pow2; rewrite ?new_location_inexact; try lia.
  - destruct (Z.eqb_spec r 0); nia.
  - (* alignment *)
    destruct (Z.le_gt_cases (fexp prec emax (dx + ex - (dy + ey))) (ex - ey)) as [Hc | Hc].
    + destruct (Z.le_gt_cases (dx + ex - (dy + ey) - 53) (-1074)) as [Hsub | Hnorm].
      * unfold e', fexp, emin, emax, FloatOps.prec in *. lia.
      * assert (He' : e' = dx + ex - (dy + ey) - 53).
        { unfold e', fexp, emin, emax, FloatOps.prec in *. lia. }
        assert (Hs' : s = 53 - dx + dy) by (unfold s; lia).
        assert (2 ^ 52 <= q).
        { assert (2 ^ 52 * Zpos my < m').
          { rewrite Hm'.
            assert (2 ^ (52 + dy) <= Zpos mx * 2 ^ s).
            { replace (52 + dy) with ((dx - 1) + s) by lia.
              rewrite pow2_split by lia.
              apply Z.mul_le_mono_nonneg_r; lia. }
            rewrite pow2_split in H by lia.
            assert (0 < 2 ^ 52) by (apply pow2_pos; lia). nia. }
          assert (0 < 2 ^ 52) by (apply pow2_pos; lia).
          destruct (Z.le_gt_cases (2 ^ 52) q); [assumption | nia]. }
        assert (53 <= Zdigits2 q) by (apply (Zdigits2_ge q 52); lia).
        unfold fexp, emin, emax, FloatOps.prec. lia.
    + unfold e', fexp, emin, emax, FloatOps.prec in *. lia.
  - (* the bound *)
    assert (q * P <= q * Zpos my) by (apply Z.mul_le_mono_nonneg_l; lia).
    destruct (Z.eqb_spec r 0) as [Hr | Hr].
    + assert (q * P <= 2 ^ (a - c - e') * P) by nia.
      apply Z.mul_le_mono_pos_r in H0; lia.
    + assert (q * P < 2 ^ (a - c - e') * P) by nia.
      apply Z.mul_lt_mono_pos_r in H0; lia.
Qed.

Lemma digits2_pos_iter_nat p n :
  Zpos (digits2_pos (Nat.iter n xO p)) = Zpos (digits2_pos p) + Z.of_nat n /\
  Zpos (Nat.iter n xO p) = Zpos p * 2 ^ Z.of_nat n.
Proof.
  induction n as [| n IH].
  - change (Nat.iter 0 xO p) with p. change (Z.of_nat 0) with 0.
    rewrite Z.add_0_r, Z.pow_0_r, Z.mul_1_r. auto.
  - change (Nat.iter (S n) xO p) with (xO (Nat.iter n xO p)).
    cbn [digits2_pos].
    rewrite Pos2Z.inj_succ, Nat2Z.inj_succ, Z.pow_succ_r by lia.
    change (Zpos (Nat.iter n xO p)~0) with (2 * Zpos (Nat.iter n xO p)).
    destruct IH as [IH1 IH2]. rewrite IH1, IH2. split; ring.
Qed.

Lemma digits2_pos_iter p k :
  Zpos (digits2_pos (Pos.iter xO p k)) = Zpos (digits2_pos p) + Zpos k /\
  Zpos (Pos.iter xO p k) = Zpos p * 2 ^ Zpos k.
Proof.
  rewrite (Pos2Nat.inj_iter k), <- (positive_nat_Z k).
  apply digits2_pos_iter_nat.
Qed.

(** A nonzero integer below [2^53] converts exactly. *)
Lemma binary_round_exact s p :
  Zpos (digits2_pos p) <= 53 ->
  exists m,
    binary_round prec emax s p 0 = S754_finite s m (Zpos (digits2_pos p) - 53) /\
    Zpos m = Zpos p * 2 ^ (53 - Zpos (digits2_pos p)) /\
    Zpos (digits2_pos m) = 53.
Proof.
  intros Hd. unfold binary_round, shl_align.
  set (d := Zpos (digits2_pos p)) in *.
  assert (Hf : fexp prec emax (d + 0) = d - 53).
  { unfold fexp, emin, emax, FloatOps.prec. lia. }
  rewrite Hf.
  assert (Hround : forall m e, Zpos (digits2_pos m) = 53 -> -1074 <= e <= 971 ->
            binary_round_aux prec emax s (Zpos m) e loc_Exact = S754_finite s m e).
  { intros m e Hm He. unfold binary_round_aux, shr_fexp. cbn [Zdigits2].
    rewrite Hm.
    replace (fexp prec emax (53 + e) - e) with 0
      by (unfold fexp, emin, emax, FloatOps.prec; lia).
    cbn [shr shr_record_of_loc shr_m loc_of_shr_record round_nearest_even Zdigits2].
    rewrite Hm.
    replace (fexp prec emax (53 + e) - e) with 0
      by (unfold fexp, emin, emax, FloatOps.prec; lia).
    cbn [shr shr_m].
    replace (e <=? emax - prec) with true
      by (symmetry; apply Z.leb_le; unfold emax, FloatOps.prec; lia).
    reflexivity. }
  destruct (d - 53 - 0) as [| k | k] eqn:Ek; try lia.
  - exists p. rewrite Hround by (fold d; lia).
    replace (d - 53) with 0 by lia. replace (53 - d) with 0 by lia.
    rewrite Z.pow_0_r, Z.mul_1_r. fold d. repeat split; lia.
  - destruct (digits2_pos_iter p k) as [H1 H2].
    exists (Pos.iter xO p k).
    rewrite Hround by (fold d in H1; lia).
    fold d in H1. replace (53 - d) with (Zpos k) by lia.
    repeat split; lia.
Qed.

Lemma Z2SF_pos z :
  0 < z < 2 ^ 53 ->
  exists m e,
    binary_normalize prec emax z 0 false = S754_finite false m e /\
    -52 <= e <= 0 /\ Zpos m = z * 2 ^ (- e) /\ Zpos (digits2_pos m) = 53.
Proof.
  intros Hz. destruct z as [| p | p]; try lia. cbn [binary_normalize].
  assert (Hd : Zpos (digits2_pos p) <= 53).
  { change (Zpos (digits2_pos p)) with (Zdigits2 (Zpos p)).
    apply Zdigits2_le; lia. }
  destruct (binary_round_exact false p Hd) as (m & H1 & H2 & H3).
  exists m, (Zpos (digits2_pos p) - 53). rewrite H1.
  repeat split; try lia.
  rewrite H2. f_equal. f_equal. lia.
Qed.

Lemma finite_valid s m e :
  Zpos (digits2_pos m) = 53 -> -1074 <= e <= 971 ->
  valid_binary (S754_finite s m e) = true.
Proof.
  intros Hm He. unfold valid_binary, bounded, canonical_mantissa.
  rewrite Hm. apply andb_true_iff. split.
  - apply Z.eqb_eq. unfold fexp, emin, emax, FloatOps.prec. lia.
  - apply Z.leb_le. unfold emax, FloatOps.prec. lia.
Qed.


Lemma SFle2_mono k k' x : k <= k' -> SFle2 k x -> SFle2 k' x.
Proof.
  intros Hk. destruct x as [| | | s m e]; simpl; auto.
  intros H. etransitivity; [exact H |]. apply pow2_le. lia.
Qed.

Lemma fle2_mono k k' x : k <= k' -> fle2 k x -> fle2 k' x.
Proof. apply SFle2_mono. Qed.

Lemma fmul_le2 a c x y :
  fle2 a x -> fle2 c y -> -1074 <= a + c <= 1023 -> fle2 (a + c) (x * y)%float.
Proof.
  unfold fle2. intros Hx Hy Hk. rewrite mul_spec.
  apply SFmul_le2; auto using Prim2SF_valid.
Qed.

Lemma fdiv_le2 a c x y :
  fle2 a x -> fge2 c y -> -1074 <= a - c <= 1023 -> fle2 (a - c) (x / y)%float.
Proof.
  unfold fle2, fge2. intros Hx Hy Hk. rewrite div_spec.
  apply SFdiv_le2; auto using Prim2SF_valid.
Qed.

Lemma SFeqb_refl x : SFle2 1023 x -> SFeqb x x = true.
Proof.
  destruct x as [| | | s m e]; simpl; try contradiction; auto.
  intros _. unfold SFeqb, SFcompare.
  rewrite Z.compare_refl, Pos.compare_cont_refl. destruct s; reflexivity.
Qed.

Lemma fle2_finite k x : fle2 k x -> is_finite x = true.
Proof.
  unfold fle2, is_finite, is_nan, is_infinity. intros H.
  rewrite !eqb_spec, abs_spec.
  change (Prim2SF infinity) with (S754_infinity false).
  destruct (Prim2SF x) as [| | | s m e]; simpl in H; try contradiction.
  - reflexivity.
  - unfold SFeqb at 1. unfold SFcompare at 1.
    rewrite Z.compare_refl, Pos.compare_cont_refl. destruct s; reflexivity.
Qed.

Lemma fge2_nonzero k x : fge2 k x -> is_zero x = false.
Proof.
  unfold fge2, is_zero. rewrite eqb_spec.
  change (Prim2SF zero) with (S754_zero false).
  destruct (Prim2SF x) as [| | | s m e]; simpl; try contradiction.
  destruct s; reflexivity.
Qed.

(** Exact conversion of a positive integer below [2^53]. *)
Lemma Z2SF_valid z m e :
  binary_normalize prec emax z 0 false = S754_finite false m e ->
  -52 <= e <= 0 -> Zpos (digits2_pos m) = 53 ->
  Prim2SF (SF2Prim (binary_normalize prec emax z 0 false)) = S754_finite false m e.
Proof.
  intros H He Hm. rewrite H. apply Prim2SF_SF2Prim.
  apply finite_valid; lia.
Qed.

(* ================================================================== *)
(** * The integer of a sample *)

Lemma Prim2SF_one : Prim2SF 1 = S754_finite false 4503599627370496 (-52).
Proof. vm_compute. reflexivity. Qed.

Lemma Prim2SF_minus_one : Prim2SF (-1) = S754_finite true 4503599627370496 (-52).
Proof. vm_compute. reflexivity. Qed.

Lemma Prim2SF_32767 : Prim2SF 32767 = S754_finite false 9006924376834048 (-38).
Proof. vm_compute. reflexivity. Qed.

Lemma valid_32767 : valid_binary (S754_finite false 9006924376834048 (-38)) = true.
Proof. vm_compute. reflexivity. Qed.

Lemma unit_clamp_cases x :
  unit_clamp x = 1%float \/ unit_clamp x = (-1)%float \/
  (unit_clamp x = x /\ (x <? 1)%float = true /\ (-1 <? x)%float = true).
Proof.
  unfold unit_clamp, Py.fmax, Py.fmin.
  destruct (x <? 1)%float eqn:H1.
  - destruct (-1 <? x)%float eqn:H2; auto.
  - left. reflexivity.
Qed.

(** A float strictly between [-1] and [1] is zero or has an exponent of at
    most [-53]. *)
Lemma inside_unit x :
  (x <? 1)%float = true -> (-1 <? x)%float = true ->
  match Prim2SF x with
  | S754_zero _ => True
  | S754_finite _ m e => e <= -53
  | _ => False
  end.
Proof.
  rewrite !ltb_spec, Prim2SF_one, Prim2SF_minus_one.
  pose proof (Prim2SF_valid x) as V.
  destruct (Prim2SF x) as [s | s | | s m e].
  - auto.
  - cbn. destruct s; discriminate.
  - cbn. discriminate.
  - apply valid_finite in V. destruct V as (He & Hd & Hn).
    destruct (digits2_pos_bounds m) as [Hlo Hhi].
    unfold SFltb, SFcompare. intros H1 H2.
    destruct (Z.le_gt_cases e (-53)) as [| Hgt]; [assumption | exfalso].
    rewrite Hn in Hlo by lia.
    replace (2 ^ (53 - 1)) with 4503599627370496 in Hlo
      by (vm_compute; reflexivity).
    destruct s.
    + destruct (Z.compare_spec (-52) e) as [Heq | Hlt | Hgt'].
      * subst e. rewrite Pos.compare_cont_spec in H2. cbn [Pos.switch_Eq] in H2.
        destruct (Pos.compare_spec 4503599627370496 m) as [Hc | Hc | Hc];
          cbn [CompOpp] in H2; try discriminate.
        apply Pos2Z.pos_lt_pos in Hc. clear - Hc Hlo. lia.
      * discriminate.
      * lia.
    + destruct (Z.compare_spec e (-52)) as [Heq | Hlt | Hgt'].
      * subst e. rewrite Pos.compare_cont_spec in H1. cbn [Pos.switch_Eq] in H1.
        destruct (Pos.compare_spec m 4503599627370496) as [Hc | Hc | Hc];
          try discriminate.
        apply Pos2Z.pos_lt_pos in Hc. clear - Hc Hlo. lia.
      * lia.
      * discriminate.
Qed.

Lemma trunc_le s m e b :
  0 <= b -> dle (Zpos m) e b 0 -> - b <= Py.trunc_finite s m e <= b.
Proof.
  unfold dle, Py.trunc_finite. intros Hb H.
  assert (0 <= (if 0 <=? e then Zpos m * 2 ^ e else Zpos m / 2 ^ (- e)) <= b).
  { destruct (Z.leb_spec 0 e) as [He | He].
    - rewrite Z.min_r in H by lia.
      rewrite Z.sub_0_r, Z.sub_diag, Z.pow_0_r, Z.mul_1_r in H.
      split; [| assumption].
      apply Z.mul_nonneg_nonneg; [lia | apply Z.pow_nonneg; lia].
    - rewrite Z.min_l in H by lia.
      rewrite Z.sub_diag, Z.pow_0_r, Z.mul_1_r in H.
      replace (0 - e) with (- e) in H by lia.
      assert (0 < 2 ^ (- e)) by (apply pow2_pos; lia).
      split; [apply Z.div_pos; lia |].
      apply Z.div_le_upper_bound; lia. }
  revert H0.
  generalize (if 0 <=? e then Zpos m * 2 ^ e else Zpos m / 2 ^ (- e)).
  intros v Hv. destruct s; cbn [cond_Zopp]; lia.
Qed.

(** The integer of a sample: never an error, never beyond 32767. *)
Lemma quantize_range x :
  exists s, quantize x = inr s /\ -32767 <= s <= 32767.
Proof.
  unfold quantize.
  destruct (unit_clamp_cases x) as [-> | [-> | (-> & H1 & H2)]].
  - exists 32767. split; [vm_compute; reflexivity | lia].
  - exists (-32767). split; [vm_compute; reflexivity | lia].
  - unfold Py.int_of_float. rewrite mul_spec, Prim2SF_32767.
    pose proof (inside_unit x H1 H2) as Hin.
    pose proof (Prim2SF_valid x) as V.
    destruct (Prim2SF x) as [s | s | | s m e]; try contradiction.
    + exists 0. split; [reflexivity | lia].
    + unfold SF64mul, SFmul.
      pose proof (valid_finite _ _ _ V) as (He & Hd & _).
      destruct (digits2_pos_bounds m) as [_ Hhi].
      assert (Hm : Zpos m < 2 ^ 53).
      { eapply Z.lt_le_trans; [exact Hhi | apply pow2_le; lia]. }
      pose proof (bra_upper (xorb s false) (Zpos (m * 9006924376834048)) (e + -38)
                    loc_Exact 32767 0) as B.
      assert (HM : Zpos (m * 9006924376834048) < 2 ^ 106).
      { rewrite Pos2Z.inj_mul.
        replace (2 ^ 106) with (2 ^ 53 * 2 ^ 53) by (vm_compute; reflexivity).
        assert (9006924376834048 < 2 ^ 53) by (vm_compute; reflexivity).
        apply Z.mul_lt_mono_nonneg; lia. }
      assert (Hdig : Zdigits2 (Zpos (m * 9006924376834048)) <= 106).
      { apply Zdigits2_le; lia. }
      specialize (B ltac:(lia)).
      specialize (B (mul_aligned m e 9006924376834048 (-38) V valid_32767)).
      specialize (B ltac:(unfold fexp, emin, emax, FloatOps.prec; lia)).
      assert (Hb : Zpos (m * 9006924376834048) + inexact loc_Exact
                   <= 32767 * 2 ^ (0 - (e + -38))).
      { cbn [inexact]. rewrite Z.add_0_r, Pos2Z.inj_mul.
        replace (0 - (e + -38)) with (38 + (- e)) by lia.
        rewrite pow2_split by lia.
        replace 9006924376834048 with (32767 * 2 ^ 38) by (vm_compute; reflexivity).
        assert (2 ^ 53 <= 2 ^ (- e)) by (apply pow2_le; lia).
        assert (0 < 2 ^ 38) by (apply pow2_pos; lia).
        assert (Hmq : Zpos m <= 2 ^ (- e)) by lia.
        revert Hmq H0. generalize (2 ^ 38) (2 ^ (- e)) (Zpos m).
        clear. intros P Q M HMQ HP.
        assert (0 <= P * (Q - M)) by (apply Z.mul_nonneg_nonneg; lia).
        lia. }
      specialize (B Hb ltac:(lia)).
      assert (H32 : 32767 <= 2 ^ (1023 - 0)).
      { assert (2 ^ 15 <= 2 ^ (1023 - 0)) by (apply pow2_le; lia).
        assert (32767 <= 2 ^ 15) by (vm_compute; discriminate). lia. }
      specialize (B H32).
      destruct (binary_round_aux prec emax (xorb s false)
                  (Zpos (m * 9006924376834048)) (e + -38) loc_Exact)
        as [s' | s' | | s' m' e']; try contradiction.
      * exists 0. split; [reflexivity | lia].
      * destruct B as [_ B]. eexists. split; [reflexivity |].
        apply (trunc_le s' m' e' 32767); [lia | exact B].
Qed.

(* ================================================================== *)
(** * The loops and the samples they append *)

Lemma bind_inr {A B} (c : result A) (k : A -> result B) b :
  bind c k = inr b -> exists a, c = inr a /\ k a = inr b.
Proof. destruct c as [e | a]; simpl; [discriminate | eauto]. Qed.

Lemma bind_assoc {A B C} (c : result A) (f : A -> result B) (g : B -> result C) :
  bind (bind c f) g = bind c (fun a => bind (f a) g).
Proof. destruct c; reflexivity. Qed.

Lemma bind_ret_r {A} (c : result A) : bind c ret = c.
Proof. destruct c; reflexivity. Qed.

(** ** Sixteen-bit samples and their bytes *)

Lemma byte_of_Z_to_N z : Byte.to_N (byte_of_Z z) = Z.to_N (z mod 256).
Proof.
  unfold byte_of_Z.
  destruct (Byte.of_N (Z.to_N (z mod 256))) as [b |] eqn:E.
  - apply Byte.to_of_N. exact E.
  - apply Byte.of_N_None_iff in E.
    pose proof (Z.mod_pos_bound z 256 ltac:(lia)). lia.
Qed.

Lemma unpack_le16 s :
  -32768 <= s <= 32767 ->
  unpack_h (byte_of_Z (s mod 65536)) (byte_of_Z (s mod 65536 / 256)) = s.
Proof.
  intros Hs. unfold unpack_h. rewrite !byte_of_Z_to_N.
  pose proof (Z.mod_pos_bound s 65536 ltac:(lia)) as Hu.
  set (u := s mod 65536) in *.
  pose proof (Z.mod_pos_bound u 256 ltac:(lia)).
  assert (Hq : 0 <= u / 256 < 256).
  { split; [apply Z.div_pos; lia | apply Z.div_lt_upper_bound; lia]. }
  rewrite (Z.mod_small (u / 256)) by lia.
  rewrite !Z2N.id by lia.
  replace (u mod 256 + 256 * (u / 256)) with u
    by (rewrite (Z.div_mod u 256) at 1; lia).
  destruct (Z.ltb_spec u 32768) as [Hlt | Hge].
  - destruct (Z.lt_ge_cases s 0) as [Hneg | Hpos].
    + assert (u = s + 65536); [| lia].
      unfold u. symmetry. apply Z.mod_unique with (-1); lia.
    + unfold u. apply Z.mod_small. lia.
  - destruct (Z.lt_ge_cases s 0) as [Hneg | Hpos].
    + assert (u = s + 65536); [| lia].
      unfold u. symmetry. apply Z.mod_unique with (-1); lia.
    + assert (u = s) by (unfold u; apply Z.mod_small; lia). lia.
Qed.


Lemma samples_of_encode ss :
  Forall in_int16 ss -> samples_of (encode ss) = ss.
Proof.
  induction 1 as [| s ss Hs _ IH]; [reflexivity |].
  unfold encode in *. cbn [flat_map]. unfold le16 at 1.
  cbn [app samples_of]. rewrite IH, unpack_le16 by exact Hs. reflexivity.
Qed.

Lemma length_encode ss : List.length (encode ss) = (2 * List.length ss)%nat.
Proof.
  induction ss as [| s ss IH]; [reflexivity |].
  unfold encode in *. cbn [flat_map]. rewrite length_app, IH.
  unfold le16. cbn [List.length]. lia.
Qed.

Lemma encode_app a b : encode (a ++ b) = encode a ++ encode b.
Proof. unfold encode. apply flat_map_app. Qed.

Lemma silence_encode sl : silence sl = encode (repeat 0 (Z.to_nat sl)).
Proof.
  unfold silence, encode. induction (Z.to_nat sl) as [| n IH]; [reflexivity |].
  cbn [repeat List.concat flat_map]. rewrite IH. reflexivity.
Qed.

Lemma pack_h_ok s : in_int16 s -> pack_h s = inr (le16 s).
Proof.
  unfold in_int16, pack_h. intros Hs.
  destruct (Z.leb_spec (-32768) s); [| lia].
  destruct (Z.leb_spec s 32767); [| lia]. reflexivity.
Qed.


Lemma tone_sample_range p sl n t s :
  tone_sample p sl n t = inr s -> -32767 <= s <= 32767.
Proof.
  unfold tone_sample. intros H.
  apply bind_inr in H. destruct H as (env & _ & H).
  apply bind_inr in H. destruct H as (ph & _ & H).
  apply bind_inr in H. destruct H as (sn & _ & H).
  destruct (quantize_range (volume p * env * sn)) as (s' & Hq & Hr).
  rewrite Hq in H. injection H as <-. exact Hr.
Qed.

(** The inner loop appends the bytes of its samples and counts them. *)
Lemma tone_loop_samples p sl k : forall n frames t,
  tone_loop p sl k n (frames, t) =
  (ss <- tone_samples p sl k n t ;;
   ret (frames ++ encode ss, t + Z.of_nat (List.length ss))).
Proof.
  induction k as [| k IH]; intros n frames t.
  - cbn. rewrite app_nil_r, Z.add_0_r. reflexivity.
  - cbn [tone_loop tone_samples]. unfold tone_body.
    destruct (tone_sample p sl n t) as [e | s] eqn:Hs; [reflexivity |].
    cbn [bind].
    rewrite pack_h_ok by (apply tone_sample_range in Hs; unfold in_int16; lia).
    cbn [bind ret]. rewrite IH.
    destruct (tone_samples p sl k (n + 1) (t + 1)) as [e | ss]; [reflexivity |].
    cbn [bind ret]. unfold encode. cbn [flat_map List.length].
    rewrite <- app_assoc. do 2 f_equal. lia.
Qed.

Lemma tone_samples_length p sl k : forall n t ss,
  tone_samples p sl k n t = inr ss -> List.length ss = k.
Proof.
  induction k as [| k IH]; intros n t ss H.
  - injection H as <-. reflexivity.
  - cbn [tone_samples] in H.
    apply bind_inr in H. destruct H as (s & _ & H).
    apply bind_inr in H. destruct H as (rest & Hr & H).
    injection H as <-. cbn [List.length]. f_equal. eauto.
Qed.

(** The two loops together: the bytes are those of the schedule's samples,
    and [t] has advanced by their number. *)
Lemma segments_samples p rows : forall frames t,
  segments p rows (frames, t) =
  (ss <- schedule_samples p rows t ;;
   ret (frames ++ encode ss, t + Z.of_nat (List.length ss))).
Proof.
  induction rows as [| [dur_ms val] rows IH]; intros frames t.
  - cbn. rewrite app_nil_r, Z.add_0_r. reflexivity.
  - cbn [segments schedule_samples]. unfold segment.
    destruct (seg_len (samplerate p) dur_ms) as [e | sl]; [reflexivity |].
    cbn [bind].
    destruct (Z.leb_spec sl 0) as [Hle | Hpos].
    + cbn [bind ret]. apply IH.
    + destruct (val =? 1).
      * rewrite tone_loop_samples.
        destruct (tone_samples p sl (Z.to_nat sl) 0 t) as [e | here] eqn:Hh;
          [reflexivity |].
        cbn [bind ret]. rewrite IH.
        rewrite (tone_samples_length _ _ _ _ _ _ Hh), Z2Nat.id by lia.
        destruct (schedule_samples p rows (t + sl)) as [e | rest]; [reflexivity |].
        cbn [bind ret]. rewrite encode_app, length_app, app_assoc.
        rewrite (tone_samples_length _ _ _ _ _ _ Hh).
        do 2 f_equal. lia.
      * cbn [bind ret]. rewrite IH.
        destruct (schedule_samples p rows (t + sl)) as [e | rest]; [reflexivity |].
        cbn [bind ret]. rewrite encode_app, length_app, app_assoc, silence_encode.
        rewrite repeat_length. do 2 f_equal. lia.
Qed.

(* ================================================================== *)
(** * Clamped parameters *)



Lemma clamp_Float lo hi x :
  Py.max (Py.Float lo) (Py.min (Py.Float hi) (Py.Float x)) = Py.Float (fclamp lo hi x).
Proof.
  unfold Py.max, Py.min, fclamp, Py.fmax, Py.fmin. cbn [Py.lt].
  destruct (x <? hi)%float; cbn [Py.lt]; destruct (lo <? _)%float; reflexivity.
Qed.

Lemma fclamp_cases lo hi x :
  (lo <? hi)%float = true ->
  fclamp lo hi x = lo \/ fclamp lo hi x = hi \/
  (fclamp lo hi x = x /\ (lo <? x)%float = true /\ (x <? hi)%float = true).
Proof.
  unfold fclamp, Py.fmax, Py.fmin. intros Hlh.
  destruct (x <? hi)%float eqn:H1.
  - destruct (lo <? x)%float eqn:H2; auto.
  - rewrite Hlh. auto.
Qed.

Lemma fclamp_idem lo hi x :
  (lo <? hi)%float = true -> (lo <? lo)%float = false -> (hi <? hi)%float = false ->
  fclamp lo hi (fclamp lo hi x) = fclamp lo hi x.
Proof.
  intros Hlh Hll Hhh.
  destruct (fclamp_cases lo hi x Hlh) as [-> | [-> | (-> & H1 & H2)]];
    unfold fclamp, Py.fmax, Py.fmin.
  - rewrite Hlh, Hll. reflexivity.
  - rewrite Hhh, Hlh. reflexivity.
  - rewrite H2, H1. reflexivity.
Qed.

(** A float strictly between a nonnegative bound and a positive finite one
    is positive and finite, with an exponent not above the upper bound's. *)
Lemma SFltb_between lo x mh eh :
  SFltb lo x = true -> SFltb x (S754_finite false mh eh) = true ->
  SFsign lo = false ->
  exists m e, x = S754_finite false m e /\
    (e < eh \/ (e = eh /\ Zpos m < Zpos mh)).
Proof.
  unfold SFltb. intros H1 H2 Hs.
  destruct x as [s | s | | s m e].
  - exfalso. destruct lo as [[] | [] | | [] ml el]; cbn in H1, Hs; discriminate.
  - exfalso. destruct s; cbn in H2; try discriminate.
    destruct lo as [[] | [] | | [] ml el]; cbn in H1, Hs; discriminate.
  - exfalso. destruct lo; discriminate.
  - destruct s.
    + exfalso.
      destruct lo as [[] | [] | | [] ml el]; cbn in H1, Hs; discriminate.
    + exists m, e. split; [reflexivity |].
      cbn [SFcompare] in H2. rewrite Pos.compare_cont_spec in H2.
      cbn [Pos.switch_Eq] in H2.
      destruct (Z.compare_spec e eh); [| left; assumption | discriminate].
      right. split; [assumption |].
      destruct (Pos.compare_spec m mh); try discriminate.
      apply Pos2Z.pos_lt_pos. assumption.
Qed.

Lemma between_le2 lo hi x mh eh k :
  (lo <? x)%float = true -> (x <? hi)%float = true ->
  SFsign (Prim2SF lo) = false -> Prim2SF hi = S754_finite false mh eh ->
  52 + eh <= k -> Zpos mh <= 2 ^ (k - eh) ->
  fle2 k x /\ exists m e, Prim2SF x = S754_finite false m e.
Proof.
  rewrite !ltb_spec. intros H1 H2 Hs Hh Hk Hmh. rewrite Hh in H2.
  destruct (SFltb_between _ _ _ _ H1 H2 Hs) as (m & e & Hx & He).
  pose proof (Prim2SF_valid x) as V. unfold fle2. rewrite Hx in *.
  split; [| eauto]. cbn [SFle2].
  apply valid_finite in V. destruct V as (_ & Hd & _).
  destruct (digits2_pos_bounds m) as [_ Hhi].
  destruct He as [He | [-> Hm]]; [| lia].
  assert (2 ^ Zpos (digits2_pos m) <= 2 ^ (k - e)) by (apply pow2_le; lia). lia.
Qed.

Lemma const_le2 x m e k :
  Prim2SF x = S754_finite false m e -> Zpos m <= 2 ^ (k - e) -> fle2 k x.
Proof. unfold fle2. intros -> H. exact H. Qed.

Lemma Prim2SF_zero : Prim2SF 0 = S754_zero false.
Proof. vm_compute. reflexivity. Qed.

Lemma Prim2SF_50 : Prim2SF 50 = S754_finite false 7036874417766400 (-47).
Proof. vm_compute. reflexivity. Qed.

Lemma Prim2SF_6000 : Prim2SF 6000 = S754_finite false 6597069766656000 (-40).
Proof. vm_compute. reflexivity. Qed.

Lemma Prim2SF_1000 : Prim2SF 1000 = S754_finite false 8796093022208000 (-43).
Proof. vm_compute. reflexivity. Qed.


Lemma clamped_freq_le2 x : fle2 13 (fclamp 50 6000 x).
Proof.
  destruct (fclamp_cases 50 6000 x eq_refl) as [-> | [-> | (-> & H1 & H2)]].
  - unfold fle2. rewrite Prim2SF_50. vm_compute. discriminate.
  - unfold fle2. rewrite Prim2SF_6000. vm_compute. discriminate.
  - refine (proj1 (between_le2 50 6000 x _ _ 13 H1 H2 _ Prim2SF_6000 _ _));
      [rewrite Prim2SF_50; reflexivity | vm_compute; discriminate
      | vm_compute; discriminate].
Qed.

Lemma clamped_ramp_le2 x : fle2 6 (fclamp 0 50 x).
Proof.
  destruct (fclamp_cases 0 50 x eq_refl) as [-> | [-> | (-> & H1 & H2)]].
  - unfold fle2. rewrite Prim2SF_zero. exact I.
  - unfold fle2. rewrite Prim2SF_50. vm_compute. discriminate.
  - refine (proj1 (between_le2 0 50 x _ _ 6 H1 H2 _ Prim2SF_50 _ _));
      [rewrite Prim2SF_zero; reflexivity | vm_compute; discriminate
      | vm_compute; discriminate].
Qed.

(** Comparing an int with a float constant whose value is the integer [c]. *)
Lemma lt_Int_Float z c hi m e :
  Prim2SF hi = S754_finite false m e -> e < 0 -> Zpos m = c * 2 ^ (- e) ->
  Py.lt (Py.Int z) (Py.Float hi) = (z <? c) /\
  Py.lt (Py.Float hi) (Py.Int z) = (c <? z).
Proof.
  intros Hh He Hm. unfold Py.lt, Py.SF_Zcompare. rewrite Hh.
  destruct (Z.leb_spec 0 e); [lia |].
  cbn [cond_Zopp]. rewrite Hm.
  assert (Hp : 0 < 2 ^ (- e)) by (apply pow2_pos; lia).
  revert Hp. generalize (2 ^ (- e)). intros P HP.
  split.
  - destruct (Z.compare_spec (c * P) (z * P)), (Z.ltb_spec z c);
      try reflexivity; nia.
  - destruct (Z.compare_spec (c * P) (z * P)), (Z.ltb_spec c z);
      try reflexivity; nia.
Qed.

Lemma lt_zero_Int z : Py.lt (Py.Float 0) (Py.Int z) = (0 <? z).
Proof.
  unfold Py.lt. rewrite Prim2SF_zero. cbn [Py.SF_Zcompare].
  destruct (Z.compare_spec 0 z), (Z.ltb_spec 0 z); try reflexivity; lia.
Qed.


Lemma all_from_spec P n : forall lo z,
  all_from P lo n = true -> lo <= z < lo + Z.of_nat n -> P z = true.
Proof.
  induction n as [| n IH]; intros lo z H Hz; [lia |].
  cbn [all_from] in H. apply andb_true_iff in H. destruct H as [H0 H].
  destruct (Z.eq_dec z lo) as [-> | Hne]; [assumption |].
  apply (IH (lo + 1)); [assumption | lia].
Qed.


Lemma int_fixed_spec lo hi z :
  int_fixed lo hi z = true ->
  exists f, Py.float_of_int z = inr f /\ fclamp lo hi f = f.
Proof.
  unfold int_fixed. destruct (Py.float_of_int z) as [e | f]; [discriminate |].
  intros H. apply FloatAxioms.Leibniz.eqb_spec in H. eauto.
Qed.

Lemma freq_ints_fixed z : 50 < z < 6000 -> int_fixed 50 6000 z = true.
Proof.
  intros Hz. apply (all_from_spec (int_fixed 50 6000) (Z.to_nat 5949) 51).
  - vm_compute. reflexivity.
  - rewrite Z2Nat.id; lia.
Qed.

Lemma ramp_ints_fixed z : 0 < z < 50 -> int_fixed 0 50 z = true.
Proof.
  intros Hz. apply (all_from_spec (int_fixed 0 50) (Z.to_nat 49) 1).
  - vm_compute. reflexivity.
  - rewrite Z2Nat.id; lia.
Qed.

Lemma clamp_volume_spec v :
  exists f, clamp_volume v = inr f /\ fclamp 0 1 f = f.
Proof.
  unfold clamp_volume. destruct v as [z | x].
  - unfold Py.min, Py.max.
    rewrite (proj1 (lt_Int_Float z 1 1 _ _ Prim2SF_one ltac:(lia)
                      ltac:(vm_compute; reflexivity))).
    destruct (Z.ltb_spec z 1).
    + rewrite lt_zero_Int. destruct (Z.ltb_spec 0 z); [lia |].
      exists 0%float. split; vm_compute; reflexivity.
    + exists 1%float. split; vm_compute; reflexivity.
  - rewrite clamp_Float. eexists. split; [reflexivity |].
    apply fclamp_idem; reflexivity.
Qed.

Lemma clamp_freq_hz_spec v :
  exists f, clamp_freq_hz v = inr f /\ fclamp 50 6000 f = f.
Proof.
  unfold clamp_freq_hz. destruct v as [z | x].
  - unfold Py.min, Py.max.
    rewrite (proj1 (lt_Int_Float z 6000 6000 _ _ Prim2SF_6000 ltac:(lia)
                      ltac:(vm_compute; reflexivity))).
    destruct (Z.ltb_spec z 6000).
    + rewrite (proj2 (lt_Int_Float z 50 50 _ _ Prim2SF_50 ltac:(lia)
                        ltac:(vm_compute; reflexivity))).
      destruct (Z.ltb_spec 50 z).
      * cbn [Py.to_float]. apply int_fixed_spec, freq_ints_fixed. lia.
      * exists 50%float. split; vm_compute; reflexivity.
    + exists 6000%float. split; vm_compute; reflexivity.
  - rewrite clamp_Float. eexists. split; [reflexivity |].
    apply fclamp_idem; reflexivity.
Qed.

Lemma clamp_ramp_ms_spec v :
  exists f, clamp_ramp_ms v = inr f /\ fclamp 0 50 f = f.
Proof.
  unfold clamp_ramp_ms. destruct v as [z | x].
  - unfold Py.min, Py.max.
    rewrite (proj1 (lt_Int_Float z 50 50 _ _ Prim2SF_50 ltac:(lia)
                      ltac:(vm_compute; reflexivity))).
    destruct (Z.ltb_spec z 50).
    + rewrite lt_zero_Int. destruct (Z.ltb_spec 0 z).
      * cbn [Py.to_float]. apply int_fixed_spec, ramp_ints_fixed. lia.
      * exists 0%float. split; vm_compute; reflexivity.
    + exists 50%float. split; vm_compute; reflexivity.
  - rewrite clamp_Float. eexists. split; [reflexivity |].
    apply fclamp_idem; reflexivity.
Qed.

Lemma clamp_samplerate_Int z :
  clamp_samplerate (Py.Int z) = inr (Z.max 8000 (Z.min 192000 z)).
Proof.
  unfold clamp_samplerate, Py.max, Py.min. cbn [Py.lt].
  destruct (Z.ltb_spec z 192000); cbn [Py.lt].
  - destruct (Z.ltb_spec 8000 z); cbn [Py.to_int]; unfold ret; f_equal; lia.
  - destruct (Z.ltb_spec 8000 192000); [| lia].
    cbn [Py.to_int]. unfold ret. f_equal. lia.
Qed.

Lemma Some_eq {A} (a b : A) : Some a = Some b -> a = b.
Proof. intros H. injection H as H. exact H. Qed.

Lemma SF_Zcompare_finite s m e z :
  Py.SF_Zcompare (S754_finite s m e) z =
  Some (if 0 <=? e then cond_Zopp s (Zpos m) * 2 ^ e ?= z
        else cond_Zopp s (Zpos m) ?= z * 2 ^ (- e)).
Proof. reflexivity. Qed.

Lemma clamp_samplerate_spec sr :
  exists z, clamp_samplerate sr = inr z /\ 8000 <= z <= 192000.
Proof.
  destruct sr as [z | f].
  - rewrite clamp_samplerate_Int. eexists. split; [reflexivity | lia].
  - unfold clamp_samplerate, Py.max, Py.min.
    cbn [Py.lt].
    destruct (Py.SF_Zcompare (Prim2SF f) 192000) as [[] |] eqn:Hhi;
      try (exists 192000; split; [reflexivity | lia]).
    cbn [Py.lt].
    destruct (Py.SF_Zcompare (Prim2SF f) 8000) as [[] |] eqn:Hlo;
      try (exists 8000; split; [reflexivity | lia]).
    cbn [Py.to_int]. unfold Py.int_of_float.
    destruct (Prim2SF f) as [s | s | | s m e].
    + discriminate.
    + destruct s; discriminate.
    + discriminate.
    + cbn [Py.not_an_integer]. eexists. split; [reflexivity |].
      rewrite SF_Zcompare_finite in Hhi, Hlo.
      unfold Py.trunc_finite. revert Hhi Hlo.
      destruct (Z.leb_spec 0 e) as [He | He].
      * assert (HP : 0 < 2 ^ e) by (apply pow2_pos; lia).
        revert HP. generalize (2 ^ e). intros P HP Hhi Hlo.
        apply Some_eq in Hhi. apply Some_eq in Hlo.
        rewrite Z.compare_lt_iff in Hhi. rewrite Z.compare_gt_iff in Hlo.
        destruct s; unfold cond_Zopp in *; [nia | lia].
      * assert (HP : 0 < 2 ^ (- e)) by (apply pow2_pos; lia).
        revert HP. generalize (2 ^ (- e)). intros P HP Hhi Hlo.
        apply Some_eq in Hhi. apply Some_eq in Hlo.
        rewrite Z.compare_lt_iff in Hhi. rewrite Z.compare_gt_iff in Hlo.
        destruct s; unfold cond_Zopp in *; [lia |].
        split.
        -- apply Z.div_le_lower_bound; lia.
        -- assert (Zpos m / P < 192000) by (apply Z.div_lt_upper_bound; lia). lia.
Qed.

(** ** Conversions between ints and floats *)

Lemma float_of_int_zero : Py.float_of_int 0 = inr 0%float.
Proof. vm_compute. reflexivity. Qed.

Lemma float_of_int_pos z :
  0 < z < 2 ^ 53 ->
  exists f m e,
    Py.float_of_int z = inr f /\ Py.Z2F z = f /\
    Prim2SF f = S754_finite false m e /\
    -52 <= e <= 0 /\ Zpos m = z * 2 ^ (- e).
Proof.
  intros Hz. destruct (Z2SF_pos z Hz) as (m & e & H & He & Hm & Hd).
  exists (SF2Prim (S754_finite false m e)), m, e.
  unfold Py.float_of_int, Py.Z2F, Py.Z2SF. rewrite H.
  repeat split; try lia.
  apply Prim2SF_SF2Prim, finite_valid; lia.
Qed.

Lemma float_of_int_bounds z k c :
  0 < z < 2 ^ 53 -> z <= 2 ^ k -> 2 ^ c <= z -> 0 <= c ->
  exists f, Py.float_of_int z = inr f /\ Py.Z2F z = f /\ fle2 k f /\ fge2 c f.
Proof.
  intros Hz Hk Hc Hc0.
  destruct (float_of_int_pos z Hz) as (f & m & e & H1 & H2 & H3 & He & Hm).
  exists f. unfold fle2, fge2. rewrite H3. cbn [SFle2 SFge2].
  assert (0 < 2 ^ (- e)) by (apply pow2_pos; lia).
  assert (0 <= k).
  { destruct (Z.lt_ge_cases k 0); [| assumption].
    rewrite Z.pow_neg_r in Hk by lia. lia. }
  repeat split; try assumption; try lia.
  - rewrite Hm. replace (k - e) with (k + (- e)) by lia.
    rewrite pow2_split by lia. apply Z.mul_le_mono_nonneg_r; lia.
  - rewrite Hm. replace (c - e) with (c + (- e)) by lia.
    rewrite pow2_split by lia. apply Z.mul_le_mono_nonneg_r; lia.
Qed.

Lemma SFle2_dle m e k : 0 <= k -> Zpos m <= 2 ^ (k - e) -> dle (Zpos m) e (2 ^ k) 0.
Proof.
  intros Hk H. unfold dle.
  assert (e <= k).
  { destruct (Z.le_gt_cases e k); [assumption |].
    rewrite Z.pow_neg_r in H by lia. lia. }
  destruct (Z.le_gt_cases e 0).
  - rewrite Z.min_l, Z.sub_diag, Z.pow_0_r, Z.mul_1_r by lia.
    rewrite <- pow2_split by lia. replace (k + (0 - e)) with (k - e) by lia.
    exact H.
  - rewrite Z.min_r, Z.sub_diag, Z.pow_0_r, Z.mul_1_r, Z.sub_0_r by lia.
    replace (2 ^ k) with (2 ^ (k - e) * 2 ^ e)
      by (rewrite <- pow2_split by lia; f_equal; lia).
    apply Z.mul_le_mono_nonneg_r; [apply Z.pow_nonneg; lia | exact H].
Qed.

(** [int(x)] of a float of bounded magnitude. *)
Lemma int_of_float_le2 k x :
  0 <= k -> fle2 k x ->
  exists z, Py.int_of_float x = inr z /\ - 2 ^ k <= z <= 2 ^ k.
Proof.
  unfold fle2, Py.int_of_float. intros Hk H.
  assert (0 < 2 ^ k) by (apply pow2_pos; lia).
  destruct (Prim2SF x) as [s | s | | s m e]; cbn [SFle2] in H; try contradiction.
  - exists 0. split; [reflexivity | lia].
  - eexists. split; [reflexivity |].
    apply trunc_le; [lia | apply SFle2_dle; assumption].
Qed.

Lemma round_le2 k x :
  fle2 k x -> exists z, Py.round x = inr z.
Proof.
  unfold fle2, Py.round.
  destruct (Prim2SF x) as [s | s | | s m e]; cbn [SFle2]; try contradiction;
    intros _; eexists; reflexivity.
Qed.

Lemma fge2_1000 : fge2 9 1000.
Proof. unfold fge2. rewrite Prim2SF_1000. vm_compute. split; discriminate. Qed.

Lemma fdiv_1000 x : Py.fdiv x 1000 = inr (x / 1000)%float.
Proof. unfold Py.fdiv. reflexivity. Qed.

(** The ramp length of clamped parameters is computed without error and is
    below [2^15]. *)
Lemma samplerate_float sr :
  8000 <= sr <= 192000 ->
  exists f, Py.float_of_int sr = inr f /\ Py.Z2F sr = f /\ fle2 18 f /\ fge2 12 f.
Proof.
  intros Hsr.
  assert (H53 : 192000 < 2 ^ 53) by (vm_compute; reflexivity).
  assert (H18 : 192000 <= 2 ^ 18) by (vm_compute; discriminate).
  assert (H12 : 2 ^ 12 <= 8000) by (vm_compute; discriminate).
  apply float_of_int_bounds; lia.
Qed.

Lemma ramp_samples_of_spec sr r :
  8000 <= sr <= 192000 -> fle2 6 r ->
  exists rs, ramp_samples_of sr r = inr rs /\ - 2 ^ 15 <= rs <= 2 ^ 15.
Proof.
  intros Hsr Hr. unfold ramp_samples_of. rewrite fdiv_1000. cbn [bind].
  destruct (samplerate_float sr Hsr) as (f & Hf & _ & Hle & _).
  rewrite Hf. cbn [bind].
  apply int_of_float_le2; [lia |].
  replace 15 with (18 + (6 - 9)) by lia. apply fmul_le2; [assumption | | lia].
  apply fdiv_le2; [assumption | exact fge2_1000 | lia].
Qed.

(* ================================================================== *)
(** * When the synthesizer returns *)

Lemma fle2_zero k : fle2 k 0.
Proof. unfold fle2. rewrite Prim2SF_zero. exact I. Qed.

Lemma float_of_int_small z :
  Z.abs z < 2 ^ 53 -> exists f, Py.float_of_int z = inr f /\ fle2 53 f.
Proof.
  intros Hz. destruct z as [| p | p].
  - exists 0%float. split; [exact float_of_int_zero | apply fle2_zero].
  - destruct (float_of_int_bounds (Zpos p) 53 0) as (f & Hf & _ & Hle & _);
      try lia.
    eauto.
  - assert (Hd : Zpos (digits2_pos p) <= 53).
    { change (Zpos (digits2_pos p)) with (Zdigits2 (Zpos p)).
      apply Zdigits2_le; lia. }
    destruct (binary_round_exact true p Hd) as (m & H1 & H2 & H3).
    exists (SF2Prim (S754_finite true m (Zpos (digits2_pos p) - 53))).
    unfold Py.float_of_int, Py.Z2SF. cbn [binary_normalize]. rewrite H1.
    split; [reflexivity |].
    unfold fle2. rewrite Prim2SF_SF2Prim by (apply finite_valid; lia).
    cbn [SFle2].
    destruct (digits2_pos_bounds m) as [_ Hhi]. rewrite H3 in Hhi.
    assert (2 ^ 53 <= 2 ^ (53 - (Zpos (digits2_pos p) - 53)))
      by (apply pow2_le; lia).
    lia.
Qed.

(** A segment of less than [2^53] ms has a length. *)
Lemma seg_len_defined sr d :
  8000 <= sr <= 192000 -> Z.abs d < 2 ^ 53 -> exists sl, seg_len sr d = inr sl.
Proof.
  intros Hsr Hd. unfold seg_len.
  destruct (float_of_int_small d Hd) as (fd & Hfd & Hle).
  rewrite Hfd. cbn [bind]. rewrite fdiv_1000. cbn [bind].
  destruct (samplerate_float sr Hsr) as (f & Hf & _ & Hf18 & _).
  rewrite Hf. cbn [bind].
  apply (round_le2 (18 + (53 - 9))).
  apply fmul_le2; [assumption | | lia].
  apply fdiv_le2; [assumption | exact fge2_1000 | lia].
Qed.

Lemma fle2_math_pi : fle2 2 math_pi.
Proof. unfold fle2. vm_compute. discriminate. Qed.

Lemma fle2_two_pi : fle2 3 two_pi.
Proof. unfold fle2. vm_compute. discriminate. Qed.

Lemma float_of_int_nonneg z k :
  0 <= z <= 2 ^ k -> 0 <= k < 53 ->
  exists f, Py.float_of_int z = inr f /\ Py.Z2F z = f /\ fle2 k f.
Proof.
  intros Hz Hk.
  destruct (Z.eq_dec z 0) as [-> | Hne].
  - exists 0%float.
    split; [exact float_of_int_zero |].
    split; [vm_compute; reflexivity | apply fle2_zero].
  - assert (2 ^ k < 2 ^ 53) by (apply Z.pow_lt_mono_r; lia).
    destruct (float_of_int_bounds z k 0) as (f & Hf & HZ & Hle & _);
      try lia.
    eauto.
Qed.


(** The C library's sine and cosine return on every finite argument. *)
Hypothesis math_sin_finite :
  forall x, is_finite x = true -> exists y, math_sin x = inr y.
Hypothesis math_cos_finite :
  forall x, is_finite x = true -> exists y, math_cos x = inr y.


Lemma raised_cosine_ok rs i :
  0 < rs <= 2 ^ 15 -> 0 <= i <= rs -> exists env, raised_cosine rs i = inr env.
Proof.
  intros Hrs Hi. unfold raised_cosine.
  destruct (float_of_int_nonneg i 15) as (fi & Hfi & _ & Hle); try lia.
  assert (H53 : 2 ^ 15 < 2 ^ 53) by (apply Z.pow_lt_mono_r; lia).
  destruct (float_of_int_bounds rs 15 0) as (fr & Hfr & _ & _ & Hge); try lia.
  rewrite Hfi, Hfr. cbn [bind]. unfold Py.fdiv.
  rewrite (fge2_nonzero _ _ Hge). cbn [bind ret].
  destruct (math_cos_finite (math_pi * fi / fr)%float) as (c & Hc).
  - apply (fle2_finite (2 + 15 - 0)).
    apply fdiv_le2; [| assumption | lia].
    apply fmul_le2; [exact fle2_math_pi | assumption | lia].
  - rewrite Hc. cbn [bind]. eauto.
Qed.

Lemma envelope_ok rs sl n :
  rs <= 2 ^ 15 -> 0 <= n < sl -> exists env, envelope rs sl n = inr env.
Proof.
  intros Hrs Hn. unfold envelope.
  destruct (Z.ltb_spec 0 rs); [| eexists; reflexivity].
  destruct (Z.ltb_spec n rs).
  - apply raised_cosine_ok; lia.
  - destruct (Z.leb_spec (sl - n) rs); [| eexists; reflexivity].
    apply raised_cosine_ok; lia.
Qed.

Lemma phase_ok f sr t :
  8000 <= sr <= 192000 -> fle2 13 f -> 0 <= t < 2 ^ 53 ->
  exists ph, phase f sr t = inr ph /\ is_finite ph = true.
Proof.
  intros Hsr Hf Ht. unfold phase, Py.int_truediv.
  destruct (Z.eqb_spec sr 0); [lia |].
  assert (H16 : fle2 (3 + 13) (two_pi * f)%float).
  { apply fmul_le2; [exact fle2_two_pi | assumption | lia]. }
  destruct (Z.eqb_spec t 0) as [-> | Hne].
  - destruct (Z.ltb_spec sr 0); [lia |]. cbn [bind ret].
    eexists. split; [reflexivity |].
    apply (fle2_finite (3 + 13 + 0)).
    apply fmul_le2; [assumption | apply fle2_zero | lia].
  - assert (H53 : 192000 < 2 ^ 53) by (vm_compute; reflexivity).
    destruct (Z.ltb_spec (Z.abs t) (2 ^ 53)); [| lia].
    destruct (Z.ltb_spec (Z.abs sr) (2 ^ 53)); [| lia].
    cbn [andb bind ret]. eexists. split; [reflexivity |].
    destruct (samplerate_float sr Hsr) as (fs & _ & -> & _ & Hge).
    destruct (float_of_int_bounds t 53 0) as (ft & _ & -> & Hle & _); try lia.
    apply (fle2_finite (3 + 13 + (53 - 12))).
    apply fmul_le2; [assumption | | lia].
    apply fdiv_le2; [assumption | assumption | lia].
Qed.

Lemma tone_sample_ok p sl n t :
  params_ok p -> 0 <= n < sl -> 0 <= t < 2 ^ 53 ->
  exists s, tone_sample p sl n t = inr s.
Proof.
  intros (Hsr & Hf & Hrs) Hn Ht. unfold tone_sample.
  destruct (envelope_ok (ramp_samples p) sl n Hrs Hn) as (env & ->).
  cbn [bind].
  destruct (phase_ok (freq_hz p) (samplerate p) t Hsr Hf Ht) as (ph & -> & Hfin).
  cbn [bind].
  destruct (math_sin_finite ph Hfin) as (sn & ->). cbn [bind].
  destruct (quantize_range (volume p * env * sn)) as (s & Hq & _). eauto.
Qed.

Lemma tone_samples_ok p sl k : forall n t,
  params_ok p -> 0 <= n -> n + Z.of_nat k <= sl ->
  0 <= t -> t + Z.of_nat k <= 2 ^ 53 ->
  exists ss, tone_samples p sl k n t = inr ss.
Proof.
  induction k as [| k IH]; intros n t Hp Hn Hk Ht Htk.
  - eexists. reflexivity.
  - cbn [tone_samples].
    destruct (tone_sample_ok p sl n t Hp) as (s & ->); try lia.
    cbn [bind].
    destruct (IH (n + 1) (t + 1) Hp) as (ss & ->); try lia.
    cbn [bind]. eexists. reflexivity.
Qed.

Lemma total_samples_nonneg ls : 0 <= total_samples ls.
Proof.
  induction ls as [| l ls IH]; [cbn; lia |].
  change (total_samples (l :: ls)) with (contribution l + total_samples ls).
  unfold contribution. destruct (Z.leb_spec l 0); lia.
Qed.

(** With computable segment lengths and fewer than [2^53] samples in all,
    every sample of the schedule is computed. *)
Lemma schedule_samples_ok p rows : forall t ls,
  params_ok p -> seg_lens (samplerate p) rows = inr ls ->
  0 <= t -> t + total_samples ls <= 2 ^ 53 ->
  exists ss, schedule_samples p rows t = inr ss.
Proof.
  induction rows as [| [d v] rows IH]; intros t ls Hp Hls Ht Htot.
  - eexists. reflexivity.
  - cbn [seg_lens] in Hls.
    apply bind_inr in Hls. destruct Hls as (sl & Hsl & Hls).
    apply bind_inr in Hls. destruct Hls as (ls' & Hls' & Hls).
    injection Hls as <-.
    cbn [schedule_samples]. rewrite Hsl. cbn [bind].
    pose proof (total_samples_nonneg ls') as Hnn.
    change (total_samples (sl :: ls')) with (contribution sl + total_samples ls') in Htot.
    unfold contribution in Htot.
    destruct (Z.leb_spec sl 0).
    + apply (IH t ls'); auto.
    + destruct (IH (t + sl) ls' Hp Hls') as (rest & ->); try lia.
      destruct (v =? 1).
      * destruct (tone_samples_ok p sl (Z.to_nat sl) 0 t Hp) as (here & ->);
          try rewrite Z2Nat.id; try lia.
        cbn [bind]. eexists. reflexivity.
      * cbn [bind]. eexists. reflexivity.
Qed.

(* ================================================================== *)
(** * The output of [synthesize_pcm16] *)

Lemma schedule_samples_lens p rows : forall t ss,
  schedule_samples p rows t = inr ss ->
  exists ls, seg_lens (samplerate p) rows = inr ls /\
             Z.of_nat (List.length ss) = total_samples ls.
Proof.
  induction rows as [| [d v] rows IH]; intros t ss H.
  - injection H as <-. exists []. split; reflexivity.
  - cbn [schedule_samples] in H.
    apply bind_inr in H. destruct H as (sl & Hsl & H).
    cbn [seg_lens]. rewrite Hsl. cbn [bind].
    destruct (Z.leb_spec sl 0) as [Hle | Hpos].
    + destruct (IH _ _ H) as (ls & -> & Hlen). cbn [bind ret].
      eexists. split; [reflexivity |].
      change (total_samples (sl :: ls)) with (contribution sl + total_samples ls).
      unfold contribution. destruct (Z.leb_spec sl 0); lia.
    + apply bind_inr in H. destruct H as (here & Hhere & H).
      apply bind_inr in H. destruct H as (rest & Hrest & H).
      injection H as <-.
      destruct (IH _ _ Hrest) as (ls & -> & Hlen). cbn [bind ret].
      eexists. split; [reflexivity |].
      change (total_samples (sl :: ls)) with (contribution sl + total_samples ls).
      unfold contribution. destruct (Z.leb_spec sl 0); [lia |].
      rewrite length_app, Nat2Z.inj_add, Hlen. f_equal.
      destruct (v =? 1).
      * rewrite (tone_samples_length _ _ _ _ _ _ Hhere). apply Z2Nat.id. lia.
      * injection Hhere as <-. rewrite repeat_length. apply Z2Nat.id. lia.
Qed.

Lemma tone_samples_range p sl k : forall n t ss,
  tone_samples p sl k n t = inr ss ->
  Forall (fun s => -32767 <= s <= 32767) ss.
Proof.
  induction k as [| k IH]; intros n t ss H.
  - injection H as <-. constructor.
  - cbn [tone_samples] in H.
    apply bind_inr in H. destruct H as (s & Hs & H).
    apply bind_inr in H. destruct H as (rest & Hr & H).
    injection H as <-. constructor; [| eauto].
    eapply tone_sample_range. exact Hs.
Qed.

Lemma schedule_samples_range p rows : forall t ss,
  schedule_samples p rows t = inr ss ->
  Forall (fun s => -32767 <= s <= 32767) ss.
Proof.
  induction rows as [| [d v] rows IH]; intros t ss H.
  - injection H as <-. constructor.
  - cbn [schedule_samples] in H.
    apply bind_inr in H. destruct H as (sl & Hsl & H).
    destruct (sl <=? 0); [eauto |].
    apply bind_inr in H. destruct H as (here & Hhere & H).
    apply bind_inr in H. destruct H as (rest & Hrest & H).
    injection H as <-. apply Forall_app. split; [| eauto].
    destruct (v =? 1).
    + eapply tone_samples_range. exact Hhere.
    + injection Hhere as <-. apply Forall_forall. intros s Hin.
      apply repeat_spec in Hin. lia.
Qed.

(** [synthesize_pcm16] is the clamps followed by the samples of the
    schedule, encoded. *)
Lemma synthesize_samples rows f sr v r :
  synthesize_pcm16 rows f sr v r =
  (p <- clamp_params f sr v r ;;
   ss <- schedule_samples p rows 0 ;;
   ret (encode ss, Z.of_nat (List.length ss))).
Proof.
  unfold synthesize_pcm16.
  destruct (clamp_params f sr v r) as [e | p]; [reflexivity |].
  cbn [bind]. rewrite segments_samples. reflexivity.
Qed.

Lemma clamp_params_spec f sr v r :
  exists p, clamp_params f sr v r = inr p /\ params_ok p /\
    fclamp 0 1 (volume p) = volume p /\
    fclamp 50 6000 (freq_hz p) = freq_hz p /\
    fclamp 0 50 (ramp_ms p) = ramp_ms p /\
    ramp_samples_of (samplerate p) (ramp_ms p) = inr (ramp_samples p).
Proof.
  unfold clamp_params.
  destruct (clamp_samplerate_spec sr) as (sr' & -> & Hsr). cbn [bind].
  destruct (clamp_volume_spec v) as (v' & -> & Hv). cbn [bind].
  destruct (clamp_freq_hz_spec f) as (f' & -> & Hf). cbn [bind].
  destruct (clamp_ramp_ms_spec r) as (r' & -> & Hr). cbn [bind].
  destruct (ramp_samples_of_spec sr' r' Hsr) as (rs & Hrs & Hb).
  { rewrite <- Hr. apply clamped_ramp_le2. }
  rewrite Hrs. cbn [bind]. eexists. split; [reflexivity |].
  unfold params_ok. cbn [samplerate volume freq_hz ramp_ms ramp_samples].
  repeat split; try assumption; try lia.
  rewrite <- Hf. apply clamped_freq_le2.
Qed.

Lemma seg_lens_defined sr rows :
  8000 <= sr <= 192000 ->
  Forall (fun row => Z.abs (fst row) < 2 ^ 53) rows ->
  exists ls, seg_lens sr rows = inr ls.
Proof.
  intros Hsr. induction 1 as [| [d v] rows Hd _ IH].
  - eexists. reflexivity.
  - cbn [seg_lens]. destruct (seg_len_defined sr d Hsr Hd) as (sl & ->).
    destruct IH as (ls & ->). cbn [bind]. eexists. reflexivity.
Qed.

(** With durations below [2^53] ms and at most [2^53] samples in all, the
    synthesizer returns. *)
Lemma synthesize_returns rows f sr v r :
  Forall (fun row => Z.abs (fst row) < 2 ^ 53) rows ->
  exists p ls,
    clamp_params f sr v r = inr p /\
    seg_lens (samplerate p) rows = inr ls /\
    (total_samples ls <= 2 ^ 53 ->
     exists ss, schedule_samples p rows 0 = inr ss /\
       Z.of_nat (List.length ss) = total_samples ls /\
       synthesize_pcm16 rows f sr v r = inr (encode ss, total_samples ls)).
Proof.
  intros Hrows.
  destruct (clamp_params_spec f sr v r) as (p & Hp & Hok & _).
  destruct (seg_lens_defined (samplerate p) rows (proj1 Hok) Hrows) as (ls & Hls).
  exists p, ls. repeat split; try assumption.
  intros Htot.
  destruct (schedule_samples_ok p rows 0 ls Hok Hls) as (ss & Hss); try lia.
  destruct (schedule_samples_lens p rows 0 ss Hss) as (ls' & Hls' & Hlen).
  rewrite Hls in Hls'. injection Hls' as <-.
  exists ss. repeat split; try assumption.
  rewrite synthesize_samples, Hp. cbn [bind]. rewrite Hss. cbn [bind ret].
  rewrite Hlen. reflexivity.
Qed.

(* ================================================================== *)
(** * The claims about the synthesizer's output *)

Lemma ltb_leb a b : (a <? b)%float = true -> (a <=? b)%float = true.
Proof.
  rewrite ltb_spec, leb_spec. unfold SFltb, SFleb.
  destruct (SFcompare (Prim2SF a) (Prim2SF b)) as [[] |];
    first [discriminate | reflexivity].
Qed.

Lemma fixed_in_range lo hi x :
  (lo <? hi)%float = true -> (lo <=? lo)%float = true -> (hi <=? hi)%float = true ->
  fclamp lo hi x = x ->
  (lo <=? x)%float = true /\ (x <=? hi)%float = true.
Proof.
  intros Hlh Hll Hhh Hx.
  destruct (fclamp_cases lo hi x Hlh) as [H | [H | (_ & H1 & H2)]].
  - rewrite Hx in H. subst x. auto using ltb_leb.
  - rewrite Hx in H. subst x. auto using ltb_leb.
  - auto using ltb_leb.
Qed.

(** C9.  Every integer handed to [struct.pack] lies in [-32767, 32767]:
    quantizing never fails whatever the amplitude, packing its result never
    fails, and every sample of a returned buffer is in that range. *)
Theorem samples_within_int16 :
  (forall sample, exists s,
      quantize sample = inr s /\ -32767 <= s <= 32767 /\ pack_h s = inr (le16 s)) /\
  (forall rows f sr v r frames t,
      synthesize_pcm16 rows f sr v r = inr (frames, t) ->
      Forall (fun s => -32767 <= s <= 32767) (samples_of frames)).
Proof.
  split.
  - intros x. destruct (quantize_range x) as (s & Hq & Hr).
    exists s. repeat split; try assumption; try lia.
    apply pack_h_ok. unfold in_int16. lia.
  - intros rows f sr v r frames t H.
    rewrite synthesize_samples in H.
    apply bind_inr in H. destruct H as (p & _ & H).
    apply bind_inr in H. destruct H as (ss & Hss & H). injection H as <- _.
    pose proof (schedule_samples_range p rows 0 ss Hss) as Hr.
    rewrite samples_of_encode; [exact Hr |].
    eapply Forall_impl; [| exact Hr]. unfold in_int16. intros; cbn beta in *; lia.
Qed.

(* ================================================================== *)
(** * Multiplying by one *)

Lemma Zdigits2_unique M d : 0 < d -> 2 ^ (d - 1) <= M < 2 ^ d -> Zdigits2 M = d.
Proof.
  intros Hd [H1 H2].
  assert (0 < 2 ^ (d - 1)) by (apply pow2_pos; lia).
  assert (Zdigits2 M <= d) by (apply Zdigits2_le; lia).
  assert (d - 1 + 1 <= Zdigits2 M) by (apply Zdigits2_ge; lia).
  lia.
Qed.

(** Rounding [m * 2^52] at exponent [e - 52] gives back the float [m * 2^e]. *)
Lemma round_shifted s m e :
  valid_binary (S754_finite s m e) = true ->
  binary_round_aux prec emax s (Zpos m * 2 ^ 52) (e + -52) loc_Exact
  = S754_finite s m e.
Proof.
  intros V. apply valid_finite in V. destruct V as (He & Hd & Hn).
  destruct (digits2_pos_bounds m) as [Hlo Hhi].
  set (d := Zpos (digits2_pos m)) in *.
  assert (Hp : 0 < 2 ^ 52) by (apply pow2_pos; lia).
  assert (HM : Zdigits2 (Zpos m * 2 ^ 52) = d + 52).
  { apply Zdigits2_unique; [lia |].
    replace (d + 52 - 1) with ((d - 1) + 52) by lia.
    rewrite !pow2_split by lia. nia. }
  assert (Hfe : fexp prec emax (d + e) = e).
  { unfold fexp, emin, emax, FloatOps.prec. lia. }
  unfold binary_round_aux, shr_fexp. rewrite HM.
  replace (d + 52 + (e + -52)) with (d + e) by lia. rewrite Hfe.
  replace (e - (e + -52)) with 52 by lia.
  cbn [shr_record_of_loc].
  pose proof (shr_spec (Zpos m * 2 ^ 52) false false (e + -52) 52
                ltac:(lia)) as H.
  destruct (shr {| shr_m := Zpos m * 2 ^ 52; shr_r := false; shr_s := false |}
              (e + -52) 52) as [mrs' e'].
  destruct H as (He' & Hq & Hflag).
  rewrite Z.max_l in He', Hq, Hflag by lia.
  rewrite Z.div_mul in Hq by lia.
  assert (Hf : shr_flag mrs' = false).
  { destruct (shr_flag mrs') eqn:E; [| reflexivity].
    destruct (Hflag eq_refl) as [H | H]; [discriminate |].
    exfalso. apply H. apply Z.mod_mul. lia. }
  destruct (round_nearest_even_le (shr_m mrs') mrs') as [_ Hr].
  rewrite (Hr Hf), Hq.
  replace e' with e by lia.
  cbn [Zdigits2]. fold d. rewrite Hfe, Z.sub_diag.
  cbn [shr shr_m].
  replace (e <=? emax - prec) with true
    by (symmetry; apply Z.leb_le; unfold emax, FloatOps.prec; lia).
  reflexivity.
Qed.

Lemma fmul_one_r x : (x * 1)%float = x.
Proof.
  apply Prim2SF_inj. rewrite mul_spec, Prim2SF_one.
  pose proof (Prim2SF_valid x) as V.
  destruct (Prim2SF x) as [s | s | | s m e]; unfold SF64mul, SFmul;
    rewrite ?xorb_false_r; try reflexivity.
  rewrite Pos2Z.inj_mul.
  replace (Zpos 4503599627370496) with (2 ^ 52) by (vm_compute; reflexivity).
  apply round_shifted. exact V.
Qed.


(* ================================================================== *)
(** * The envelope, the ramp and the silence *)

Lemma float_of_int_Z2F z :
  0 <= z < 2 ^ 53 -> Py.float_of_int z = inr (Py.Z2F z).
Proof.
  intros Hz. destruct (Z.eq_dec z 0) as [-> | Hne].
  - vm_compute. reflexivity.
  - destruct (float_of_int_pos z) as (f & m & e & H1 & H2 & _); [lia |].
    rewrite H1, H2. reflexivity.
Qed.

Lemma Z2F_nonzero z : 0 < z < 2 ^ 53 -> is_zero (Py.Z2F z) = false.
Proof.
  intros Hz.
  destruct (float_of_int_bounds z 53 0) as (f & _ & -> & _ & Hge); try lia.
  exact (fge2_nonzero _ _ Hge).
Qed.

Lemma raised_cosine_eq rs i :
  0 < rs < 2 ^ 53 -> 0 <= i < 2 ^ 53 ->
  raised_cosine rs i =
  (c <- math_cos (math_pi * Py.Z2F i / Py.Z2F rs)%float ;; ret (0.5 * (1 - c))%float).
Proof.
  intros Hrs Hi. unfold raised_cosine.
  rewrite !float_of_int_Z2F by lia. cbn [bind]. unfold Py.fdiv.
  rewrite Z2F_nonzero by lia. reflexivity.
Qed.

(** C5.  With a ramp, the envelope of the sample at local index [n] is the
    fade-in value when [n < ramp_samples], otherwise the fade-out value
    when [seg_len - n <= ramp_samples], otherwise 1.0: the fade-in test
    comes first, so where the two windows overlap only the fade-in value is
    used, and no case combines the two. *)
Theorem envelope_branches rs sl n :
  0 < rs < 2 ^ 53 -> 0 <= n < sl ->
  (n < rs ->
   envelope rs sl n =
   (c <- math_cos (math_pi * Py.Z2F n / Py.Z2F rs)%float ;;
    ret (0.5 * (1 - c))%float)) /\
  (rs <= n -> sl - n <= rs ->
   envelope rs sl n =
   (c <- math_cos (math_pi * Py.Z2F (sl - n) / Py.Z2F rs)%float ;;
    ret (0.5 * (1 - c))%float)) /\
  (rs <= n -> rs < sl - n -> envelope rs sl n = inr 1%float) /\
  (sl < 2 * rs -> n < rs ->
   forall c, math_cos (math_pi * Py.Z2F n / Py.Z2F rs)%float = inr c ->
   envelope rs sl n = inr (0.5 * (1 - c))%float).
Proof.
  intros Hrs Hn.
  assert (Hin : n < rs ->
     envelope rs sl n =
     (c <- math_cos (math_pi * Py.Z2F n / Py.Z2F rs)%float ;;
      ret (0.5 * (1 - c))%float)).
  { intros H. unfold envelope.
    destruct (Z.ltb_spec 0 rs); [| lia]. destruct (Z.ltb_spec n rs); [| lia].
    apply raised_cosine_eq; lia. }
  split; [exact Hin |]. split; [| split].
  - intros H1 H2. unfold envelope.
    destruct (Z.ltb_spec 0 rs); [| lia]. destruct (Z.ltb_spec n rs); [lia |].
    destruct (Z.leb_spec (sl - n) rs); [| lia].
    apply raised_cosine_eq; lia.
  - intros H1 H2. unfold envelope.
    destruct (Z.ltb_spec 0 rs); [| lia]. destruct (Z.ltb_spec n rs); [lia |].
    destruct (Z.leb_spec (sl - n) rs); [lia | reflexivity].
  - intros _ H c Hc. rewrite (Hin H), Hc. reflexivity.
Qed.

Lemma ramp_samples_of_zero sr :
  8000 <= sr <= 192000 -> ramp_samples_of sr 0 = inr 0.
Proof.
  intros Hsr. unfold ramp_samples_of. rewrite fdiv_1000. cbn [bind].
  replace (0 / 1000)%float with 0%float by (vm_compute; reflexivity).
  assert (H53 : 192000 < 2 ^ 53) by (vm_compute; reflexivity).
  destruct (float_of_int_pos sr) as (f & m & e & H1 & _ & H3 & _); [lia |].
  rewrite H1. cbn [bind]. unfold Py.int_of_float.
  rewrite mul_spec, H3, Prim2SF_zero. reflexivity.
Qed.

(** C6.  With [ramp_ms = 0] the ramp has no samples, the envelope is 1.0 at
    every sample, and a tone sample is the truncation of 32767 times the
    clamped [volume * sin(phase)]. *)
Theorem no_ramp_no_taper f sr v r :
  r = Py.Float 0 \/ r = Py.Int 0 ->
  exists p,
    clamp_params f sr v r = inr p /\
    ramp_samples p = 0 /\
    (forall sl n, envelope (ramp_samples p) sl n = inr 1%float) /\
    (forall sl n t,
        tone_sample p sl n t =
        (ph <- phase (freq_hz p) (samplerate p) t ;;
         sn <- math_sin ph ;;
         Py.int_of_float (unit_clamp (volume p * sn) * 32767)%float)).
Proof.
  intros Hr.
  assert (Hr0 : clamp_ramp_ms r = inr 0%float).
  { destruct Hr as [-> | ->]; vm_compute; reflexivity. }
  unfold clamp_params.
  destruct (clamp_samplerate_spec sr) as (sr' & -> & Hsr). cbn [bind].
  destruct (clamp_volume_spec v) as (v' & -> & _). cbn [bind].
  destruct (clamp_freq_hz_spec f) as (f' & -> & _). cbn [bind].
  rewrite Hr0. cbn [bind]. rewrite ramp_samples_of_zero by assumption.
  cbn [bind]. eexists. split; [reflexivity |].
  cbn [ramp_samples freq_hz samplerate volume]. repeat split.
  intros sl n t. unfold tone_sample.
  cbn [ramp_samples freq_hz samplerate volume envelope Z.ltb Z.compare bind ret].
  destruct (phase f' sr' t) as [e | ph]; [reflexivity |]. cbn [bind].
  destruct (math_sin ph) as [e | sn]; [reflexivity |]. cbn [bind].
  rewrite fmul_one_r. reflexivity.
Qed.

Lemma concat_repeat_pair (b : byte) n :
  List.concat (repeat [b; b] n) = repeat b (2 * n).
Proof.
  induction n as [| n IH]; [reflexivity |].
  replace (2 * S n)%nat with (S (S (2 * n))) by lia.
  cbn [repeat List.concat app]. rewrite IH. reflexivity.
Qed.


(* ================================================================== *)
(** * The running index *)

Lemma tone_samples_nth p sl k : forall n t ss,
  tone_samples p sl k n t = inr ss ->
  forall j, (j < k)%nat ->
  exists s, tone_sample p sl (n + Z.of_nat j) (t + Z.of_nat j) = inr s /\
            nth_error ss j = Some s.
Proof.
  induction k as [| k IH]; intros n t ss H j Hj; [lia |].
  cbn [tone_samples] in H.
  apply bind_inr in H. destruct H as (s & Hs & H).
  apply bind_inr in H. destruct H as (rest & Hrest & H). injection H as <-.
  destruct j as [| j].
  - exists s. rewrite !Z.add_0_r. split; [exact Hs | reflexivity].
  - destruct (IH _ _ _ Hrest j) as (s' & Hs' & Hn); [lia |].
    exists s'. split; [| exact Hn].
    replace (n + Z.of_nat (S j)) with (n + 1 + Z.of_nat j) by lia.
    replace (t + Z.of_nat (S j)) with (t + 1 + Z.of_nat j) by lia.
    exact Hs'.
Qed.

Lemma contribution_pos sl : 0 < sl -> contribution sl = sl.
Proof. intros H. unfold contribution. destruct (Z.leb_spec sl 0); lia. Qed.

Lemma contribution_nonpos sl : sl <= 0 -> contribution sl = 0.
Proof. intros H. unfold contribution. destruct (Z.leb_spec sl 0); lia. Qed.

(** The samples of one row at running index [t]. *)
Lemma schedule_samples_cons p d val rows t ss :
  schedule_samples p ((d, val) :: rows) t = inr ss ->
  exists sl here rest,
    seg_len (samplerate p) d = inr sl /\
    Z.of_nat (List.length here) = contribution sl /\
    schedule_samples p rows (t + contribution sl) = inr rest /\
    ss = here ++ rest /\
    (val = 1 -> 0 < sl -> tone_samples p sl (Z.to_nat sl) 0 t = inr here) /\
    (val <> 1 -> here = repeat 0 (Z.to_nat (contribution sl))).
Proof.
  cbn [schedule_samples]. intros H.
  apply bind_inr in H. destruct H as (sl & Hsl & H).
  exists sl. destruct (Z.leb_spec sl 0) as [Hle | Hlt].
  - exists [], ss. rewrite contribution_nonpos, Z.add_0_r by assumption.
    repeat split; try assumption; try reflexivity; intros; lia.
  - apply bind_inr in H. destruct H as (here & Hhere & H).
    apply bind_inr in H. destruct H as (rest & Hrest & H). injection H as <-.
    exists here, rest. rewrite contribution_pos by assumption.
    destruct (Z.eqb_spec val 1) as [-> | Hne].
    + rewrite (tone_samples_length _ _ _ _ _ _ Hhere).
      repeat split; try assumption; try reflexivity; try lia;
        try (intros; congruence).
    + injection Hhere as <-. rewrite repeat_length.
      repeat split; try assumption; try reflexivity; try lia;
        try (intros; congruence).
Qed.

Lemma schedule_samples_split p rows1 d val rows2 : forall t ss,
  schedule_samples p (rows1 ++ (d, val) :: rows2) t = inr ss ->
  exists s1 sl here s2,
    schedule_samples p rows1 t = inr s1 /\
    seg_len (samplerate p) d = inr sl /\
    Z.of_nat (List.length here) = contribution sl /\
    schedule_samples p rows2 (t + Z.of_nat (List.length s1) + contribution sl)
      = inr s2 /\
    ss = s1 ++ here ++ s2 /\
    (val = 1 -> 0 < sl ->
     tone_samples p sl (Z.to_nat sl) 0 (t + Z.of_nat (List.length s1)) = inr here) /\
    (val <> 1 -> here = repeat 0 (Z.to_nat (contribution sl))).
Proof.
  induction rows1 as [| [d1 v1] rows1 IH]; intros t ss H.
  - cbn [app] in H. apply schedule_samples_cons in H.
    destruct H as (sl & here & rest & Hsl & Hlen & Hrest & -> & Ht & Hz).
    exists [], sl, here, rest. cbn [List.length Z.of_nat app]. rewrite Z.add_0_r.
    repeat split; assumption.
  - rewrite <- app_comm_cons in H. apply schedule_samples_cons in H.
    destruct H as (sl1 & here1 & rest & Hsl1 & Hlen1 & Hrest & -> & Ht1 & Hz1).
    apply IH in Hrest.
    destruct Hrest as (s1 & sl & here & s2 & Hs1 & Hsl & Hlen & Hs2 & -> & Ht & Hz).
    exists (here1 ++ s1), sl, here, s2.
    rewrite length_app, Nat2Z.inj_add, Hlen1.
    replace (t + (contribution sl1 + Z.of_nat (List.length s1)))
      with (t + contribution sl1 + Z.of_nat (List.length s1)) by lia.
    repeat split; try assumption.
    + cbn [schedule_samples]. rewrite Hsl1. cbn [bind].
      destruct (Z.leb_spec sl1 0) as [Hle | Hlt].
      * rewrite contribution_nonpos in * by assumption.
        destruct here1; [| cbn [List.length] in Hlen1; lia].
        rewrite Z.add_0_r in Hs1. exact Hs1.
      * rewrite contribution_pos in * by assumption.
        destruct (Z.eqb_spec v1 1) as [Hv | Hv].
        -- rewrite (Ht1 Hv Hlt). cbn [bind]. rewrite Hs1. reflexivity.
        -- rewrite (Hz1 Hv) in *. cbn [bind]. rewrite Hs1. reflexivity.
    + rewrite app_assoc. reflexivity.
Qed.

(** C4.  When a row starts, the running index [t1] is the number of samples
    already emitted, so sample [n] of a tone is computed with the sine at
    [two_pi * freq_hz * ((t1 + n) / samplerate)], its absolute position in
    the output.  And turning any one row from silence to tone or back
    changes no sample of the other rows: the tone after a silence has the
    samples it has when the tone plays through the silence. *)
Theorem running_index_is_absolute rows1 d val rows2 f sr v r frames t :
  synthesize_pcm16 (rows1 ++ (d, val) :: rows2) f sr v r = inr (frames, t) ->
  exists p frames1 t1 sl,
    clamp_params f sr v r = inr p /\
    segments p rows1 ([], 0) = inr (frames1, t1) /\
    t1 = Z.of_nat (List.length (samples_of frames1)) /\
    seg_len (samplerate p) d = inr sl /\
    (val = 1 -> forall n, 0 <= n < sl ->
     exists env q sn s,
       envelope (ramp_samples p) sl n = inr env /\
       Py.int_truediv (t1 + n) (samplerate p) = inr q /\
       math_sin (two_pi * freq_hz p * q)%float = inr sn /\
       quantize (volume p * env * sn)%float = inr s /\
       nth_error (samples_of frames) (Z.to_nat (t1 + n)) = Some s) /\
    (forall val' frames' t',
       synthesize_pcm16 (rows1 ++ (d, val') :: rows2) f sr v r = inr (frames', t') ->
       t' = t /\
       forall i : nat,
         Z.of_nat i < t1 \/ t1 + contribution sl <= Z.of_nat i ->
         nth_error (samples_of frames') i = nth_error (samples_of frames) i).
Proof.
  intros H. rewrite synthesize_samples in H.
  apply bind_inr in H. destruct H as (p & Hp & H).
  apply bind_inr in H. destruct H as (ss & Hss & H). injection H as <- <-.
  assert (Hdec : forall rows xs, schedule_samples p rows 0 = inr xs ->
                   samples_of (encode xs) = xs).
  { intros rows xs Hxs. apply samples_of_encode.
    pose proof (schedule_samples_range p rows 0 xs Hxs) as Hr.
    eapply Forall_impl; [| exact Hr]. unfold in_int16. intros; cbn beta in *; lia. }
  pose proof (Hdec _ _ Hss) as Hdss.
  apply schedule_samples_split in Hss.
  destruct Hss as (s1 & sl & here & s2 & Hs1 & Hsl & Hlen & Hs2 & -> & Ht & Hz).
  exists p, (encode s1), (Z.of_nat (List.length s1)), sl.
  rewrite (Hdec _ _ Hs1). cbn [Z.add] in *.
  split; [exact Hp |]. split.
  { rewrite segments_samples, Hs1. reflexivity. }
  split; [reflexivity |]. split; [exact Hsl |]. split.
  - intros -> n Hn.
    assert (Hpos : 0 < sl) by lia.
    destruct (tone_samples_nth _ _ _ _ _ _ (Ht eq_refl Hpos) (Z.to_nat n))
      as (s & Hs & Hnth); [lia |].
    rewrite Z2Nat.id, Z.add_0_l in Hs by lia.
    unfold tone_sample in Hs.
    apply bind_inr in Hs. destruct Hs as (env & Henv & Hs).
    apply bind_inr in Hs. destruct Hs as (ph & Hph & Hs).
    apply bind_inr in Hs. destruct Hs as (sn & Hsn & Hs).
    unfold phase in Hph.
    apply bind_inr in Hph. destruct Hph as (q & Hq & Hph). injection Hph as <-.
    exists env, q, sn, s. repeat split; try assumption.
    rewrite Hdss, Z2Nat.inj_add, Nat2Z.id by lia.
    rewrite nth_error_app2 by lia.
    replace (List.length s1 + Z.to_nat n - List.length s1)%nat with (Z.to_nat n) by lia.
    pose proof (contribution_pos sl Hpos) as Hc.
    rewrite nth_error_app1 by lia. exact Hnth.
  - intros val' frames' t' H'. rewrite synthesize_samples, Hp in H'. cbn [bind] in H'.
    apply bind_inr in H'. destruct H' as (ss' & Hss' & H'). injection H' as <- <-.
    rewrite (Hdec _ _ Hss'), Hdss.
    apply schedule_samples_split in Hss'.
    destruct Hss' as (s1' & sl' & here' & s2' & Hs1' & Hsl' & Hlen' & Hs2' & -> & _).
    cbn [Z.add] in *.
    rewrite Hs1 in Hs1'. injection Hs1' as <-.
    rewrite Hsl in Hsl'. injection Hsl' as <-.
    rewrite Hs2 in Hs2'. injection Hs2' as <-.
    split.
    + rewrite !length_app. lia.
    + intros i [Hi | Hi].
      * rewrite !nth_error_app1 by lia. reflexivity.
      * rewrite !nth_error_app2 by lia.
        replace (List.length here') with (List.length here) by lia. reflexivity.
Qed.

(* ================================================================== *)
(** * The example of the specification *)


(* ================================================================== *)
(** * Empty schedules, prefixes and the first sample of a tone *)

Lemma seg_len_zero sr : 8000 <= sr <= 192000 -> seg_len sr 0 = inr 0.
Proof.
  intros Hsr. unfold seg_len.
  rewrite float_of_int_zero. cbn [bind]. rewrite fdiv_1000. cbn [bind].
  replace (0 / 1000)%float with 0%float by (vm_compute; reflexivity).
  assert (H53 : 192000 < 2 ^ 53) by (vm_compute; reflexivity).
  destruct (float_of_int_pos sr) as (f & m & e & H1 & _ & H3 & _); [lia |].
  rewrite H1. cbn [bind]. unfold Py.round.
  rewrite mul_spec, H3, Prim2SF_zero. reflexivity.
Qed.

Lemma float_of_int_neg p :
  Zpos p < 2 ^ 53 ->
  exists f, Py.float_of_int (Zneg p) = inr f /\ fle2 53 f /\
            SFsign (Prim2SF f) = true.
Proof.
  intros Hp.
  assert (Hd : Zpos (digits2_pos p) <= 53).
  { change (Zpos (digits2_pos p)) with (Zdigits2 (Zpos p)).
    apply Zdigits2_le; lia. }
  destruct (binary_round_exact true p Hd) as (m & H1 & H2 & H3).
  exists (SF2Prim (S754_finite true m (Zpos (digits2_pos p) - 53))).
  unfold Py.float_of_int, Py.Z2SF. cbn [binary_normalize]. rewrite H1.
  split; [reflexivity |].
  unfold fle2. rewrite Prim2SF_SF2Prim by (apply finite_valid; lia).
  cbn [SFle2 SFsign]. split; [| reflexivity].
  destruct (digits2_pos_bounds m) as [_ Hhi]. rewrite H3 in Hhi.
  assert (2 ^ 53 <= 2 ^ (53 - (Zpos (digits2_pos p) - 53)))
    by (apply pow2_le; lia).
  lia.
Qed.

Lemma round_finite_nonneg m e : 0 <= Py.round_finite false m e.
Proof.
  unfold Py.round_finite. cbn [cond_Zopp].
  destruct (Z.leb_spec 0 e) as [He | He].
  - apply Z.mul_nonneg_nonneg; [lia | apply Z.pow_nonneg; lia].
  - assert (Hd : 0 < 2 ^ (- e)) by (apply Z.pow_pos_nonneg; lia).
    pose proof (Z.div_pos (Zpos m) (2 ^ (- e)) ltac:(lia) Hd) as Hq.
    cbv zeta.
    destruct (2 * (Zpos m mod 2 ^ (- e)) ?= 2 ^ (- e)); [| lia | lia].
    destruct (Z.even (Zpos m / 2 ^ (- e))); lia.
Qed.

Lemma round_sign k x :
  fle2 k x ->
  exists z, Py.round x = inr z /\
    (SFsign (Prim2SF x) = true -> z <= 0) /\
    (SFsign (Prim2SF x) = false -> 0 <= z).
Proof.
  unfold fle2, Py.round.
  destruct (Prim2SF x) as [s | s | | s m e]; cbn [SFle2]; try contradiction;
    intros _; cbn [Py.not_an_integer SFsign].
  - exists 0. repeat split; lia.
  - eexists. split; [reflexivity |].
    pose proof (round_finite_nonneg m e) as H.
    unfold Py.round_finite in *. cbn [cond_Zopp] in H.
    split; intros ->; cbn [cond_Zopp]; lia.
Qed.

(** The length of a segment has the sign of its duration. *)
Lemma seg_len_sign sr d :
  8000 <= sr <= 192000 -> Z.abs d < 2 ^ 53 ->
  exists sl, seg_len sr d = inr sl /\ (d <= 0 -> sl <= 0) /\ (0 <= d -> 0 <= sl).
Proof.
  intros Hsr Hd.
  assert (Hfd : exists fd, Py.float_of_int d = inr fd /\ fle2 53 fd /\
                           SFsign (Prim2SF fd) = (d <? 0)).
  { destruct d as [| p | p].
    - exists 0%float. split; [exact float_of_int_zero |].
      split; [apply fle2_zero | rewrite Prim2SF_zero; reflexivity].
    - destruct (float_of_int_pos (Zpos p)) as (f & m & e & H1 & _ & H3 & _);
        [lia |].
      destruct (float_of_int_small (Zpos p) Hd) as (f' & H1' & Hle).
      rewrite H1 in H1'. injection H1' as <-.
      exists f. rewrite H3 in *. repeat split; assumption.
    - destruct (float_of_int_neg p) as (f & H1 & H2 & H3); [lia |].
      exists f. repeat split; assumption. }
  destruct Hfd as (fd & Hfd & Hle & Hs).
  unfold seg_len. rewrite Hfd. cbn [bind]. rewrite fdiv_1000. cbn [bind].
  destruct (samplerate_float sr Hsr) as (f & Hf & _ & Hf18 & _).
  rewrite Hf. cbn [bind].
  assert (Hsrs : SFsign (Prim2SF f) = false).
  { assert (H53 : 192000 < 2 ^ 53) by (vm_compute; reflexivity).
    destruct (float_of_int_pos sr) as (f' & m & e & H1 & _ & H3 & _); [lia |].
    rewrite Hf in H1. injection H1 as <-. rewrite H3. reflexivity. }
  destruct (SFdiv_le2 53 9 (Prim2SF fd) (Prim2SF 1000)) as [Hq Hqs];
    auto using Prim2SF_valid; [exact fge2_1000 | lia |].
  rewrite <- div_spec in Hq, Hqs.
  destruct (SFmul_le2 18 (53 - 9) (Prim2SF f) (Prim2SF (fd / 1000)))
    as [Hm Hms]; auto using Prim2SF_valid; [lia |].
  rewrite <- mul_spec in Hm, Hms.
  destruct (round_sign _ _ Hm) as (sl & Hsl & Hneg & Hpos).
  exists sl. split; [exact Hsl |].
  rewrite Hms, Hqs, Hsrs, Hs, Prim2SF_1000 in Hneg, Hpos.
  cbn [SFsign xorb] in Hneg, Hpos. rewrite xorb_false_r in Hneg, Hpos.
  split; intros H.
  - destruct (Z.eq_dec d 0) as [-> | Hne].
    + pose proof (seg_len_zero sr Hsr) as Hz. unfold seg_len in Hz.
      rewrite Hfd in Hz. cbn [bind] in Hz.
      rewrite fdiv_1000 in Hz. cbn [bind] in Hz. rewrite Hf in Hz.
      cbn [bind] in Hz. rewrite Hsl in Hz. injection Hz as ->. lia.
    + apply Hneg. apply Z.ltb_lt. lia.
  - apply Hpos. apply Z.ltb_ge. lia.
Qed.

(** X6.  A schedule whose durations are all zero or negative gives the
    empty buffer and the count 0, whatever the values and the parameters;
    so does the empty schedule. *)
Theorem nonpositive_durations_empty rows f sr v r :
  Forall (fun row => - 2 ^ 53 < fst row <= 0) rows ->
  synthesize_pcm16 rows f sr v r = inr ([], 0).
Proof.
  intros Hrows. unfold synthesize_pcm16.
  destruct (clamp_params_spec f sr v r) as (p & -> & (Hsr & _) & _). cbn [bind].
  generalize (@nil byte, 0).
  induction Hrows as [| [d val] rows Hd _ IH]; intros st; [reflexivity |].
  cbn [fst] in Hd. cbn [segments]. unfold segment.
  destruct (seg_len_sign (samplerate p) d Hsr) as (sl & -> & Hneg & _); [lia |].
  cbn [bind]. destruct (Z.leb_spec sl 0); [apply IH | lia].
Qed.

Lemma segments_app p rows1 rows2 : forall st,
  segments p (rows1 ++ rows2) st =
  (st' <- segments p rows1 st ;; segments p rows2 st').
Proof.
  induction rows1 as [| row rows1 IH]; intros st; [reflexivity |].
  cbn [app segments]. rewrite bind_assoc.
  destruct (segment p row st) as [e | st']; [reflexivity |]. cbn [bind]. apply IH.
Qed.

(** X7.  Rows added at the end of a schedule change nothing of what the
    rows before them produce: the output of the longer schedule starts with
    the output of the shorter one, and the count grows by the samples
    added. *)
Theorem synthesize_prefix rows1 rows2 f sr v r frames t :
  synthesize_pcm16 (rows1 ++ rows2) f sr v r = inr (frames, t) ->
  exists frames1 t1 more,
    synthesize_pcm16 rows1 f sr v r = inr (frames1, t1) /\
    frames = frames1 ++ more /\
    t1 <= t /\
    Z.of_nat (List.length more) = 2 * (t - t1).
Proof.
  unfold synthesize_pcm16. intros H.
  apply bind_inr in H. destruct H as (p & Hp & H). rewrite Hp. cbn [bind].
  rewrite segments_app in H.
  apply bind_inr in H. destruct H as ([frames1 t1] & H1 & H2).
  rewrite segments_samples in H2.
  apply bind_inr in H2. destruct H2 as (ss & _ & H2). injection H2 as <- <-.
  exists frames1, t1, (encode ss). rewrite length_encode.
  repeat split; try assumption; lia.
Qed.

(** ** The first sample of a tone *)

Lemma zero_cases x s :
  Prim2SF x = S754_zero s -> x = 0%float \/ x = (-0)%float.
Proof.
  intros H. rewrite <- (SF2Prim_Prim2SF x), H.
  destruct s; [right | left]; vm_compute; reflexivity.
Qed.








(* ================================================================== *)
(** * The parameters the application passes on *)

Lemma SFcompare_zero_eq y :
  SFcompare (S754_zero false) y = Some Eq -> exists s, y = S754_zero s.
Proof.
  destruct y as [s | s | | s m e]; cbn [SFcompare]; intros H.
  - eauto.
  - destruct s; discriminate H.
  - discriminate H.
  - destruct s; discriminate H.
Qed.

Lemma SFcompare_finite_eq x m1 e1 :
  SFcompare x (S754_finite false m1 e1) = Some Eq -> x = S754_finite false m1 e1.
Proof.
  destruct x as [s | s | | s m e]; cbn [SFcompare]; intros H.
  - discriminate H.
  - destruct s; discriminate H.
  - discriminate H.
  - destruct s; [discriminate H |].
    destruct (Z.compare_spec e e1) as [-> | _ | _]; try discriminate H.
    apply Some_eq in H. rewrite Pos.compare_cont_spec in H.
    cbn [Pos.switch_Eq] in H.
    destruct (Pos.compare_spec m m1) as [-> | _ | _]; try discriminate H.
    reflexivity.
Qed.

Lemma leb_not_ltb x y :
  (x <=? y)%float = true -> (x <? y)%float = false ->
  SFcompare (Prim2SF x) (Prim2SF y) = Some Eq.
Proof.
  rewrite leb_spec, ltb_spec. unfold SFleb, SFltb.
  destruct (SFcompare (Prim2SF x) (Prim2SF y)) as [[| |] |];
    intros H1 H2; try discriminate; reflexivity.
Qed.

(** A volume the test of [read_params] lets through is the volume the
    synthesizer uses, the sign of a zero apart. *)
Lemma accepted_volume_unclamped vol :
  ((0 <=? vol) && (vol <=? 1))%float = true ->
  clamp_volume (Py.Float vol) = inr vol \/
  (vol = (-0)%float /\ clamp_volume (Py.Float vol) = inr 0%float).
Proof.
  intros H. apply andb_true_iff in H. destruct H as [H0 H1].
  unfold clamp_volume. rewrite clamp_Float. cbn [Py.to_float ret].
  unfold fclamp, Py.fmin, Py.fmax.
  destruct (vol <? 1)%float eqn:E1.
  - destruct (0 <? vol)%float eqn:E0; [left; reflexivity |].
    pose proof (leb_not_ltb _ _ H0 E0) as Hc. rewrite Prim2SF_zero in Hc.
    apply SFcompare_zero_eq in Hc. destruct Hc as (s & Hs).
    destruct (zero_cases _ _ Hs) as [-> | ->]; [left | right; split]; reflexivity.
  - pose proof (leb_not_ltb _ _ H1 E1) as Hc. rewrite Prim2SF_one in Hc.
    apply SFcompare_finite_eq in Hc. rewrite <- Prim2SF_one in Hc.
    apply Prim2SF_inj in Hc. subst vol. left. vm_compute. reflexivity.
Qed.

(** X9.  [read_params] does not clamp the volume, it refuses it: outside
    [0, 1] (or not a number) the answer is [None] after one error box; and
    a volume it returns is the one [synthesize_pcm16] then uses, the
    sign of a zero apart.  It changes nothing else of the application. *)
Theorem read_params_volume a :
  (forall vol,
      float_of_str (var_vol a) = inr vol ->
      ((0 <=? vol) && (vol <=? 1))%float = false ->
      fst (read_params a) = None) /\
  (forall e, try_read_params a = inl e ->
      read_params a
      = (None,
         messagebox
           (showerror "Invalid Parameters"
              ("Please enter valid numeric parameters." ++ newline ++ newline
               ++ exn_str e)) a)) /\
  (forall freq sr vol ramp a',
      read_params a = (Some (freq, sr, vol, ramp), a') ->
      a' = a /\
      float_of_str (var_vol a) = inr vol /\
      ((0 <=? vol) && (vol <=? 1))%float = true /\
      (clamp_volume (Py.Float vol) = inr vol \/
       (vol = (-0)%float /\ clamp_volume (Py.Float vol) = inr 0%float))).
Proof.
  split; [| split].
  - intros vol Hvol Hout. unfold read_params, try_read_params.
    destruct (float_of_str (var_freq a)) as [e | freq]; [reflexivity |]. cbn [bind].
    destruct (float_of_str (var_sr a)) as [e | x]; [reflexivity |]. cbn [bind].
    destruct (Py.int_of_float x) as [e | sr]; [reflexivity |]. cbn [bind].
    rewrite Hvol. cbn [bind].
    destruct (float_of_str (var_ramp a)) as [e | ramp]; [reflexivity |]. cbn [bind].
    rewrite Hout. reflexivity.
  - intros e He. unfold read_params. rewrite He. reflexivity.
  - intros freq sr vol ramp a'. unfold read_params.
    destruct (try_read_params a) as [e | ps] eqn:E; [discriminate |].
    intros H. injection H as -> <-. split; [reflexivity |].
    unfold try_read_params in E.
    apply bind_inr in E. destruct E as (freq' & _ & E).
    apply bind_inr in E. destruct E as (x & _ & E).
    apply bind_inr in E. destruct E as (sr' & _ & E).
    apply bind_inr in E. destruct E as (vol' & Hvol & E).
    apply bind_inr in E. destruct E as (ramp' & _ & E).
    destruct ((0 <=? vol') && (vol' <=? 1))%float eqn:Hin; [| discriminate E].
    cbn [negb] in E. unfold ret in E. injection E as -> -> -> ->.
    split; [exact Hvol |]. split; [exact Hin |].
    apply accepted_volume_unclamped. exact Hin.
Qed.

(** X10.  When [synthesize_to_wav] succeeds, the file was parsed and
    synthesized with the parameters read, the frames went to the writer with
    one channel, two bytes per sample and the frame rate as entered; the
    samples were made at the clamped rate, which is the frame rate written
    exactly when the entry lies in [8000, 192000]. *)
Theorem synthesize_to_wav_rates out_path a a' :
  synthesize_to_wav out_path a = (true, a') ->
  exists path freq sr vol ramp lines rows p pcm nsamples,
    paris_path a = Some path /\
    try_read_params a = inr (freq, sr, vol, ramp) /\
    open_lines path = inr lines /\
    parse_paris lines = inr rows /\
    clamp_params (Py.Float freq) (Py.Int sr) (Py.Float vol) (Py.Float ramp) = inr p /\
    samplerate p = Z.max 8000 (Z.min 192000 sr) /\
    segments p rows ([], 0) = inr (pcm, nsamples) /\
    Z.of_nat (List.length pcm) = 2 * nsamples /\
    wave_close out_path
      {| wav_nchannels := 1; wav_sampwidth := 2;
         wav_framerate := sr; wav_frames := pcm |} = inr tt /\
    (samplerate p = sr <-> 8000 <= sr <= 192000) /\
    dialogs a' = dialogs a.
Proof.
  unfold synthesize_to_wav.
  destruct (paris_path a) as [[| c path] |] eqn:Hpath; try discriminate.
  unfold read_params.
  destruct (try_read_params a) as [e | [[[freq sr] vol] ramp]] eqn:Hps;
    [discriminate |].
  destruct (try_synthesize_to_wav _ _ _ _ _ _) as [e | msg] eqn:Htry;
    [discriminate |].
  intros H. injection H as <-.
  unfold try_synthesize_to_wav in Htry.
  apply bind_inr in Htry. destruct Htry as (lines & Hlines & Htry).
  apply bind_inr in Htry. destruct Htry as (rows & Hrows & Htry).
  apply bind_inr in Htry. destruct Htry as ([pcm n] & Hsyn & Htry).
  apply bind_inr in Htry. destruct Htry as ([] & Hw & _).
  pose proof Hsyn as Hsyn'. unfold synthesize_pcm16 in Hsyn'.
  apply bind_inr in Hsyn'. destruct Hsyn' as (p & Hp & Hseg).
  assert (Hsr : samplerate p = Z.max 8000 (Z.min 192000 sr)).
  { unfold clamp_params in Hp. rewrite clamp_samplerate_Int in Hp. cbn [bind] in Hp.
    apply bind_inr in Hp. destruct Hp as (v' & _ & Hp).
    apply bind_inr in Hp. destruct Hp as (f' & _ & Hp).
    apply bind_inr in Hp. destruct Hp as (r' & _ & Hp).
    apply bind_inr in Hp. destruct Hp as (rs & _ & Hp).
    unfold ret in Hp. injection Hp as <-. reflexivity. }
  exists (String c path), freq, sr, vol, ramp, lines, rows, p, pcm, n.
  repeat split; try assumption; try reflexivity.
  - rewrite synthesize_samples, Hp in Hsyn. cbn [bind] in Hsyn.
    apply bind_inr in Hsyn. destruct Hsyn as (ss & _ & Hsyn).
    injection Hsyn as <- <-. rewrite length_encode. lia.
  - lia.
  - lia.
  - lia.
Qed.

(* ================================================================== *)
(** * Schedules without a tone *)

Lemma segments_silent p rows : forall frames0 t0 frames t,
  Forall (fun row => snd row <> 1) rows ->
  segments p rows (frames0, t0) = inr (frames, t) ->
  exists k, 0 <= k /\ frames = frames0 ++ repeat x00 (Z.to_nat (2 * k)) /\
            t = t0 + k.
Proof.
  induction rows as [| [d val] rows IH]; intros frames0 t0 frames t Hrows H.
  - cbn [segments ret] in H. injection H as <- <-. exists 0.
    cbn [Z.mul Z.to_nat repeat]. rewrite app_nil_r, Z.add_0_r. auto with zarith.
  - inversion Hrows as [| row rows' Hval Hrest]; subst. cbn [snd] in Hval.
    cbn [segments] in H. apply bind_inr in H. destruct H as (st' & Hseg & H).
    unfold segment in Hseg.
    apply bind_inr in Hseg. destruct Hseg as (sl & _ & Hseg).
    destruct (Z.leb_spec sl 0) as [Hle | Hlt].
    + unfold ret in Hseg. injection Hseg as <-. exact (IH _ _ _ _ Hrest H).
    + destruct (Z.eqb_spec val 1) as [-> | _]; [contradiction |].
      unfold ret in Hseg. injection Hseg as <-.
      destruct (IH _ _ _ _ Hrest H) as (k & Hk & -> & ->).
      exists (sl + k). split; [lia |]. split; [| lia].
      unfold silence. rewrite concat_repeat_pair, <- app_assoc, <- repeat_app.
      do 2 f_equal. lia.
Qed.

(** X11.  A schedule in which no value is 1 gives only zero bytes, two per
    counted sample, whatever the frequency, the volume and the ramp: any
    value other than 1 is silence for [synthesize_pcm16]. *)
Theorem silent_schedule rows f sr v r frames t :
  Forall (fun row => snd row <> 1) rows ->
  synthesize_pcm16 rows f sr v r = inr (frames, t) ->
  0 <= t /\ frames = repeat x00 (Z.to_nat (2 * t)).
Proof.
  intros Hrows H. unfold synthesize_pcm16 in H.
  apply bind_inr in H. destruct H as (p & _ & H).
  destruct (segments_silent _ _ _ _ _ _ Hrows H) as (k & Hk & -> & ->).
  split; [lia |]. reflexivity.
Qed.

(* ================================================================== *)
(** * Lengths that are not negative *)

Lemma seg_lens_nonneg sr rows :
  8000 <= sr <= 192000 ->
  Forall (fun row => 0 <= fst row < 2 ^ 53) rows ->
  exists ls, seg_lens sr rows = inr ls /\ Forall (fun sl => 0 <= sl) ls.
Proof.
  intros Hsr Hrows. induction Hrows as [| [d val] rows Hd _ IH].
  - exists []. split; [reflexivity | constructor].
  - cbn [fst] in Hd. destruct IH as (ls & Hls & Hpos).
    destruct (seg_len_sign sr d Hsr) as (sl & Hsl & _ & Hnn); [lia |].
    exists (sl :: ls). cbn [seg_lens]. rewrite Hsl, Hls.
    split; [reflexivity |]. constructor; [apply Hnn; lia | exact Hpos].
Qed.

Lemma total_samples_sum ls :
  Forall (fun sl => 0 <= sl) ls -> total_samples ls = fold_right Z.add 0 ls.
Proof.
  induction 1 as [| sl ls Hsl _ IH]; [reflexivity |].
  unfold total_samples in *. cbn [fold_right]. rewrite IH.
  unfold contribution. destruct (Z.leb_spec sl 0); lia.
Qed.

(* ================================================================== *)
(** * The clamps, value by value *)

(** ** The order of binary64 *)

Lemma SFcompare_antisym a b :
  SFcompare b a = option_map CompOpp (SFcompare a b).
Proof.
  destruct a as [s1 | s1 | | s1 m1 e1], b as [s2 | s2 | | s2 m2 e2];
    cbn [SFcompare option_map]; try reflexivity;
    try (destruct s1; reflexivity); try (destruct s2; reflexivity);
    try (destruct s1, s2; reflexivity).
  destruct s1, s2; cbn [CompOpp]; try reflexivity;
    rewrite (Z.compare_antisym e1 e2); destruct (e1 ?= e2); cbn [CompOpp];
    try reflexivity; f_equal;
    rewrite !Pos.compare_cont_spec; cbn [Pos.switch_Eq];
    rewrite (Pos.compare_antisym m1 m2); destruct (m1 ?= m2)%positive;
    reflexivity.
Qed.

Lemma SFcompare_lt_trans a b c :
  SFcompare a b = Some Lt -> SFcompare b c = Some Lt -> SFcompare a c = Some Lt.
Proof.
  destruct a as [s1 | s1 | | s1 m1 e1], b as [s2 | s2 | | s2 m2 e2],
           c as [s3 | s3 | | s3 m3 e3];
    cbn [SFcompare]; try discriminate;
    try (destruct s1; discriminate); try (destruct s2; discriminate);
    try (destruct s3; discriminate);
    try (destruct s1, s2; discriminate); try (destruct s2, s3; discriminate);
    try (destruct s1, s3; try discriminate; reflexivity);
    try (destruct s1, s2, s3; try discriminate; reflexivity).
  all: destruct s1, s2, s3; try discriminate; try reflexivity.
  all: rewrite !Pos.compare_cont_spec; cbn [Pos.switch_Eq];
    destruct (Z.compare_spec e1 e2), (Z.compare_spec e2 e3), (Z.compare_spec e1 e3);
    try discriminate; try reflexivity; try lia;
    destruct (Pos.compare_spec m1 m2), (Pos.compare_spec m2 m3),
             (Pos.compare_spec m1 m3);
    cbn [CompOpp]; try discriminate; try reflexivity; try lia.
Qed.

Lemma ltb_antisym a b : (a <? b)%float = true -> (b <? a)%float = false.
Proof.
  rewrite !ltb_spec. unfold SFltb. rewrite (SFcompare_antisym (Prim2SF a)).
  destruct (SFcompare (Prim2SF a) (Prim2SF b)) as [[] |]; cbn; congruence.
Qed.

Lemma ltb_trans a b c :
  (a <? b)%float = true -> (b <? c)%float = true -> (a <? c)%float = true.
Proof.
  rewrite !ltb_spec. unfold SFltb. intros H1 H2.
  rewrite (SFcompare_lt_trans (Prim2SF a) (Prim2SF b) (Prim2SF c)); [reflexivity | |].
  - destruct (SFcompare (Prim2SF a) (Prim2SF b)) as [[] |]; congruence.
  - destruct (SFcompare (Prim2SF b) (Prim2SF c)) as [[] |]; congruence.
Qed.

Lemma not_nan_compare x y :
  x <> nan -> Prim2SF y <> S754_nan ->
  exists c, SFcompare (Prim2SF x) (Prim2SF y) = Some c.
Proof.
  intros Hx Hy.
  assert (Prim2SF x <> S754_nan).
  { intros E. apply Hx. rewrite <- (SF2Prim_Prim2SF x), E. reflexivity. }
  destruct (Prim2SF x) as [| | |], (Prim2SF y) as [| | |];
    cbn [SFcompare]; try contradiction; eauto.
Qed.

Lemma bound_eq b x :
  bound b -> SFcompare (Prim2SF x) (Prim2SF b) = Some Eq ->
  x = b \/ (b = 0%float /\ x = (-0)%float).
Proof.
  intros [-> | (m & e & Hb)] H.
  - rewrite SFcompare_antisym in H. rewrite Prim2SF_zero in H.
    destruct (SFcompare (S754_zero false) (Prim2SF x)) as [[] |] eqn:E;
      try discriminate H.
    apply SFcompare_zero_eq in E. destruct E as (s & Hs).
    destruct (zero_cases _ _ Hs) as [-> | ->]; auto.
  - rewrite Hb in H. apply SFcompare_finite_eq in H. rewrite <- Hb in H.
    left. apply Prim2SF_inj. exact H.
Qed.

Lemma saturated_fclamp lo hi x :
  (lo <? hi)%float = true -> bound lo ->
  (exists m e, Prim2SF hi = S754_finite false m e) ->
  saturated lo hi (Py.Float x) (fclamp lo hi x).
Proof.
  intros Hlh Hlo Hhi. unfold saturated, fclamp, Py.fmax, Py.fmin. cbn [Py.lt kept].
  assert (Hlo' : Prim2SF lo <> S754_nan).
  { destruct Hlo as [-> | (m & e & ->)]; [rewrite Prim2SF_zero |]; discriminate. }
  assert (Hhi' : Prim2SF hi <> S754_nan) by (destruct Hhi as (m & e & ->); discriminate).
  split; [| split; [| split]].
  - intros H. rewrite (ltb_trans _ _ _ H Hlh), (ltb_antisym _ _ H). reflexivity.
  - intros H. rewrite (ltb_antisym _ _ H), Hlh. reflexivity.
  - intros E. injection E as ->.
    replace (nan <? hi)%float with false.
    + rewrite Hlh. reflexivity.
    + rewrite ltb_spec. reflexivity.
  - intros H1 H2 Hn. assert (Hx : x <> nan) by congruence.
    destruct (not_nan_compare x hi Hx Hhi') as (c & Hc).
    destruct (not_nan_compare x lo Hx Hlo') as (c' & Hc').
    assert (Hxh : (x <? hi)%float = match c with Lt => true | _ => false end).
    { rewrite ltb_spec. unfold SFltb. rewrite Hc. destruct c; reflexivity. }
    assert (Hlx : (lo <? x)%float = match c' with Gt => true | _ => false end).
    { rewrite ltb_spec. unfold SFltb. rewrite SFcompare_antisym, Hc'.
      destruct c'; reflexivity. }
    assert (Hc1 : c <> Gt).
    { intros ->. rewrite ltb_spec in H2. unfold SFltb in H2.
      rewrite SFcompare_antisym, Hc in H2. discriminate H2. }
    assert (Hc2 : c' <> Lt).
    { intros ->. rewrite ltb_spec in H1. unfold SFltb in H1.
      rewrite Hc' in H1. discriminate H1. }
    rewrite Hxh. destruct c; [| | contradiction].
    + destruct (bound_eq hi x (or_intror Hhi) Hc) as [-> | [E _]].
      * rewrite Hlh. left. reflexivity.
      * destruct Hhi as (m & e & Hhi). rewrite E, Prim2SF_zero in Hhi.
        discriminate.
    + rewrite Hlx. destruct c'; [| contradiction |].
      * destruct (bound_eq lo x Hlo Hc') as [-> | [-> ->]]; [left | right]; auto.
      * left. reflexivity.
Qed.

(** ** The four clamps *)

Lemma lt_Int_zero z : Py.lt (Py.Int z) (Py.Float 0) = (z <? 0).
Proof.
  unfold Py.lt. rewrite Prim2SF_zero. cbn [Py.SF_Zcompare].
  destruct (Z.compare_spec 0 z), (Z.ltb_spec z 0); try reflexivity; lia.
Qed.

Lemma bound_zero : bound 0.
Proof. left. reflexivity. Qed.

Lemma bound_50 : bound 50.
Proof. right. rewrite Prim2SF_50. eauto. Qed.

Lemma clamp_volume_saturated v :
  exists y, clamp_volume v = inr y /\ saturated 0 1 v y.
Proof.
  unfold clamp_volume. destruct v as [z | x].
  - pose proof (lt_Int_Float z 1 1 _ _ Prim2SF_one ltac:(lia)
                  ltac:(vm_compute; reflexivity)) as [L1 L2].
    unfold Py.min, Py.max, saturated. rewrite L1, L2, lt_Int_zero.
    destruct (Z.ltb_spec z 1).
    + rewrite lt_zero_Int. destruct (Z.ltb_spec 0 z); [lia |].
      exists 0%float. split; [reflexivity |].
      destruct (Z.ltb_spec z 0), (Z.ltb_spec 1 z); try lia;
        (split; [| split; [| split]]); intros; try discriminate; try reflexivity.
      assert (z = 0) by lia. subst z. exact float_of_int_zero.
    + exists 1%float. split; [reflexivity |].
      destruct (Z.ltb_spec z 0), (Z.ltb_spec 1 z); try lia;
        (split; [| split; [| split]]); intros; try discriminate; try reflexivity.
      assert (z = 1) by lia. subst z. vm_compute. reflexivity.
  - rewrite clamp_Float. eexists. split; [reflexivity |].
    apply saturated_fclamp; [reflexivity | exact bound_zero |].
    rewrite Prim2SF_one. eauto.
Qed.

Lemma clamp_freq_hz_saturated v :
  exists y, clamp_freq_hz v = inr y /\ saturated 50 6000 v y.
Proof.
  unfold clamp_freq_hz. destruct v as [z | x].
  - pose proof (lt_Int_Float z 6000 6000 _ _ Prim2SF_6000 ltac:(lia)
                  ltac:(vm_compute; reflexivity)) as [L1 L2].
    pose proof (lt_Int_Float z 50 50 _ _ Prim2SF_50 ltac:(lia)
                  ltac:(vm_compute; reflexivity)) as [L3 L4].
    unfold Py.min, Py.max, saturated. rewrite L1, L2, L3.
    destruct (Z.ltb_spec z 6000).
    + rewrite L4. destruct (Z.ltb_spec 50 z).
      * cbn [Py.to_float].
        destruct (int_fixed_spec 50 6000 z) as (y & Hy & _);
          [apply freq_ints_fixed; lia |].
        exists y. split; [exact Hy |].
        destruct (Z.ltb_spec z 50), (Z.ltb_spec 6000 z); try lia;
          (split; [| split; [| split]]); intros; try discriminate. exact Hy.
      * exists 50%float. split; [reflexivity |].
        destruct (Z.ltb_spec z 50), (Z.ltb_spec 6000 z); try lia;
          (split; [| split; [| split]]); intros; try discriminate; try reflexivity.
        assert (z = 50) by lia. subst z. vm_compute. reflexivity.
    + exists 6000%float. split; [reflexivity |].
      destruct (Z.ltb_spec z 50), (Z.ltb_spec 6000 z); try lia;
        (split; [| split; [| split]]); intros; try discriminate; try reflexivity.
      assert (z = 6000) by lia. subst z. vm_compute. reflexivity.
  - rewrite clamp_Float. eexists. split; [reflexivity |].
    apply saturated_fclamp; [reflexivity | exact bound_50 |].
    rewrite Prim2SF_6000. eauto.
Qed.

Lemma clamp_ramp_ms_saturated v :
  exists y, clamp_ramp_ms v = inr y /\ saturated 0 50 v y.
Proof.
  unfold clamp_ramp_ms. destruct v as [z | x].
  - pose proof (lt_Int_Float z 50 50 _ _ Prim2SF_50 ltac:(lia)
                  ltac:(vm_compute; reflexivity)) as [L1 L2].
    unfold Py.min, Py.max, saturated. rewrite L1, L2, lt_Int_zero.
    destruct (Z.ltb_spec z 50).
    + rewrite lt_zero_Int. destruct (Z.ltb_spec 0 z).
      * cbn [Py.to_float].
        destruct (int_fixed_spec 0 50 z) as (y & Hy & _);
          [apply ramp_ints_fixed; lia |].
        exists y. split; [exact Hy |].
        destruct (Z.ltb_spec z 0), (Z.ltb_spec 50 z); try lia;
          (split; [| split; [| split]]); intros; try discriminate. exact Hy.
      * exists 0%float. split; [reflexivity |].
        destruct (Z.ltb_spec z 0), (Z.ltb_spec 50 z); try lia;
          (split; [| split; [| split]]); intros; try discriminate; try reflexivity.
        assert (z = 0) by lia. subst z. exact float_of_int_zero.
    + exists 50%float. split; [reflexivity |].
      destruct (Z.ltb_spec z 0), (Z.ltb_spec 50 z); try lia;
        (split; [| split; [| split]]); intros; try discriminate; try reflexivity.
      assert (z = 50) by lia. subst z. vm_compute. reflexivity.
  - rewrite clamp_Float. eexists. split; [reflexivity |].
    apply saturated_fclamp; [reflexivity | exact bound_zero |].
    rewrite Prim2SF_50. eauto.
Qed.

(** The exact comparison of a float with two integers. *)
Lemma SF_Zcompare_mono x a b :
  a <= b -> Py.SF_Zcompare x a = Some Lt -> Py.SF_Zcompare x b = Some Lt.
Proof.
  intros Hab. destruct x as [s | s | | s m e]; cbn [Py.SF_Zcompare].
  - intros H. apply Some_eq in H. rewrite Z.compare_lt_iff in H.
    f_equal. apply Z.compare_lt_iff. lia.
  - trivial.
  - trivial.
  - destruct (Z.leb_spec 0 e) as [He | He]; intros H; apply Some_eq in H;
      rewrite Z.compare_lt_iff in H; f_equal; apply Z.compare_lt_iff.
    + lia.
    + assert (HP : 0 < 2 ^ (- e)) by (apply pow2_pos; lia).
      revert HP H. generalize (2 ^ (- e)). intros P HP H. nia.
Qed.

Lemma SF_Zcompare_eq_trunc x c :
  Py.SF_Zcompare (Prim2SF x) c = Some Eq -> Py.int_of_float x = inr c.
Proof.
  unfold Py.int_of_float.
  destruct (Prim2SF x) as [s | s | | s m e]; cbn [Py.SF_Zcompare Py.not_an_integer].
  - intros H. apply Some_eq in H. apply Z.compare_eq in H. subst c. reflexivity.
  - destruct s; discriminate.
  - discriminate.
  - unfold Py.trunc_finite, ret.
    destruct (Z.leb_spec 0 e) as [He | He]; intros H; apply Some_eq in H;
      apply Z.compare_eq in H; f_equal.
    + rewrite <- H. destruct s; cbn [cond_Zopp]; lia.
    + assert (HP : 0 < 2 ^ (- e)) by (apply pow2_pos; lia).
      revert HP H. generalize (2 ^ (- e)). intros P HP H.
      destruct s; cbn [cond_Zopp] in *.
      * assert (Hm : Zpos m = (- c) * P) by lia.
        rewrite Hm, Z.div_mul by lia. lia.
      * rewrite H, Z.div_mul by lia. reflexivity.
Qed.

Ltac not_nan :=
  match goal with
  | H : Py.Float ?x = Py.Float nan, H' : Py.SF_Zcompare (Prim2SF ?x) _ = Some _ |- _ =>
      injection H as H; rewrite H in H'; vm_compute in H'; discriminate H'
  end.

Lemma clamp_samplerate_saturated sr :
  exists z, clamp_samplerate sr = inr z /\ saturated_int 8000 192000 sr z.
Proof.
  destruct sr as [z | x].
  - rewrite clamp_samplerate_Int. eexists. split; [reflexivity |].
    unfold saturated_int. cbn [Py.lt Py.to_int].
    destruct (Z.ltb_spec z 8000), (Z.ltb_spec 192000 z); try lia;
      (split; [| split; [| split]]); intros; try discriminate;
      unfold ret; try f_equal; lia.
  - unfold clamp_samplerate, Py.max, Py.min, saturated_int. cbn [Py.lt].
    assert (Hnan : Prim2SF x = S754_nan -> x = nan).
    { intros E. rewrite <- (SF2Prim_Prim2SF x), E. reflexivity. }
    destruct (Py.SF_Zcompare (Prim2SF x) 192000) as [[] |] eqn:Hhi; cbn [Py.lt].
    + (* x == 192000 *)
      exists 192000. cbn [Py.to_int]. split; [reflexivity |].
      pose proof (SF_Zcompare_eq_trunc _ _ Hhi) as Ht.
      split; [| split; [| split]]; intros; try reflexivity; try exact Ht.
      destruct (Py.SF_Zcompare (Prim2SF x) 8000) as [[] |] eqn:Hlo;
        try discriminate.
      apply (SF_Zcompare_mono _ 8000 192000) in Hlo; [congruence | lia].
    + (* x < 192000 *)
      destruct (Py.SF_Zcompare (Prim2SF x) 8000) as [[] |] eqn:Hlo.
      * exists 8000. cbn [Py.to_int]. split; [reflexivity |].
        pose proof (SF_Zcompare_eq_trunc _ _ Hlo) as Ht.
        split; [| split; [| split]]; intros; try discriminate; try reflexivity;
          try not_nan.
        exact Ht.
      * exists 8000. cbn [Py.to_int]. split; [reflexivity |].
        split; [| split; [| split]]; intros; try discriminate; try reflexivity;
          try not_nan.
      * destruct (clamp_samplerate_spec (Py.Float x)) as (z & Hz & _).
        unfold clamp_samplerate, Py.max, Py.min in Hz. cbn [Py.lt] in Hz.
        rewrite Hhi in Hz. cbn [Py.lt] in Hz. rewrite Hlo in Hz.
        exists z. split; [exact Hz |].
        split; [| split; [| split]]; intros; try discriminate; try not_nan.
        exact Hz.
      * exfalso. destruct (Prim2SF x) as [| [] | |]; discriminate.
    + (* 192000 < x *)
      exists 192000. cbn [Py.to_int]. split; [reflexivity |].
      split; [| split; [| split]]; intros; try discriminate; try reflexivity.
      destruct (Py.SF_Zcompare (Prim2SF x) 8000) as [[] |] eqn:Hlo;
        try discriminate.
      apply (SF_Zcompare_mono _ 8000 192000) in Hlo; [congruence | lia].
    + (* not a number *)
      exists 192000. cbn [Py.to_int]. split; [reflexivity |].
      assert (E : x = nan).
      { apply Hnan. destruct (Prim2SF x) as [| [] | |]; try discriminate.
        reflexivity. }
      subst x.
      split; [| split; [| split]]; intros; try reflexivity; try congruence.
      match goal with H : _ = true |- _ => vm_compute in H; discriminate H end.
Qed.

Lemma clamp_params_fields f sr v r p :
  clamp_params f sr v r = inr p ->
  clamp_freq_hz f = inr (freq_hz p) /\
  clamp_samplerate sr = inr (samplerate p) /\
  clamp_volume v = inr (volume p) /\
  clamp_ramp_ms r = inr (ramp_ms p) /\
  ramp_samples_of (samplerate p) (ramp_ms p) = inr (ramp_samples p).
Proof.
  unfold clamp_params. intros H.
  apply bind_inr in H. destruct H as (sr' & Hsr & H).
  apply bind_inr in H. destruct H as (v' & Hv & H).
  apply bind_inr in H. destruct H as (f' & Hf & H).
  apply bind_inr in H. destruct H as (r' & Hr & H).
  apply bind_inr in H. destruct H as (rs & Hrs & H).
  unfold ret in H. injection H as <-.
  cbn [samplerate volume freq_hz ramp_ms ramp_samples]. auto.
Qed.

(** C3.  No parameter value is rejected: the four clamps never raise.  Each
    clamped value is tied to the caller's: below the range it is the lower
    bound, above it the upper bound, inside it the value itself (a volume
    of 5.0 gives 1.0, a frequency of -10 gives 50.0).  The sample rate is
    left an integer of [8000, 192000], the volume, the frequency and the
    ramp inside [0, 1], [50, 6000] and [0, 50]; and the result of
    [synthesize_pcm16] is the one the clamped values give. *)
Theorem synthesize_clamps_parameters rows f sr v r :
  exists p,
    clamp_params f sr v r = inr p /\
    saturated 50 6000 f (freq_hz p) /\
    saturated_int 8000 192000 sr (samplerate p) /\
    saturated 0 1 v (volume p) /\
    saturated 0 50 r (ramp_ms p) /\
    8000 <= samplerate p <= 192000 /\
    ((0 <=? volume p) && (volume p <=? 1))%float = true /\
    ((50 <=? freq_hz p) && (freq_hz p <=? 6000))%float = true /\
    ((0 <=? ramp_ms p) && (ramp_ms p <=? 50))%float = true /\
    clamp_params (Py.Float (freq_hz p)) (Py.Int (samplerate p))
                 (Py.Float (volume p)) (Py.Float (ramp_ms p)) = inr p /\
    synthesize_pcm16 rows f sr v r =
    synthesize_pcm16 rows (Py.Float (freq_hz p)) (Py.Int (samplerate p))
                     (Py.Float (volume p)) (Py.Float (ramp_ms p)).
Proof.
  destruct (clamp_params_spec f sr v r) as (p & Hp & Hok & Hv & Hf & Hr & Hrs).
  exists p.
  destruct (clamp_params_fields _ _ _ _ _ Hp) as (Ef & Esr & Ev & Er & _).
  assert (Hagain : clamp_params (Py.Float (freq_hz p)) (Py.Int (samplerate p))
                     (Py.Float (volume p)) (Py.Float (ramp_ms p)) = inr p).
  { unfold clamp_params. rewrite clamp_samplerate_Int.
    replace (Z.max 8000 (Z.min 192000 (samplerate p))) with (samplerate p)
      by (destruct Hok as [? _]; lia).
    cbn [bind]. unfold clamp_volume, clamp_freq_hz, clamp_ramp_ms.
    rewrite !clamp_Float, Hv, Hf, Hr. cbn [Py.to_float bind ret].
    rewrite Hrs. cbn [bind]. destruct p; reflexivity. }
  split; [assumption |].
  split.
  { destruct (clamp_freq_hz_saturated f) as (y & Hy & Hs).
    rewrite Ef in Hy. injection Hy as <-. exact Hs. }
  split.
  { destruct (clamp_samplerate_saturated sr) as (z & Hz & Hs).
    rewrite Esr in Hz. injection Hz as <-. exact Hs. }
  split.
  { destruct (clamp_volume_saturated v) as (y & Hy & Hs).
    rewrite Ev in Hy. injection Hy as <-. exact Hs. }
  split.
  { destruct (clamp_ramp_ms_saturated r) as (y & Hy & Hs).
    rewrite Er in Hy. injection Hy as <-. exact Hs. }
  split; [apply Hok |].
  split; [| split; [| split; [| split]]].
  - apply andb_true_iff. apply (fixed_in_range 0 1); auto.
  - apply andb_true_iff. apply (fixed_in_range 50 6000); auto.
  - apply andb_true_iff. apply (fixed_in_range 0 50); auto.
  - exact Hagain.
  - unfold synthesize_pcm16. rewrite Hp, Hagain. reflexivity.
Qed.

(* ================================================================== *)
(** * What a run returns, and what it cannot raise *)

(** A segment of positive length advances the running index by its length
    and the buffer by two bytes per sample, tone or silence. *)
Lemma segment_advances p dur_ms val frames t sl frames' t' :
  seg_len (samplerate p) dur_ms = inr sl -> 0 < sl ->
  segment p (dur_ms, val) (frames, t) = inr (frames', t') ->
  t' = t + sl /\
  Z.of_nat (List.length frames') = Z.of_nat (List.length frames) + 2 * sl.
Proof.
  intros Hsl Hpos. unfold segment. rewrite Hsl. cbn [bind].
  destruct (Z.leb_spec sl 0) as [Hle | _]; [lia |].
  destruct (val =? 1).
  - rewrite tone_loop_samples. intros H.
    apply bind_inr in H. destruct H as (ss & Hss & H). injection H as <- <-.
    apply tone_samples_length in Hss.
    rewrite length_app, length_encode, Hss. lia.
  - intros H. injection H as <- <-.
    unfold silence. rewrite length_app, concat_repeat_pair, repeat_length. lia.
Qed.

(** Whatever the input, a run that returns has counted the rounded lengths
    and holds two bytes per counted sample. *)
Lemma synthesize_count rows f sr v r frames t :
  synthesize_pcm16 rows f sr v r = inr (frames, t) ->
  exists p ls,
    clamp_params f sr v r = inr p /\
    seg_lens (samplerate p) rows = inr ls /\
    t = total_samples ls /\
    Z.of_nat (List.length frames) = 2 * t /\
    Z.of_nat (List.length (samples_of frames)) = t.
Proof.
  intros H. rewrite synthesize_samples in H.
  apply bind_inr in H. destruct H as (p & Hp & H).
  apply bind_inr in H. destruct H as (ss & Hss & H). injection H as <- <-.
  destruct (schedule_samples_lens p rows 0 ss Hss) as (ls & Hls & Hlen).
  exists p, ls. rewrite length_encode.
  repeat split; try assumption; try lia.
  rewrite samples_of_encode; [reflexivity |].
  pose proof (schedule_samples_range p rows 0 ss Hss) as Hr.
  eapply Forall_impl; [| exact Hr]. unfold in_int16. intros; cbn beta in *; lia.
Qed.

(** With durations below [2^53] ms and at most [2^53] samples in all, a run
    raises none of the errors of the model. *)
Lemma synthesize_raises_nothing rows f sr v r :
  Forall (fun row => Z.abs (fst row) < 2 ^ 53) rows ->
  exists p ls,
    clamp_params f sr v r = inr p /\
    seg_lens (samplerate p) rows = inr ls /\
    (total_samples ls <= 2 ^ 53 ->
     forall e, synthesize_pcm16 rows f sr v r <> inl e).
Proof.
  intros Hrows.
  destruct (synthesize_returns rows f sr v r Hrows) as (p & ls & Hp & Hls & Hret).
  exists p, ls. repeat split; try assumption.
  intros Htot e He. destruct (Hret Htot) as (ss & _ & _ & H).
  rewrite H in He. discriminate He.
Qed.

End Synthesizer.

(* ================================================================== *)
(** * The parser's only error *)

Lemma parse_lines_accepted lines : forall rows,
  parse_lines lines rows = rows ++ accepted_rows lines.
Proof.
  induction lines as [| line lines IH]; intros rows.
  - cbn [parse_lines accepted_rows flat_map]. rewrite app_nil_r. reflexivity.
  - cbn [parse_lines]. rewrite IH. unfold accepted_rows. cbn [flat_map].
    destruct (parse_line line) as [row |].
    + rewrite <- app_assoc. reflexivity.
    + reflexivity.
Qed.

Lemma accepted_rows_app l1 l2 :
  accepted_rows (l1 ++ l2) = accepted_rows l1 ++ accepted_rows l2.
Proof. unfold accepted_rows. apply flat_map_app. Qed.

Lemma parse_paris_accepted lines :
  parse_paris lines =
  match accepted_rows lines with
  | [] => raise (ValueError "No timing rows found in file.")
  | rows => ret rows
  end.
Proof. unfold parse_paris. rewrite parse_lines_accepted. reflexivity. Qed.

(** C2.  [parse_paris] raises its error exactly when the line rules accept
    no row of the file; it is the only error, it carries a message and no
    row; otherwise the accepted rows are returned, and a line the rules skip
    changes nothing wherever it stands. *)
Theorem parse_error_iff_no_rows lines :
  (parse_paris lines = inl (ValueError "No timing rows found in file.")
   <-> accepted_rows lines = []) /\
  (forall e, parse_paris lines = inl e ->
             e = ValueError "No timing rows found in file.") /\
  (forall rows, parse_paris lines = inr rows <->
                rows = accepted_rows lines /\ rows <> []) /\
  (forall before line after,
      parse_line line = None ->
      parse_paris (before ++ line :: after) = parse_paris (before ++ after)).
Proof.
  rewrite parse_paris_accepted.
  split; [| split; [| split]].
  - destruct (accepted_rows lines) as [| row rows]; split; intros H;
      try reflexivity; discriminate.
  - intros e. destruct (accepted_rows lines) as [| row rows]; intros H.
    + unfold raise in H. injection H as <-. reflexivity.
    + discriminate.
  - intros rows. destruct (accepted_rows lines) as [| row rest]; split.
    + discriminate.
    + intros [-> H]. contradiction.
    + unfold ret. intros H. injection H as <-. split; [reflexivity | discriminate].
    + intros [-> _]. reflexivity.
  - intros before line after H.
    rewrite !parse_paris_accepted, !accepted_rows_app.
    unfold accepted_rows at 2. cbn [flat_map]. rewrite H. reflexivity.
Qed.

(* ================================================================== *)
(** * The rows the parser keeps *)

Lemma parse_line_row line d v :
  parse_line line = Some (d, v) -> 0 <= d /\ (v = 0 \/ v = 1).
Proof.
  unfold parse_line.
  destruct (String.eqb (strip line) "" || startswith "#" (strip line)); [discriminate |].
  destruct (startswith "duration_ms" (lower (strip line))); [discriminate |].
  destruct (map strip (split_comma (strip line))) as [| p0 [| p1 [| p2 ps]]];
    try discriminate.
  destruct (int_of_string p0) as [d' |]; [| discriminate].
  destruct (int_of_string p1) as [v' |]; [| discriminate].
  destruct (Z.leb_spec 0 d') as [Hd | Hd]; [| discriminate].
  intros H. injection H as <- <-. split; [assumption |].
  destruct (v' =? 0); [left | right]; reflexivity.
Qed.

Lemma accepted_rows_invariant lines :
  Forall (fun row => 0 <= fst row /\ (snd row = 0 \/ snd row = 1))
         (accepted_rows lines).
Proof.
  induction lines as [| line lines IH]; [constructor |].
  unfold accepted_rows in *. cbn [flat_map].
  destruct (parse_line line) as [[d v] |] eqn:E; [| exact IH].
  cbn [app]. constructor; [| exact IH]. exact (parse_line_row _ _ _ E).
Qed.

(** X1.  Every row [parse_paris] returns has a duration that is not
    negative and a value that is 0 or 1, and there is at least one row. *)
Theorem parsed_rows_invariant lines rows :
  parse_paris lines = inr rows ->
  rows <> [] /\
  Forall (fun row => 0 <= fst row /\ (snd row = 0 \/ snd row = 1)) rows.
Proof.
  rewrite parse_paris_accepted. intros H.
  pose proof (accepted_rows_invariant lines) as Hinv.
  destruct (accepted_rows lines) as [| row rest]; [discriminate |].
  unfold ret in H. injection H as <-. split; [discriminate | exact Hinv].
Qed.

(** X2.  Parsing the lines of two files one after the other gives the rows
    of the first followed by the rows of the second; a part without rows
    adds nothing, and the whole fails only when both parts do. *)
Theorem parse_paris_app lines1 lines2 :
  (forall rows1 rows2,
      parse_paris lines1 = inr rows1 -> parse_paris lines2 = inr rows2 ->
      parse_paris (lines1 ++ lines2) = inr (rows1 ++ rows2)) /\
  (forall e, parse_paris lines1 = inl e ->
             parse_paris (lines1 ++ lines2) = parse_paris lines2) /\
  (forall e, parse_paris lines2 = inl e ->
             parse_paris (lines1 ++ lines2) = parse_paris lines1).
Proof.
  rewrite !parse_paris_accepted, accepted_rows_app.
  destruct (accepted_rows lines1) as [| r1 rest1];
    destruct (accepted_rows lines2) as [| r2 rest2]; cbn [app];
    (split; [| split]); intros; try discriminate; try reflexivity.
  - rewrite app_nil_r. reflexivity.
  - match goal with
    | H1 : ret _ = inr ?a, H2 : ret _ = inr ?b |- _ =>
        unfold ret in H1, H2; injection H1 as <-; injection H2 as <-
    end.
    reflexivity.
Qed.
(* ================================================================== *)
(** * Whitespace, commas and digits *)

Lemma rstrip_cons c s :
  is_space c = false \/ rstrip s <> EmptyString ->
  rstrip (String c s) = String c (rstrip s).
Proof.
  intros H. cbn [rstrip]. destruct (rstrip s) as [| c' r] eqn:E.
  - destruct H as [-> | H]; [reflexivity | contradiction].
  - reflexivity.
Qed.

Lemma lstrip_app_cons a c r :
  is_space c = false ->
  lstrip (a ++ String c r)%string = (lstrip a ++ String c r)%string.
Proof.
  intros Hc. induction a as [| x a IH]; cbn [append lstrip].
  - rewrite Hc. reflexivity.
  - destruct (is_space x); [exact IH | reflexivity].
Qed.

Lemma rstrip_app_cons a c r :
  is_space c = false ->
  rstrip (a ++ String c r)%string = (a ++ String c (rstrip r))%string.
Proof.
  intros Hc. induction a as [| x a IH]; cbn [append].
  - apply rstrip_cons. left. exact Hc.
  - rewrite rstrip_cons, IH; [reflexivity |].
    right. rewrite IH. destruct a; discriminate.
Qed.

Lemma lstrip_all_space w s :
  all_space w = true -> lstrip (w ++ s)%string = lstrip s.
Proof.
  unfold all_space. induction w as [| c w IH]; cbn [append]; [reflexivity |].
  cbn [list_ascii_of_string forallb]. intros H.
  apply andb_true_iff in H. destruct H as [Hc Hw].
  cbn [lstrip]. rewrite Hc. exact (IH Hw).
Qed.

Lemma rstrip_all_space w : all_space w = true -> rstrip w = EmptyString.
Proof.
  unfold all_space. induction w as [| c w IH]; [reflexivity |].
  cbn [list_ascii_of_string forallb]. intros H.
  apply andb_true_iff in H. destruct H as [Hc Hw].
  cbn [rstrip]. rewrite (IH Hw), Hc. reflexivity.
Qed.

Lemma rstrip_app_all_space s w :
  all_space w = true -> rstrip (s ++ w)%string = rstrip s.
Proof.
  intros Hw. induction s as [| c s IH]; cbn [append].
  - rewrite rstrip_all_space by assumption. reflexivity.
  - cbn [rstrip]. rewrite IH. reflexivity.
Qed.

Lemma lstrip_head s :
  lstrip s = EmptyString \/
  exists c r, lstrip s = String c r /\ is_space c = false.
Proof.
  induction s as [| c s IH]; [left; reflexivity |].
  cbn [lstrip]. destruct (is_space c) eqn:E; [exact IH |].
  right. exists c, s. split; [reflexivity | exact E].
Qed.

Lemma lstrip_idem s : lstrip (lstrip s) = lstrip s.
Proof.
  destruct (lstrip_head s) as [-> | (c & r & -> & Hc)]; [reflexivity |].
  cbn [lstrip]. rewrite Hc. reflexivity.
Qed.

Lemma rstrip_idem s : rstrip (rstrip s) = rstrip s.
Proof.
  induction s as [| c s IH]; [reflexivity |].
  cbn [rstrip]. destruct (rstrip s) as [| c' r] eqn:E.
  - destruct (is_space c) eqn:Ec; [reflexivity |].
    cbn [rstrip]. rewrite Ec. reflexivity.
  - rewrite rstrip_cons; [rewrite IH; reflexivity |].
    right. rewrite IH. discriminate.
Qed.

Lemma lstrip_rstrip s : lstrip (rstrip s) = rstrip (lstrip s).
Proof.
  induction s as [| c s IH]; [reflexivity |].
  cbn [lstrip]. destruct (is_space c) eqn:Ec.
  - rewrite <- IH. cbn [rstrip]. destruct (rstrip s) as [| c' r].
    + rewrite Ec. reflexivity.
    + cbn [lstrip]. rewrite Ec. reflexivity.
  - rewrite rstrip_cons by (left; exact Ec). cbn [lstrip]. rewrite Ec. reflexivity.
Qed.

Lemma strip_lstrip s : strip (lstrip s) = strip s.
Proof. unfold strip. rewrite lstrip_idem. reflexivity. Qed.

Lemma strip_rstrip s : strip (rstrip s) = strip s.
Proof. unfold strip. rewrite lstrip_rstrip, rstrip_idem. reflexivity. Qed.

Lemma strip_idem s : strip (strip s) = strip s.
Proof. unfold strip at 2. rewrite strip_rstrip, strip_lstrip. reflexivity. Qed.

Lemma strip_all_space w1 s w2 :
  all_space w1 = true -> all_space w2 = true ->
  strip (w1 ++ s ++ w2)%string = strip s.
Proof.
  intros H1 H2. unfold strip. rewrite lstrip_all_space by assumption.
  rewrite <- !lstrip_rstrip, rstrip_app_all_space by assumption. reflexivity.
Qed.

Lemma no_comma_app a b :
  no_comma (a ++ b)%string = no_comma a && no_comma b.
Proof.
  unfold no_comma. induction a as [| c a IH]; [reflexivity |].
  cbn [append list_ascii_of_string forallb]. rewrite IH, andb_assoc. reflexivity.
Qed.

Lemma all_space_no_comma w : all_space w = true -> no_comma w = true.
Proof.
  unfold all_space, no_comma. induction w as [| c w IH]; [reflexivity |].
  cbn [list_ascii_of_string forallb]. intros H.
  apply andb_true_iff in H. destruct H as [Hc Hw]. rewrite (IH Hw), andb_true_r.
  destruct (Ascii.eqb_spec c ",") as [-> | _]; [discriminate Hc | reflexivity].
Qed.

Lemma no_comma_lstrip s : no_comma s = true -> no_comma (lstrip s) = true.
Proof.
  unfold no_comma. induction s as [| c s IH]; [reflexivity |].
  cbn [lstrip]. destruct (is_space c); [| trivial].
  cbn [list_ascii_of_string forallb]. intros H.
  apply andb_true_iff in H. exact (IH (proj2 H)).
Qed.

Lemma no_comma_rstrip s : no_comma s = true -> no_comma (rstrip s) = true.
Proof.
  unfold no_comma. induction s as [| c s IH]; [reflexivity |].
  cbn [list_ascii_of_string forallb]. intros H.
  apply andb_true_iff in H. destruct H as [Hc Hs]. specialize (IH Hs).
  cbn [rstrip]. destruct (rstrip s) as [| c' r].
  - destruct (is_space c); [reflexivity |].
    cbn [list_ascii_of_string forallb]. rewrite Hc. reflexivity.
  - cbn [list_ascii_of_string forallb] in *. rewrite Hc. exact IH.
Qed.

Lemma split_comma_no_comma s : no_comma s = true -> split_comma s = [s].
Proof.
  unfold no_comma. induction s as [| c s IH]; [reflexivity |].
  cbn [list_ascii_of_string forallb]. intros H.
  apply andb_true_iff in H. destruct H as [Hc Hs].
  cbn [split_comma]. apply negb_true_iff in Hc. rewrite Hc, (IH Hs). reflexivity.
Qed.

Lemma split_comma_app a b :
  no_comma a = true ->
  split_comma (a ++ String "," b)%string = a :: split_comma b.
Proof.
  unfold no_comma. induction a as [| c a IH]; [reflexivity |].
  cbn [list_ascii_of_string forallb]. intros H.
  apply andb_true_iff in H. destruct H as [Hc Ha].
  cbn [append split_comma]. apply negb_true_iff in Hc. rewrite Hc, (IH Ha).
  reflexivity.
Qed.

(** The stripped fields of a line with one comma. *)
Lemma fields_of_two a b :
  no_comma a = true -> no_comma b = true ->
  map strip (split_comma (strip (a ++ String "," b)%string)) = [strip a; strip b].
Proof.
  intros Ha Hb. unfold strip at 2.
  rewrite lstrip_app_cons by reflexivity.
  rewrite rstrip_app_cons by reflexivity.
  rewrite split_comma_app by (apply no_comma_lstrip; exact Ha).
  rewrite split_comma_no_comma by (apply no_comma_rstrip; exact Hb).
  cbn [map]. rewrite strip_lstrip, strip_rstrip. reflexivity.
Qed.

(** ** Lines the three tests skip have no integer first field *)

Lemma lower_char_d c : lower_char c = "d"%char -> c = "d"%char \/ c = "D"%char.
Proof.
  destruct c as [b0 b1 b2 b3 b4 b5 b6 b7].
  destruct b0, b1, b2, b3, b4, b5, b6, b7; vm_compute; intros H;
    first [discriminate H | left; reflexivity | right; reflexivity].
Qed.

Lemma split_comma_head c s :
  Ascii.eqb c "," = false ->
  exists field fields, split_comma (String c s) = String c field :: fields.
Proof.
  intros Hc. cbn [split_comma]. rewrite Hc.
  destruct (split_comma s) as [| field fields]; eauto.
Qed.

Lemma strip_head c s :
  is_space c = false -> exists r, strip (String c s) = String c r.
Proof.
  intros Hc. unfold strip. cbn [lstrip]. rewrite Hc.
  rewrite rstrip_cons by (left; exact Hc). eauto.
Qed.

Lemma no_row_from_head c s :
  c = "#"%char \/ c = "d"%char \/ c = "D"%char ->
  row_of_fields (map strip (split_comma (String c s))) = None.
Proof.
  intros Hc.
  assert (Hcomma : Ascii.eqb c "," = false) by (destruct Hc as [-> | [-> | ->]]; reflexivity).
  assert (Hsp : is_space c = false) by (destruct Hc as [-> | [-> | ->]]; reflexivity).
  destruct (split_comma_head c s Hcomma) as (field & fields & ->).
  cbn [map]. destruct (strip_head c field Hsp) as (r & ->).
  unfold row_of_fields.
  destruct (map strip fields) as [| p1 [| p2 ps]]; try reflexivity.
  assert (Hint : int_of_string (String c r) = None).
  { unfold int_of_string.
    destruct (int_max_str_digits <? count_digits (String c r)); [reflexivity |].
    destruct Hc as [-> | [-> | ->]]; reflexivity. }
  rewrite Hint. reflexivity.
Qed.

Lemma prefix_head a p s :
  String.prefix (String a p) s = true -> exists r, s = String a r.
Proof.
  destruct s as [| b r]; cbn [String.prefix]; [discriminate |].
  destruct (ascii_dec a b) as [-> | _]; [eauto | discriminate].
Qed.

Lemma parse_line_fields line :
  parse_line line = row_of_fields (map strip (split_comma (strip line))).
Proof.
  unfold parse_line.
  destruct (String.eqb_spec (strip line) "") as [-> | _].
  { reflexivity. }
  cbn [orb].
  destruct (startswith "#" (strip line)) eqn:Hhash.
  { apply prefix_head in Hhash. destruct Hhash as (r & ->).
    symmetry. apply no_row_from_head. left. reflexivity. }
  destruct (startswith "duration_ms" (lower (strip line))) eqn:Hhead.
  { apply prefix_head in Hhead. destruct Hhead as (r & Hr).
    destruct (strip line) as [| c s]; [discriminate Hr |].
    cbn [lower] in Hr. injection Hr as Hc _.
    symmetry. apply no_row_from_head. right. apply lower_char_d. exact Hc. }
  reflexivity.
Qed.

(** X3.  The tests for a blank line, a comment and a header never decide
    alone: a line they skip has no integer first field.  So a line gives a
    row exactly when its stripped text has two comma-separated fields that
    [int] reads, the first one not negative. *)
Theorem skip_tests_redundant line :
  parse_line line = row_of_fields (map strip (split_comma (strip line))) /\
  (String.eqb (strip line) "" = true \/
   startswith "#" (strip line) = true \/
   startswith "duration_ms" (lower (strip line)) = true ->
   row_of_fields (map strip (split_comma (strip line))) = None).
Proof.
  split; [apply parse_line_fields |].
  intros H. rewrite <- parse_line_fields. unfold parse_line.
  destruct H as [-> | [-> | ->]]; [reflexivity | |].
  - rewrite orb_true_r. reflexivity.
  - destruct (_ || _); reflexivity.
Qed.

(** X4.  Whitespace around a line and around its two fields is ignored. *)
Theorem whitespace_ignored w1 a w2 w3 b w4 :
  all_space w1 = true -> all_space w2 = true ->
  all_space w3 = true -> all_space w4 = true ->
  no_comma a = true -> no_comma b = true ->
  parse_line ((w1 ++ a ++ w2) ++ String "," (w3 ++ b ++ w4))%string
  = parse_line (a ++ String "," b)%string.
Proof.
  intros H1 H2 H3 H4 Ha Hb.
  rewrite !parse_line_fields.
  rewrite !fields_of_two; try assumption.
  - rewrite !strip_all_space by assumption. reflexivity.
  - rewrite !no_comma_app, Ha, !all_space_no_comma by assumption. reflexivity.
  - rewrite !no_comma_app, Hb, !all_space_no_comma by assumption. reflexivity.
Qed.
(* ================================================================== *)
(** * Reading back what [str] writes *)

Lemma int_digits_acc d : forall acc,
  int_digits (DecimalString.NilEmpty.string_of_uint d) (Zpos acc) true
  = Some (Zpos (Pos.of_uint_acc d acc)).
Proof.
  induction d as [| d IH | d IH | d IH | d IH | d IH | d IH | d IH | d IH | d IH | d IH];
    intros acc; [reflexivity | ..];
    cbn [DecimalString.NilEmpty.string_of_uint int_digits Pos.of_uint_acc];
    match goal with
    | |- context [digit_of ?c] =>
        let r := eval vm_compute in (digit_of c) in
        change (digit_of c) with r
    end;
    cbv iota; rewrite <- IH; f_equal; lia.
Qed.

Lemma int_digits_uint d : forall b,
  d <> Decimal.Nil \/ b = true ->
  int_digits (DecimalString.NilEmpty.string_of_uint d) 0 b
  = Some (Z.of_N (Pos.of_uint d)).
Proof.
  induction d as [| d IH | d IH | d IH | d IH | d IH | d IH | d IH | d IH | d IH | d IH];
    intros b Hb.
  - destruct Hb as [Hb | ->]; [contradiction | reflexivity].
  - cbn [DecimalString.NilEmpty.string_of_uint int_digits Pos.of_uint].
    change (digit_of "0") with (Some 0). cbv iota.
    apply IH. right. reflexivity.
  - exact (int_digits_acc d 1).
  - exact (int_digits_acc d 2).
  - exact (int_digits_acc d 3).
  - exact (int_digits_acc d 4).
  - exact (int_digits_acc d 5).
  - exact (int_digits_acc d 6).
  - exact (int_digits_acc d 7).
  - exact (int_digits_acc d 8).
  - exact (int_digits_acc d 9).
Qed.

Lemma string_of_uint_pos p :
  DecimalString.NilZero.string_of_uint (Pos.to_uint p)
  = DecimalString.NilEmpty.string_of_uint (Pos.to_uint p).
Proof.
  pose proof (DecimalPos.Unsigned.to_uint_nonnil p) as H.
  destruct (Pos.to_uint p); [contradiction | ..]; reflexivity.
Qed.

Lemma count_digits_uint d :
  count_digits (DecimalString.NilEmpty.string_of_uint d)
  = Z.of_N (DecimalPos.Unsigned.usize d).
Proof.
  induction d as [| d IH | d IH | d IH | d IH | d IH | d IH | d IH | d IH | d IH | d IH];
    [reflexivity | ..];
    cbn [DecimalString.NilEmpty.string_of_uint count_digits DecimalPos.Unsigned.usize];
    match goal with
    | |- context [digit_of ?c] =>
        let r := eval vm_compute in (digit_of c) in
        change (digit_of c) with r
    end;
    cbv iota; rewrite IH, N2Z.inj_succ; lia.
Qed.

(** The first digit [str] writes for a positive number is not 0. *)
Lemma to_uint_head p l : Pos.to_uint p <> Decimal.D0 l.
Proof.
  intros H.
  pose proof (DecimalPos.Unsigned.to_of (Pos.to_uint p)) as Hn.
  rewrite DecimalPos.Unsigned.of_to in Hn. cbn [N.to_uint] in Hn.
  rewrite H in Hn. unfold Decimal.unorm in Hn. cbn [Decimal.nzhead] in Hn.
  pose proof (DecimalFacts.nb_digits_nzhead l) as Hle.
  destruct (Decimal.nzhead l) eqn:E;
    [injection Hn as ->; apply (DecimalPos.Unsigned.to_uint_nonzero p); exact H
    | ..];
    rewrite <- Hn in Hle; cbn [Decimal.nb_digits] in Hle; lia.
Qed.

Lemma usize_bound p n :
  0 <= n -> Zpos p < 10 ^ n ->
  Z.of_N (DecimalPos.Unsigned.usize (Pos.to_uint p)) <= n.
Proof.
  intros Hn Hp.
  pose proof (DecimalPos.Unsigned.of_to p) as Hof.
  assert (Hlow : forall l acc, Pos.of_uint (Pos.to_uint p) = N.pos (Pos.of_uint_acc l acc) ->
                   Z.of_N (DecimalPos.Unsigned.usize l) < n).
  { intros l acc E. rewrite Hof in E.
    pose proof (DecimalPos.Unsigned.of_uint_acc_rev l acc) as Hrev.
    rewrite <- E in Hrev.
    assert (H10 : (10 ^ DecimalPos.Unsigned.usize l <= N.pos p)%N).
    { rewrite Hrev.
      assert (1 <= N.pos acc)%N by lia.
      assert (0 < 10 ^ DecimalPos.Unsigned.usize l)%N
        by (apply N.neq_0_lt_0, N.pow_nonzero; discriminate).
      nia. }
    apply N2Z.inj_le in H10. rewrite N2Z.inj_pow in H10. cbn [Z.of_N] in H10.
    apply (Z.pow_lt_mono_r_iff 10); try lia. }
  destruct (Pos.to_uint p) as [| l | l | l | l | l | l | l | l | l | l] eqn:E;
    cbn [DecimalPos.Unsigned.usize]; rewrite ?N2Z.inj_succ;
    [lia | exfalso; exact (to_uint_head p l E) | ..];
    cbn [Pos.of_uint] in Hlow; specialize (Hlow l _ eq_refl); lia.
Qed.

Lemma count_digits_str_int z :
  Z.abs z < 10 ^ int_max_str_digits ->
  (int_max_str_digits <? count_digits (str_int z)) = false.
Proof.
  intros Hz. apply Z.ltb_ge. unfold str_int.
  destruct z as [| p | p]; [discriminate | |];
    cbn [Z.to_int DecimalString.NilZero.string_of_int];
    rewrite string_of_uint_pos.
  - rewrite count_digits_uint. apply usize_bound; [discriminate | exact Hz].
  - cbn [count_digits]. change (digit_of "-") with (@None Z). cbv iota.
    rewrite count_digits_uint. apply usize_bound; [discriminate | exact Hz].
Qed.

Lemma int_of_string_str_int z :
  Z.abs z < 10 ^ int_max_str_digits -> int_of_string (str_int z) = Some z.
Proof.
  intros Hz. unfold int_of_string. rewrite (count_digits_str_int z Hz).
  unfold str_int. destruct z as [| p | p]; [reflexivity | |];
    cbn [Z.to_int DecimalString.NilZero.string_of_int];
    rewrite string_of_uint_pos.
  - pose proof (int_digits_uint (Pos.to_uint p) false
                  (or_introl (DecimalPos.Unsigned.to_uint_nonnil p))) as Hd.
    rewrite DecimalPos.Unsigned.of_to in Hd. cbn [Z.of_N] in Hd.
    pose proof (DecimalPos.Unsigned.to_uint_nonnil p) as Hnil.
    revert Hd Hnil.
    destruct (Pos.to_uint p); intros Hd Hnil; [contradiction | ..]; exact Hd.
  - rewrite int_digits_uint by (left; apply DecimalPos.Unsigned.to_uint_nonnil).
    rewrite DecimalPos.Unsigned.of_to. reflexivity.
Qed.

(** The characters of [str(z)] are digits and [-]: no whitespace, no
    comma. *)
Lemma strip_no_space s :
  forallb (fun c => negb (is_space c)) (list_ascii_of_string s) = true ->
  strip s = s.
Proof.
  intros H. unfold strip.
  assert (Hl : lstrip s = s).
  { destruct s as [| c s]; [reflexivity |].
    cbn [list_ascii_of_string forallb] in H. apply andb_true_iff in H.
    destruct H as [Hc _]. apply negb_true_iff in Hc.
    cbn [lstrip]. rewrite Hc. reflexivity. }
  rewrite Hl. clear Hl.
  induction s as [| c s IH]; [reflexivity |].
  cbn [list_ascii_of_string forallb] in H. apply andb_true_iff in H.
  destruct H as [Hc Hs]. apply negb_true_iff in Hc.
  rewrite rstrip_cons by (left; exact Hc). rewrite (IH Hs). reflexivity.
Qed.

Lemma plain_uint d :
  no_comma (DecimalString.NilEmpty.string_of_uint d) = true /\
  forallb (fun c => negb (is_space c))
    (list_ascii_of_string (DecimalString.NilEmpty.string_of_uint d)) = true.
Proof.
  unfold no_comma.
  induction d as [| d IH | d IH | d IH | d IH | d IH | d IH | d IH | d IH | d IH | d IH];
    [split; reflexivity | ..];
    cbn [DecimalString.NilEmpty.string_of_uint list_ascii_of_string forallb];
    exact IH.
Qed.

Lemma plain_str_int z :
  no_comma (str_int z) = true /\ strip (str_int z) = str_int z.
Proof.
  unfold str_int. destruct z as [| p | p]; [split; reflexivity | |];
    cbn [Z.to_int DecimalString.NilZero.string_of_int];
    rewrite string_of_uint_pos;
    destruct (plain_uint (Pos.to_uint p)) as [Hc Hs].
  - split; [exact Hc | apply strip_no_space; exact Hs].
  - split.
    + unfold no_comma in *. cbn [list_ascii_of_string forallb]. exact Hc.
    + apply strip_no_space. cbn [list_ascii_of_string forallb]. exact Hs.
Qed.

Lemma parse_row_line row :
  Z.abs (fst row) < 10 ^ int_max_str_digits ->
  Z.abs (snd row) < 10 ^ int_max_str_digits ->
  parse_line (row_line row)
  = if 0 <=? fst row then Some (normalized row) else None.
Proof.
  destruct row as [d v]. unfold row_line, normalized. cbn [fst snd].
  intros Hbd Hbv.
  destruct (plain_str_int d) as [Hd Hsd]. destruct (plain_str_int v) as [Hv Hsv].
  change (str_int d ++ "," ++ str_int v ++ newline)%string
    with (str_int d ++ String "," (str_int v ++ newline))%string.
  rewrite parse_line_fields, fields_of_two; try assumption.
  - replace (strip (str_int v ++ newline)%string) with (str_int v).
    + unfold row_of_fields. rewrite Hsd, !int_of_string_str_int by assumption.
      reflexivity.
    + rewrite <- Hsv at 1. symmetry.
      apply (strip_all_space EmptyString (str_int v) newline); reflexivity.
  - rewrite no_comma_app, Hv. reflexivity.
Qed.

(** X5.  A schedule written one row per line as [duration_ms,value], in
    decimal, is read back row for row, each value other than 0 read as 1:
    for durations that are not negative, and numbers below [10^4300], which
    [int] reads and [str] writes. *)
Theorem parse_written_rows rows :
  rows <> [] ->
  Forall (fun row => 0 <= fst row < 10 ^ int_max_str_digits /\
                     Z.abs (snd row) < 10 ^ int_max_str_digits) rows ->
  parse_paris (map row_line rows) = inr (map normalized rows).
Proof.
  intros Hne Hrows. rewrite parse_paris_accepted.
  assert (H : accepted_rows (map row_line rows) = map normalized rows).
  { clear Hne. induction Hrows as [| row rows Hrow _ IH]; [reflexivity |].
    unfold accepted_rows in *. cbn [map flat_map].
    rewrite IH, parse_row_line by lia.
    destruct (Z.leb_spec 0 (fst row)); [reflexivity | lia]. }
  rewrite H. destruct rows as [| row rows]; [contradiction | reflexivity].
Qed.

(* ================================================================== *)
(** * The sample count, the buffer and the parsed schedule *)

Section Outcomes.

Variables math_sin math_cos : float -> result float.

(** C1 (as amended).  Whatever the input, a run of [synthesize_pcm16] that
    returns has counted the sum of the segment lengths the code computes,
    [seg_len = int(round(samplerate * (dur_ms / 1000.0)))] in binary64 at
    the clamped sample rate: a length that is not positive counts for
    nothing and leaves the running index where it was, a positive one
    advances it by that length, for tone and silence alike.  With durations
    below [2^53] ms and at most [2^53] samples in all, a run raises none of
    the errors of the model, given that [math.sin] and [math.cos] return on
    finite arguments. *)
Theorem synthesize_total_samples rows f sr v r :
  exists p,
    clamp_params f sr v r = inr p /\
    (forall frames t,
       synthesize_pcm16 math_sin math_cos rows f sr v r = inr (frames, t) ->
       exists ls, seg_lens (samplerate p) rows = inr ls /\ t = total_samples ls) /\
    (forall dur_ms val st sl,
       seg_len (samplerate p) dur_ms = inr sl -> sl <= 0 ->
       segment math_sin math_cos p (dur_ms, val) st = inr st) /\
    (forall dur_ms val frames t sl frames' t',
       seg_len (samplerate p) dur_ms = inr sl -> 0 < sl ->
       segment math_sin math_cos p (dur_ms, val) (frames, t) = inr (frames', t') ->
       t' = t + sl) /\
    (returns_on_finite math_sin -> returns_on_finite math_cos ->
     Forall (fun row => Z.abs (fst row) < 2 ^ 53) rows ->
     exists ls,
       seg_lens (samplerate p) rows = inr ls /\
       (total_samples ls <= 2 ^ 53 ->
        forall e, synthesize_pcm16 math_sin math_cos rows f sr v r <> inl e)).
Proof.
  destruct (clamp_params_spec f sr v r) as (p & Hp & _).
  exists p. split; [exact Hp |]. split; [| split; [| split]].
  - intros frames t H.
    destruct (synthesize_count _ _ _ _ _ _ _ _ _ H) as (p' & ls & Hp' & Hls & Ht & _).
    rewrite Hp in Hp'. injection Hp' as <-. eauto.
  - intros d val st sl Hsl Hle. unfold segment. rewrite Hsl. cbn [bind].
    destruct (Z.leb_spec sl 0); [reflexivity | lia].
  - intros d val frames t sl frames' t' Hsl Hpos H.
    exact (proj1 (segment_advances _ _ _ _ _ _ _ _ _ _ Hsl Hpos H)).
  - intros Hsin Hcos Hrows.
    destruct (synthesize_raises_nothing math_sin math_cos Hsin Hcos rows f sr v r Hrows)
      as (p' & ls & Hp' & Hls & Hno).
    rewrite Hp in Hp'. injection Hp' as <-. eauto.
Qed.

(** C10 (as amended).  Whatever the input, a run of [synthesize_pcm16] that
    returns gives a buffer of exactly two bytes per counted sample.  With
    durations below [2^53] ms and at most [2^53] samples in all, a run
    raises none of the errors of the model, given that [math.sin] and
    [math.cos] return on finite arguments. *)
Theorem frames_length_twice_total rows f sr v r :
  (forall frames t,
      synthesize_pcm16 math_sin math_cos rows f sr v r = inr (frames, t) ->
      Z.of_nat (List.length frames) = 2 * t /\
      Z.of_nat (List.length (samples_of frames)) = t) /\
  (returns_on_finite math_sin -> returns_on_finite math_cos ->
   Forall (fun row => Z.abs (fst row) < 2 ^ 53) rows ->
   exists p ls,
     clamp_params f sr v r = inr p /\
     seg_lens (samplerate p) rows = inr ls /\
     (total_samples ls <= 2 ^ 53 ->
      forall e, synthesize_pcm16 math_sin math_cos rows f sr v r <> inl e)).
Proof.
  split.
  - intros frames t H.
    destruct (synthesize_count _ _ _ _ _ _ _ _ _ H) as (p & ls & _ & _ & _ & H1 & H2).
    auto.
  - intros Hsin Hcos Hrows.
    exact (synthesize_raises_nothing math_sin math_cos Hsin Hcos rows f sr v r Hrows).
Qed.

(** X12.  The rows of a parsed file, durations below [2^53] ms, never have
    a negative length: a run of [synthesize_pcm16] on them that returns has
    counted the plain sum of the rounded lengths and holds twice as many
    bytes; while that sum is at most [2^53], it raises none of the errors
    of the model, given that [math.sin] and [math.cos] return on finite
    arguments. *)
Theorem parsed_schedule_synthesizes lines rows f sr v r :
  parse_paris lines = inr rows ->
  Forall (fun row => fst row < 2 ^ 53) rows ->
  exists p ls,
    clamp_params f sr v r = inr p /\
    seg_lens (samplerate p) rows = inr ls /\
    Forall (fun sl => 0 <= sl) ls /\
    (forall frames t,
       synthesize_pcm16 math_sin math_cos rows f sr v r = inr (frames, t) ->
       t = fold_right Z.add 0 ls /\
       Z.of_nat (List.length frames) = 2 * fold_right Z.add 0 ls) /\
    (returns_on_finite math_sin -> returns_on_finite math_cos ->
     fold_right Z.add 0 ls <= 2 ^ 53 ->
     forall e, synthesize_pcm16 math_sin math_cos rows f sr v r <> inl e).
Proof.
  intros Hparse Hsmall.
  rewrite parse_paris_accepted in Hparse.
  pose proof (accepted_rows_invariant lines) as Hinv.
  assert (Hrows : rows = accepted_rows lines).
  { destruct (accepted_rows lines); [discriminate |].
    unfold ret in Hparse. injection Hparse as <-. reflexivity. }
  rewrite <- Hrows in Hinv. clear Hparse Hrows.
  assert (Hd : Forall (fun row => 0 <= fst row < 2 ^ 53) rows).
  { rewrite Forall_forall in *. intros row Hin.
    specialize (Hinv row Hin). specialize (Hsmall row Hin).
    cbn beta in *. lia. }
  assert (Habs : Forall (fun row => Z.abs (fst row) < 2 ^ 53) rows).
  { eapply Forall_impl; [| exact Hd]. intros row H. cbn beta in *. lia. }
  destruct (clamp_params_spec f sr v r) as (p & Hp & (Hsr & _) & _).
  destruct (seg_lens_nonneg _ _ Hsr Hd) as (ls & Hls & Hnn).
  exists p, ls. repeat split; try assumption.
  - destruct (synthesize_count _ _ _ _ _ _ _ _ _ H) as (p' & ls' & Hp' & Hls' & Ht & _).
    rewrite Hp in Hp'. injection Hp' as <-.
    rewrite Hls in Hls'. injection Hls' as <-.
    rewrite Ht. apply total_samples_sum. exact Hnn.
  - destruct (synthesize_count _ _ _ _ _ _ _ _ _ H) as (p' & ls' & Hp' & Hls' & Ht & Hl & _).
    rewrite Hp in Hp'. injection Hp' as <-.
    rewrite Hls in Hls'. injection Hls' as <-.
    rewrite Hl, Ht, (total_samples_sum ls Hnn). reflexivity.
  - intros Hsin Hcos Htot.
    destruct (synthesize_raises_nothing math_sin math_cos Hsin Hcos rows f sr v r Habs)
      as (p' & ls' & Hp' & Hls' & Hno).
    rewrite Hp in Hp'. injection Hp' as <-.
    rewrite Hls in Hls'. injection Hls' as <-.
    apply Hno. rewrite (total_samples_sum ls Hnn). exact Htot.
Qed.

End Outcomes.

(* ================================================================== *)
(** * Concrete runs *)

Lemma poly_sin_finite x : is_finite x = true -> exists y, poly_sin x = inr y.
Proof. intros _. eexists. reflexivity. Qed.

Lemma poly_cos_finite x : is_finite x = true -> exists y, poly_cos x = inr y.
Proof. intros _. eexists. reflexivity. Qed.


(** C1, as stated, fails in two ways.  A duration too large for a float
    makes [dur_ms / 1000.0] raise [OverflowError], and nothing is returned.
    And the length is computed in binary64: at 44100 Hz a segment of 175 ms
    has 7717 samples, where [round(44100 * 175 / 1000)], the half going to
    the even neighbour of 7717.5, is 7718. *)
Lemma synthesize_total_samples_counterexample :
  synthesize_pcm16 poly_sin poly_cos [(10 ^ 400, 0)]
    (Py.Float 700) (Py.Int 44100) (Py.Float 0.5) (Py.Float 5)
  = inl (OverflowError "int too large to convert to float") /\
  (exists frames,
      synthesize_pcm16 poly_sin poly_cos [(175, 0)]
        (Py.Float 700) (Py.Int 44100) (Py.Float 0.5) (Py.Float 5)
      = inr (frames, 7717)) /\
  seg_len 44100 175 = inr 7717 /\
  exact_seg_len 44100 175 = 7718.
Proof.
  split; [vm_compute; reflexivity |].
  split; [eexists; vm_compute; reflexivity |].
  split; vm_compute; reflexivity.
Qed.

Lemma synthesize_total_samples_witness :
  returns_on_finite poly_sin /\ returns_on_finite poly_cos /\
  Forall (fun row => Z.abs (fst row) < 2 ^ 53) [(100, 1); (50, 0); (0, 1)] /\
  exists p,
    clamp_params (Py.Float 1000) (Py.Int 8000) (Py.Float 1) (Py.Float 0) = inr p /\
    (forall frames t,
       synthesize_pcm16 poly_sin poly_cos [(100, 1); (50, 0); (0, 1)]
         (Py.Float 1000) (Py.Int 8000) (Py.Float 1) (Py.Float 0)
       = inr (frames, t) ->
       exists ls,
         seg_lens (samplerate p) [(100, 1); (50, 0); (0, 1)] = inr ls /\
         t = total_samples ls) /\
    exists ls,
      seg_lens (samplerate p) [(100, 1); (50, 0); (0, 1)] = inr ls /\
      (total_samples ls <= 2 ^ 53 ->
       forall e,
         synthesize_pcm16 poly_sin poly_cos [(100, 1); (50, 0); (0, 1)]
           (Py.Float 1000) (Py.Int 8000) (Py.Float 1) (Py.Float 0) <> inl e).
Proof.
  assert (Hrows : Forall (fun row : Z * Z => Z.abs (fst row) < 2 ^ 53)
                    [(100, 1); (50, 0); (0, 1)]) by (repeat constructor).
  split; [exact poly_sin_finite |]. split; [exact poly_cos_finite |].
  split; [exact Hrows |].
  destruct (synthesize_total_samples poly_sin poly_cos [(100, 1); (50, 0); (0, 1)]
              (Py.Float 1000) (Py.Int 8000) (Py.Float 1) (Py.Float 0))
    as (p & Hp & Hcount & _ & _ & Hno).
  exists p. split; [exact Hp |]. split; [exact Hcount |].
  exact (Hno poly_sin_finite poly_cos_finite Hrows).
Defined.

(** The values the specification names: a frequency of -10 is used as 50.0
    and a volume of 5.0 as 1.0. *)
Lemma clamp_params_example :
  clamp_params (Py.Float (-10)) (Py.Int 44100) (Py.Float 5) (Py.Float 5)
  = inr {| samplerate := 44100; volume := 1; freq_hz := 50; ramp_ms := 5;
           ramp_samples := 220 |}.
Proof. vm_compute. reflexivity. Qed.

(** C10, as stated, fails on a segment whose length overflows: at 192000 Hz
    a tone of [10^306] ms has an infinite product, [round] raises
    [OverflowError] and no buffer is returned. *)
Lemma frames_length_twice_total_counterexample :
  synthesize_pcm16 poly_sin poly_cos [(100, 0); (10 ^ 306, 1)]
    (Py.Float 700) (Py.Int 192000) (Py.Float 0.5) (Py.Float 5)
  = inl (OverflowError "cannot convert float infinity to integer").
Proof. vm_compute. reflexivity. Qed.

Lemma frames_length_twice_total_witness :
  returns_on_finite poly_sin /\ returns_on_finite poly_cos /\
  Forall (fun row => Z.abs (fst row) < 2 ^ 53) [(2, 1); (3, 0)] /\
  (forall frames t,
      synthesize_pcm16 poly_sin poly_cos [(2, 1); (3, 0)]
        (Py.Float 440) (Py.Int 8000) (Py.Float 0.5) (Py.Float 1)
      = inr (frames, t) ->
      Z.of_nat (List.length frames) = 2 * t /\
      Z.of_nat (List.length (samples_of frames)) = t) /\
  exists p ls,
    clamp_params (Py.Float 440) (Py.Int 8000) (Py.Float 0.5) (Py.Float 1) = inr p /\
    seg_lens (samplerate p) [(2, 1); (3, 0)] = inr ls /\
    (total_samples ls <= 2 ^ 53 ->
     forall e,
       synthesize_pcm16 poly_sin poly_cos [(2, 1); (3, 0)]
         (Py.Float 440) (Py.Int 8000) (Py.Float 0.5) (Py.Float 1) <> inl e).
Proof.
  assert (Hrows : Forall (fun row : Z * Z => Z.abs (fst row) < 2 ^ 53)
                    [(2, 1); (3, 0)]) by (repeat constructor).
  split; [exact poly_sin_finite |]. split; [exact poly_cos_finite |].
  split; [exact Hrows |].
  destruct (frames_length_twice_total poly_sin poly_cos [(2, 1); (3, 0)]
              (Py.Float 440) (Py.Int 8000) (Py.Float 0.5) (Py.Float 1))
    as [Hlen Hno].
  split; [exact Hlen |].
  exact (Hno poly_sin_finite poly_cos_finite Hrows).
Defined.

Lemma envelope_branches_witness :
  0 < 40 < 2 ^ 53 /\ 0 <= 5 < 60 /\
  (60 < 2 * 40 -> 5 < 40 ->
   forall c, poly_cos (math_pi * Py.Z2F 5 / Py.Z2F 40)%float = inr c ->
   envelope poly_cos 40 60 5 = inr (0.5 * (1 - c))%float).
Proof.
  assert (H1 : 0 < 40 < 2 ^ 53) by (split; reflexivity).
  assert (H2 : 0 <= 5 < 60) by lia.
  split; [exact H1 |]. split; [exact H2 |].
  exact (proj2 (proj2 (proj2 (envelope_branches poly_cos 40 60 5 H1 H2)))).
Defined.

Lemma no_ramp_no_taper_witness :
  exists p,
    clamp_params (Py.Float 700) (Py.Int 44100) (Py.Float 0.5) (Py.Float 0) = inr p /\
    ramp_samples p = 0 /\
    (forall sl n, envelope poly_cos (ramp_samples p) sl n = inr 1%float) /\
    (forall sl n t,
        tone_sample poly_sin poly_cos p sl n t =
        (ph <- phase (freq_hz p) (samplerate p) t ;;
         sn <- poly_sin ph ;;
         Py.int_of_float (unit_clamp (volume p * sn) * 32767)%float)).
Proof.
  exact (no_ramp_no_taper poly_sin poly_cos (Py.Float 700) (Py.Int 44100)
           (Py.Float 0.5) (Py.Float 0) (or_introl eq_refl)).
Defined.


Lemma running_index_is_absolute_witness :
  exists frames t,
    synthesize_pcm16 poly_sin poly_cos ([(1, 1); (1, 0)] ++ (1, 1) :: [])
      (Py.Float 1000) (Py.Int 8000) (Py.Float 1) (Py.Float 0) = inr (frames, t) /\
    exists p frames1 t1 sl,
      clamp_params (Py.Float 1000) (Py.Int 8000) (Py.Float 1) (Py.Float 0) = inr p /\
      segments poly_sin poly_cos p [(1, 1); (1, 0)] ([], 0) = inr (frames1, t1) /\
      t1 = Z.of_nat (List.length (samples_of frames1)) /\
      seg_len (samplerate p) 1 = inr sl /\
      (1 = 1 -> forall n, 0 <= n < sl ->
       exists env q sn s,
         envelope poly_cos (ramp_samples p) sl n = inr env /\
         Py.int_truediv (t1 + n) (samplerate p) = inr q /\
         poly_sin (two_pi * freq_hz p * q)%float = inr sn /\
         quantize (volume p * env * sn)%float = inr s /\
         nth_error (samples_of frames) (Z.to_nat (t1 + n)) = Some s) /\
      (forall val' frames' t',
         synthesize_pcm16 poly_sin poly_cos ([(1, 1); (1, 0)] ++ (1, val') :: [])
           (Py.Float 1000) (Py.Int 8000) (Py.Float 1) (Py.Float 0)
         = inr (frames', t') ->
         t' = t /\
         forall i : nat,
           Z.of_nat i < t1 \/ t1 + contribution sl <= Z.of_nat i ->
           nth_error (samples_of frames') i = nth_error (samples_of frames) i).
Proof.
  eexists. eexists.
  assert (H : synthesize_pcm16 poly_sin poly_cos ([(1, 1); (1, 0)] ++ (1, 1) :: [])
                (Py.Float 1000) (Py.Int 8000) (Py.Float 1) (Py.Float 0)
              = inr (?[frames], ?[t])) by (vm_compute; reflexivity).
  split; [exact H |].
  exact (running_index_is_absolute poly_sin poly_cos _ _ _ _ _ _ _ _ _ _ H).
Defined.


Lemma parsed_rows_invariant_witness :
  parse_paris ["# tone, then silence"; " 10 , 5 "; "duration_ms,value"; "3,0"; "-4,1"]%string
  = inr [(10, 1); (3, 0)] /\
  [(10, 1); (3, 0)] <> [] /\
  Forall (fun row => 0 <= fst row /\ (snd row = 0 \/ snd row = 1)) [(10, 1); (3, 0)].
Proof.
  assert (H : parse_paris
                ["# tone, then silence"; " 10 , 5 "; "duration_ms,value"; "3,0"; "-4,1"]%string
              = inr [(10, 1); (3, 0)]) by (vm_compute; reflexivity).
  split; [exact H | exact (parsed_rows_invariant _ _ H)].
Defined.

Lemma whitespace_ignored_witness :
  parse_line ((" " ++ "10" ++ "  ") ++ String "," (" " ++ "1" ++ newline))%string
  = parse_line ("10" ++ String "," "1")%string.
Proof.
  exact (whitespace_ignored " " "10" "  " " " "1" newline
           eq_refl eq_refl eq_refl eq_refl eq_refl eq_refl).
Defined.

(** [int] does not read a number of 4301 digits: the row is skipped, and
    a file of that row alone has no rows. *)
Lemma parse_written_rows_limit :
  parse_paris [row_line (10 ^ 4300, 1)]
  = inl (ValueError "No timing rows found in file.").
Proof. vm_compute. reflexivity. Qed.

Lemma parse_written_rows_witness :
  parse_paris (map row_line [(100, 1); (50, 0); (7, 5)])
  = inr (map normalized [(100, 1); (50, 0); (7, 5)]).
Proof.
  apply parse_written_rows.
  - discriminate.
  - repeat constructor; vm_compute; reflexivity || discriminate.
Defined.

Lemma nonpositive_durations_empty_witness :
  synthesize_pcm16 poly_sin poly_cos [(0, 1); (-5, 1); (0, 0)]
    (Py.Float 700) (Py.Int 44100) (Py.Float 0.5) (Py.Float 5)
  = inr ([], 0).
Proof.
  apply nonpositive_durations_empty.
  repeat constructor; cbn [fst]; lia.
Defined.

Lemma synthesize_prefix_witness :
  exists frames t,
    synthesize_pcm16 poly_sin poly_cos ([(1, 1)] ++ [(2, 0); (1, 1)])
      (Py.Float 700) (Py.Int 8000) (Py.Float 0.5) (Py.Float 5) = inr (frames, t) /\
    exists frames1 t1 more,
      synthesize_pcm16 poly_sin poly_cos [(1, 1)]
        (Py.Float 700) (Py.Int 8000) (Py.Float 0.5) (Py.Float 5) = inr (frames1, t1) /\
      frames = frames1 ++ more /\
      t1 <= t /\
      Z.of_nat (List.length more) = 2 * (t - t1).
Proof.
  eexists. eexists.
  assert (H : synthesize_pcm16 poly_sin poly_cos ([(1, 1)] ++ [(2, 0); (1, 1)])
                (Py.Float 700) (Py.Int 8000) (Py.Float 0.5) (Py.Float 5)
              = inr (?[frames], ?[t])) by (vm_compute; reflexivity).
  split; [exact H |].
  exact (synthesize_prefix poly_sin poly_cos _ _ _ _ _ _ _ _ H).
Defined.


Lemma synthesize_to_wav_rates_witness :
  let a := {| paris_path := Some "rows.paris"%string;
              var_freq := "700"; var_sr := "4000"; var_vol := "0.5"; var_ramp := "5";
              txt_log := []; dialogs := [] |} in
  exists a',
    synthesize_to_wav poly_sin poly_cos stub_float stub_lines stub_wave stub_2f
      "out.wav" a = (true, a') /\
    exists path freq sr vol ramp lines rows p pcm nsamples,
      paris_path a = Some path /\
      try_read_params stub_float a = inr (freq, sr, vol, ramp) /\
      stub_lines path = inr lines /\
      parse_paris lines = inr rows /\
      clamp_params (Py.Float freq) (Py.Int sr) (Py.Float vol) (Py.Float ramp) = inr p /\
      samplerate p = Z.max 8000 (Z.min 192000 sr) /\
      segments poly_sin poly_cos p rows ([], 0) = inr (pcm, nsamples) /\
      Z.of_nat (List.length pcm) = 2 * nsamples /\
      stub_wave "out.wav"
        {| wav_nchannels := 1; wav_sampwidth := 2;
           wav_framerate := sr; wav_frames := pcm |} = inr tt /\
      (samplerate p = sr <-> 8000 <= sr <= 192000) /\
      dialogs a' = dialogs a.
Proof.
  intros a. eexists.
  assert (H : synthesize_to_wav poly_sin poly_cos stub_float stub_lines stub_wave
                stub_2f "out.wav" a = (true, ?[a'])) by (vm_compute; reflexivity).
  split; [exact H |].
  exact (synthesize_to_wav_rates poly_sin poly_cos stub_float stub_lines stub_wave
           stub_2f _ _ _ H).
Defined.

Lemma silent_schedule_witness :
  exists frames t,
    synthesize_pcm16 poly_sin poly_cos [(1, 0); (1, 2)]
      (Py.Float 700) (Py.Int 8000) (Py.Float 0.5) (Py.Float 5) = inr (frames, t) /\
    0 <= t /\ frames = repeat x00 (Z.to_nat (2 * t)).
Proof.
  eexists. eexists.
  assert (H : synthesize_pcm16 poly_sin poly_cos [(1, 0); (1, 2)]
                (Py.Float 700) (Py.Int 8000) (Py.Float 0.5) (Py.Float 5)
              = inr (?[frames], ?[t])) by (vm_compute; reflexivity).
  assert (Hrows : Forall (fun row : Z * Z => snd row <> 1) [(1, 0); (1, 2)])
    by (repeat constructor; discriminate).
  split; [exact H |].
  exact (silent_schedule poly_sin poly_cos _ _ _ _ _ _ _ Hrows H).
Defined.

Lemma parsed_schedule_synthesizes_witness :
  parse_paris ["2,1"; "# pause"; "3,0"]%string = inr [(2, 1); (3, 0)] /\
  exists p ls,
    clamp_params (Py.Float 700) (Py.Int 8000) (Py.Float 0.5) (Py.Float 5) = inr p /\
    seg_lens (samplerate p) [(2, 1); (3, 0)] = inr ls /\
    Forall (fun sl => 0 <= sl) ls /\
    (forall frames t,
       synthesize_pcm16 poly_sin poly_cos [(2, 1); (3, 0)]
         (Py.Float 700) (Py.Int 8000) (Py.Float 0.5) (Py.Float 5)
       = inr (frames, t) ->
       t = fold_right Z.add 0 ls /\
       Z.of_nat (List.length frames) = 2 * fold_right Z.add 0 ls) /\
    (returns_on_finite poly_sin -> returns_on_finite poly_cos ->
     fold_right Z.add 0 ls <= 2 ^ 53 ->
     forall e,
       synthesize_pcm16 poly_sin poly_cos [(2, 1); (3, 0)]
         (Py.Float 700) (Py.Int 8000) (Py.Float 0.5) (Py.Float 5) <> inl e).
Proof.
  assert (H : parse_paris ["2,1"; "# pause"; "3,0"]%string = inr [(2, 1); (3, 0)])
    by (vm_compute; reflexivity).
  assert (Hsmall : Forall (fun row : Z * Z => fst row < 2 ^ 53) [(2, 1); (3, 0)])
    by (repeat constructor).
  split; [exact H |].
  exact (parsed_schedule_synthesizes poly_sin poly_cos _ _ _ _ _ _ H Hsmall).
Defined.
